(** * Formlabs materials guide: category taxonomy, catalog normalisation
      and selection derivations of [src/app/page.tsx]

    The page module derives, once at load time, a category tree and two
    indices from [hierarchy.json], a normalised printer list from
    [materials.json], and then keeps a small selection state consistent.
    This file embeds those functions and proves the properties the
    specification states about them.

    Conventions of the embedding:
    - a JS string is a [string]; [===] on strings is Leibniz equality;
    - a JS array is a [list];
    - a JS [Set] is the list of its elements in insertion order
      ([new Set(items)] adds the items one by one, [add] ignores an element
      that is already present, iteration follows insertion order);
    - a plain JS object used as a dictionary ([Record<string, T>]) is the
      [gmap string T] of its own entries.  Where the module fills such an
      object, what the members inherited from [Object.prototype] change is
      part of the model: the [TypeError] of [buildCodeToCategoryPaths] for a
      code that names such a member, and the assignment to ["__proto__"] in
      [flattenCategoryCodes].  Where the page reads a dictionary it takes as
      given ([categoryCodeMap[id]], [codeToPaths[code]]), reading an absent
      key gives [None] ([undefined]), the keys read being taken not to name
      an inherited member;
    - strings are held as their UTF-8 bytes; case conversion is modelled on
      ASCII characters;
    - a [Map] is the list of its entries in insertion order;
    - a JSON document is a value of [json]; the entries of an object are
      listed in the order [Object.entries] enumerates them;
    - a number is [NaN], an infinity or a decimal [m * 10 ^ e]; only the
      sign of a difference of numbers is used. *)

From Stdlib Require Import ZArith QArith Ascii String Sorting.Sorted.
From Stdlib Require Import Decimal DecimalString DecimalPos DecimalN DecimalFacts.
From stdpp Require Import base option list strings gmap.

Set Warnings "-register-all".

Local Open Scope string_scope.
Local Open Scope list_scope.

(** ** JSON documents *)

(** JS numbers.  A finite number is written [m * 10 ^ e]; [Number::toString]
    prints exactly such a decimal.  The two zeros are identified, as [===]
    and SameValueZero do. *)
Inductive number : Type :=
  | NaN
  | Infinity (negative : bool)
  | Finite (m e : Z).

Inductive json : Type :=
  | JNull
  | JBool (b : bool)
  | JNum (n : number)
  | JStr (s : string)
  | JArr (items : list json)
  | JObj (entries : list (string * json)).

(** ** Helpers of the page module *)

Section js_set.
Context {A : Type} `{EqDecision A}.

(** [Set.prototype.add] on the insertion-ordered element list. *)
Definition set_add (s : list A) (x : A) : list A :=
  if decide (x ∈ s) then s else s ++ [x].

(** [new Set(items)]. *)
Definition new_Set (items : list A) : list A := foldl set_add [] items.

(** [const dedupe = (items) => Array.from(new Set(items))]. *)
Definition dedupe (items : list A) : list A := new_Set items.
End js_set.

(** The string-keyed members that a plain object ([{}]) inherits from
    [Object.prototype].  Reading one of these keys on an object that has no
    own entry for it gives the inherited member, which is truthy, not
    [undefined]. *)
Definition Object_prototype_members : list string :=
  ["constructor"; "__defineGetter__"; "__defineSetter__"; "hasOwnProperty";
   "__lookupGetter__"; "__lookupSetter__"; "isPrototypeOf"; "propertyIsEnumerable";
   "toString"; "valueOf"; "__proto__"; "toLocaleString"].

Definition inherited (key : string) : bool :=
  bool_decide (key ∈ Object_prototype_members).

(** [/[-_]/]: the separators [humanizeKey] splits on. *)
Definition is_key_separator (c : ascii) : bool :=
  bool_decide (c = "-"%char) || bool_decide (c = "_"%char).

(** [key.split(/[-_]/)]: the current segment is accumulated in [cur]. *)
Fixpoint split_key_aux (cur : string) (key : string) : list string :=
  match key with
  | EmptyString => [cur]
  | String c rest =>
      if is_key_separator c then cur :: split_key_aux "" rest
      else split_key_aux (cur +:+ String c "") rest
  end.

Definition split_key (key : string) : list string := split_key_aux "" key.

(** [toUpperCase] of one character of a string of ASCII characters: the
    letters [a] to [z] change case.  Outside ASCII [toUpperCase] follows the
    Unicode case mappings, which this definition does not. *)
Definition upper_char (c : ascii) : ascii :=
  let n := nat_of_ascii c in
  if (97 <=? n)%nat && (n <=? 122)%nat then ascii_of_nat (n - 32) else c.

(** [segment.charAt(0).toUpperCase() + segment.slice(1)]. *)
Definition capitalize (segment : string) : string :=
  match segment with
  | EmptyString => ""
  | String c rest => String (upper_char c) rest
  end.

Definition humanizeKey (key : string) : string :=
  String.concat " "
    (map capitalize
       (List.filter (fun s => negb (bool_decide (s = ""))) (split_key key))).

(** ** Category tree *)

Inductive CategoryNode : Type := mkCategoryNode {
  node_id : string;
  node_label : string;
  codes : list string;
  ownCodes : list string;
  children : list CategoryNode
}.

Abbreviation CategoryTree := (list CategoryNode).

(** [value.filter((code): code is string => typeof code === 'string')]. *)
Definition string_entries (items : list json) : list string :=
  omap (fun v => match v with JStr s => Some s | _ => None end) items.

(** [buildCategoryTree(node, path)].  Anything but a non-array object gives
    the empty tree; an object is mapped entry by entry. *)
Fixpoint buildCategoryTree (node : json) (path : list string) : CategoryTree :=
  match node with
  | JObj entries =>
      map (fun entry : string * json =>
             match entry with
             | (key, value) =>
                 let currentPath := path ++ [key] in
                 let id := String.concat "/" currentPath in
                 let label := humanizeKey key in
                 match value with
                 | JArr items =>
                     let own := dedupe (string_entries items) in
                     mkCategoryNode id label own own []
                 | _ =>
                     let children := buildCategoryTree value currentPath in
                     let codes := dedupe (flat_map codes children) in
                     mkCategoryNode id label codes [] children
                 end
             end) entries
  | _ => []
  end.

(** The plain object [flattenCategoryCodes] fills: its own entries, and the
    array that has become its prototype in place of [Object.prototype], if
    any. *)
Record CategoryCodeMap : Type := {
  own_entries : gmap string (list string);
  prototype_codes : option (list string)
}.

(** [map[id] = codes] on the plain object.  The key ["__proto__"] names the
    accessor inherited from [Object.prototype]: its setter makes the array
    the prototype of the object and no entry is stored.  Every other key
    gets an own entry, also when it names an inherited member. *)
Definition assign_codes (map : CategoryCodeMap) (id : string) (codes : list string)
  : CategoryCodeMap :=
  if bool_decide (id = "__proto__")
  then {| own_entries := own_entries map; prototype_codes := Some codes |}
  else {| own_entries := <[id := codes]> (own_entries map);
          prototype_codes := prototype_codes map |}.

(** [flattenCategoryCodes]: the inner [visit] writes [map[node.id] =
    node.codes] and then visits the children, in pre-order; a later node
    with the same id overwrites an earlier one. *)
Fixpoint flatten_visit (map : CategoryCodeMap) (node : CategoryNode) : CategoryCodeMap :=
  match node with
  | mkCategoryNode id _ codes _ children =>
      foldl flatten_visit (assign_codes map id codes) children
  end.

Definition flattenCategoryCodes (nodes : CategoryTree) : CategoryCodeMap :=
  foldl flatten_visit {| own_entries := ∅; prototype_codes := None |} nodes.

(** The separator of breadcrumb labels, with the bytes the string literal
    has in the source file, between two spaces. *)
Definition breadcrumb_separator : string := " â€º ".

(** [if (!map[code]) map[code] = new Set(); map[code].add(label)] on the
    plain object [map], of which the own entries are kept.  [None] is the
    [TypeError] that ends the construction: for a code without own entry
    that names a member inherited from [Object.prototype], [map[code]] is
    that member, no [Set] is stored, and the member has no [add] to call.
    Once thrown, the error passes through the remaining calls. *)
Definition register_path (label : string) (map : option (gmap string (list string)))
    (code : string) : option (gmap string (list string)) :=
  match map with
  | None => None
  | Some own =>
      match own !! code with
      | Some labels => Some (<[code := set_add labels label]> own)
      | None =>
          if inherited code then None
          else Some (<[code := set_add [] label]> own)
      end
  end.

(** The inner [visit] of [buildCodeToCategoryPaths]. *)
Fixpoint paths_visit (pathLabels : list string)
    (map : option (gmap string (list string))) (node : CategoryNode)
  : option (gmap string (list string)) :=
  match node with
  | mkCategoryNode _ label _ ownCodes children =>
      let nextPath := pathLabels ++ [label] in
      let map1 :=
        match ownCodes with
        | [] => map
        | _ :: _ =>
            foldl (register_path (String.concat breadcrumb_separator nextPath))
                  map ownCodes
        end in
      foldl (paths_visit nextPath) map1 children
  end.

(** ** [Array.prototype.sort]

    The comparator's result is used through its sign only; [SortCompare]
    reads a [NaN] result as [+0].  The sort is stable, so for a consistent
    comparator the result is the one of a stable insertion sort, which is
    how it is written here: each element goes after the elements that do not
    compare greater than it. *)
Section sort.
Context {A : Type} (comparefn : A -> A -> comparison).

Fixpoint sort_insert (x : A) (sorted : list A) : list A :=
  match sorted with
  | [] => [x]
  | y :: rest =>
      match comparefn x y with
      | Lt => x :: y :: rest
      | _ => y :: sort_insert x rest
      end
  end.

Definition array_sort (items : list A) : list A :=
  foldl (fun sorted x => sort_insert x sorted) [] items.
End sort.

Section code_paths.
(** The sign of [a.localeCompare(b)], which depends on the host's locale. *)
Variable localeCompare : string -> string -> comparison.

Definition buildCodeToCategoryPaths (nodes : CategoryTree)
  : option (gmap string (list string)) :=
  match foldl (paths_visit []) (Some ∅) nodes with
  | None => None
  | Some map => Some ((fun labels => array_sort localeCompare labels) <$> map)
  end.
End code_paths.

(** ** Numbers *)

(** The rational a finite number stands for. *)
Definition Qvalue (m e : Z) : Q := inject_Z m * (10 # 1) ^ e.

(** SameValueZero, the key equality of [Map] and [Set]: [NaN] equals
    itself. *)
Definition SameValueZero (a b : number) : bool :=
  match a, b with
  | NaN, NaN => true
  | Infinity s, Infinity t => Bool.eqb s t
  | Finite m e, Finite m' e' => Qeq_bool (Qvalue m e) (Qvalue m' e')
  | _, _ => false
  end.

(** The sign of [a - b], as [SortCompare] reads a comparator's result: a
    [NaN] difference counts as [+0].  The difference of two finite numbers
    has the sign of the exact difference. *)
Definition sub_sign (a b : number) : comparison :=
  match a, b with
  | NaN, _ | _, NaN => Eq
  | Infinity s, Infinity t =>
      match s, t with
      | true, false => Lt
      | false, true => Gt
      | _, _ => Eq
      end
  | Infinity s, Finite _ _ => if s then Lt else Gt
  | Finite _ _, Infinity t => if t then Gt else Lt
  | Finite m e, Finite m' e' => Qcompare (Qvalue m e) (Qvalue m' e')
  end.

Definition is_NaN (a : number) : bool :=
  match a with NaN => true | _ => false end.

(** [Number(value)] for a value that is a number already. *)
Definition Number (value : number) : number := value.

(** *** [Number::toString] *)

Definition is_zero_char (c : ascii) : bool := bool_decide (c = "0"%char).

Fixpoint all_zeros (s : string) : bool :=
  match s with
  | EmptyString => true
  | String c rest => is_zero_char c && all_zeros rest
  end.

Fixpoint strip_trailing_zeros (s : string) : string :=
  match s with
  | EmptyString => ""
  | String c rest =>
      if all_zeros (String c rest) then "" else String c (strip_trailing_zeros rest)
  end.

Fixpoint zeros (n : nat) : string :=
  match n with
  | O => ""
  | S n' => String "0" (zeros n')
  end.

Fixpoint str_take (n : nat) (s : string) : string :=
  match n, s with
  | S n', String c rest => String c (str_take n' rest)
  | _, _ => ""
  end.

Fixpoint str_drop (n : nat) (s : string) : string :=
  match n, s with
  | S n', String _ rest => str_drop n' rest
  | _, _ => s
  end.

(** The decimal digits of a positive integer, most significant first. *)
Definition digits_of_pos (p : positive) : string :=
  NilEmpty.string_of_uint (Pos.to_uint p).

Definition digits_of_N (n : N) : string :=
  match n with
  | N0 => "0"
  | Npos p => digits_of_pos p
  end.

(** The digits [s] (without trailing zeros) and the exponent [n] of
    [Number::toString]: the number is [0.s * 10 ^ n]. *)
Definition significand (p : positive) : string :=
  strip_trailing_zeros (digits_of_pos p).

Definition point_position (p : positive) (e : Z) : Z :=
  e + Z.of_nat (String.length (digits_of_pos p)).

Definition positive_to_string (p : positive) (e : Z) : string :=
  let s := significand p in
  let k := Z.of_nat (String.length s) in
  let n := point_position p e in
  if (k <=? n)%Z && (n <=? 21)%Z then
    s +:+ zeros (Z.to_nat (n - k))
  else if (0 <? n)%Z && (n <=? 21)%Z then
    str_take (Z.to_nat n) s +:+ "." +:+ str_drop (Z.to_nat n) s
  else if (-6 <? n)%Z && (n <=? 0)%Z then
    "0." +:+ zeros (Z.to_nat (- n)) +:+ s
  else
    let exponent :=
      (if (0 <=? n - 1)%Z then "+" else "-") +:+ digits_of_N (Z.abs_N (n - 1)) in
    match s with
    | String d EmptyString => String d "" +:+ "e" +:+ exponent
    | _ => str_take 1 s +:+ "." +:+ str_drop 1 s +:+ "e" +:+ exponent
    end.

Definition NumberToString (x : number) : string :=
  match x with
  | NaN => "NaN"
  | Infinity negative => if negative then "-Infinity" else "Infinity"
  | Finite Z0 _ => "0"
  | Finite (Zpos p) e => positive_to_string p e
  | Finite (Zneg p) e => "-" +:+ positive_to_string p e
  end.

(** ** Printer catalog *)

Record SceneSettings : Type := {
  machine_type : string;
  material_code : string;
  layer_thickness_mm : number
}.

Record RawMaterialSetting : Type := {
  setting_label : string;
  scene_settings : SceneSettings
}.

Record RawMaterial : Type := {
  raw_label : string;
  raw_description : string;
  material_settings : list RawMaterialSetting
}.

Record RawPrinter : Type := {
  raw_printer_label : string;
  supported_machine_type_ids : list string;
  supported_product_names : option (list string);
  raw_materials : list RawMaterial
}.

Record RawMaterialData : Type := {
  printer_types : list RawPrinter
}.

Record LayerOption : Type := {
  layer_id : string;
  layer_label : string;
  layerThickness : number;
  scene : SceneSettings
}.

Record MaterialOption : Type := {
  code : string;
  material_label : string;
  description : string;
  categoryPaths : list string;
  settings : list LayerOption
}.

Record PrinterOption : Type := {
  printer_id : string;
  printer_label : string;
  machineTypeIds : list string;
  productNames : list string;
  materials : list MaterialOption
}.

(** A [Map<number, V>]: the entries in insertion order, keys compared with
    SameValueZero. *)
Section js_map.
Context {V : Type}.

Definition Map_has (m : list (number * V)) (key : number) : bool :=
  existsb (fun entry => SameValueZero (fst entry) key) m.

(** [Map.prototype.set]: an existing key keeps its position. *)
Fixpoint Map_set (m : list (number * V)) (key : number) (value : V)
  : list (number * V) :=
  match m with
  | [] => [(key, value)]
  | (k, v) :: rest =>
      if SameValueZero k key then (k, value) :: rest
      else (k, v) :: Map_set rest key value
  end.

Definition Map_values (m : list (number * V)) : list V := map snd m.
End js_map.

(** The layer option [buildPrinters] makes of one raw setting. *)
Definition layer_option_of (setting : RawMaterialSetting) : LayerOption :=
  let thickness := Number (layer_thickness_mm (scene_settings setting)) in
  {| layer_id := material_code (scene_settings setting) +:+ "-"
                 +:+ NumberToString thickness;
     layer_label := setting_label setting;
     layerThickness := thickness;
     scene := {| machine_type := machine_type (scene_settings setting);
                 material_code := material_code (scene_settings setting);
                 layer_thickness_mm := layer_thickness_mm (scene_settings setting) |} |}.

(** The body of [material.material_settings.forEach((setting) => ...)]. *)
Definition add_setting (thicknessMap : list (number * LayerOption))
    (setting : RawMaterialSetting) : list (number * LayerOption) :=
  let thickness := Number (layer_thickness_mm (scene_settings setting)) in
  if negb (Map_has thicknessMap thickness)
  then Map_set thicknessMap thickness (layer_option_of setting)
  else thicknessMap.

Definition thicknessMap_of (material : RawMaterial) : list (number * LayerOption) :=
  foldl add_setting [] (material_settings material).

(** [(a, b) => a.layerThickness - b.layerThickness]. *)
Definition by_thickness (a b : LayerOption) : comparison :=
  sub_sign (layerThickness a) (layerThickness b).

(** [toLowerCase] of one character of a string of ASCII characters; outside
    ASCII [toLowerCase] follows the Unicode case mappings, which this
    definition does not. *)
Definition lower_char (c : ascii) : ascii :=
  let n := nat_of_ascii c in
  if (65 <=? n)%nat && (n <=? 90)%nat then ascii_of_nat (n + 32) else c.

Fixpoint toLowerCase (s : string) : string :=
  match s with
  | EmptyString => ""
  | String c rest => String (lower_char c) (toLowerCase rest)
  end.

(** [[a-z0-9]]. *)
Definition is_slug_char (c : ascii) : bool :=
  let n := nat_of_ascii c in
  ((97 <=? n)%nat && (n <=? 122)%nat) || ((48 <=? n)%nat && (n <=? 57)%nat).

(** [.replace(/[^a-z0-9]+/g, '-')]; [in_run] says that the previous
    character was replaced already. *)
Fixpoint replace_runs (in_run : bool) (s : string) : string :=
  match s with
  | EmptyString => ""
  | String c rest =>
      if is_slug_char c then String c (replace_runs false rest)
      else if in_run then replace_runs true rest
      else String "-" (replace_runs true rest)
  end.

Section catalog.
Variable localeCompare : string -> string -> comparison.

(** The callback of [printer.materials.map]. *)
Definition buildMaterial (codeToPaths : gmap string (list string))
    (material : RawMaterial) : MaterialOption :=
  let thicknessMap := thicknessMap_of material in
  let materialCode :=
    match head (material_settings material) with
    | Some first => material_code (scene_settings first)
    | None => raw_label material
    end in
  {| code := materialCode;
     material_label := raw_label material;
     description := raw_description material;
     categoryPaths := default [] (codeToPaths !! materialCode);
     settings := array_sort by_thickness (Map_values thicknessMap) |}.

Definition buildPrinter (codeToPaths : gmap string (list string))
    (printer : RawPrinter) : PrinterOption :=
  let materials :=
    array_sort (fun a b => localeCompare (material_label a) (material_label b))
      (List.filter (fun material => (0 <? length (settings material))%nat)
         (map (buildMaterial codeToPaths) (raw_materials printer))) in
  let printerId :=
    match head (supported_machine_type_ids printer) with
    | Some id => id
    | None => replace_runs false (toLowerCase (raw_printer_label printer))
    end in
  {| printer_id := printerId;
     printer_label := raw_printer_label printer;
     machineTypeIds := supported_machine_type_ids printer;
     productNames := default [] (supported_product_names printer);
     materials := materials |}.

Definition buildPrinters (data : RawMaterialData)
    (codeToPaths : gmap string (list string)) : list PrinterOption :=
  array_sort (fun a b => localeCompare (printer_label a) (printer_label b))
    (List.filter (fun printer => (0 <? length (materials printer))%nat)
       (map (buildPrinter codeToPaths) (printer_types data))).
End catalog.

(** ** Selection state of the page *)

Record Selection : Type := {
  selectedPrinterId : string;
  selectedCategoryIds : list string;
  selectedMaterialCode : string;
  selectedThickness : string
}.

Section page.
(** The module-level constants [printers] and [categoryCodeMap], derived
    once from the bundled datasets. *)
Variable printers : list PrinterOption.
Variable categoryCodeMap : gmap string (list string).

Definition selectedPrinter (st : Selection) : option PrinterOption :=
  List.find (fun printer => bool_decide (printer_id printer = selectedPrinterId st))
    printers.

(** The [allowedCodes] set: the codes of every selected id, added one by
    one. *)
Definition allowedCodes (ids : list string) : list string :=
  foldl (fun allowed id =>
           foldl set_add allowed (default [] (categoryCodeMap !! id)))
        [] ids.

Definition filteredMaterials (st : Selection) : list MaterialOption :=
  match selectedPrinter st with
  | None => []
  | Some printer =>
      match selectedCategoryIds st with
      | [] => materials printer
      | _ :: _ =>
          let allowed := allowedCodes (selectedCategoryIds st) in
          List.filter (fun material => bool_decide (code material ∈ allowed))
            (materials printer)
      end
  end.

(** The value of [selectedMaterialCode] after the first effect. *)
Definition repairMaterial (st : Selection) : string :=
  match selectedPrinter st with
  | None => ""
  | Some _ =>
      let exists_ :=
        existsb (fun material => bool_decide (code material = selectedMaterialCode st))
          (filteredMaterials st) in
      if negb exists_
      then match head (filteredMaterials st) with
           | Some material => code material
           | None => ""
           end
      else selectedMaterialCode st
  end.

Definition selectedMaterial (st : Selection) : option MaterialOption :=
  List.find (fun material => bool_decide (code material = selectedMaterialCode st))
    (filteredMaterials st).

(** [categoryCounts]: per id, the codes of the category that are codes of
    the selected printer's materials. *)
Definition categoryCounts (st : Selection) : gmap string nat :=
  match selectedPrinter st with
  | None => ∅
  | Some printer =>
      let printerCodes := new_Set (map code (materials printer)) in
      (fun codes =>
         foldl (fun count code =>
                  if decide (code ∈ printerCodes) then S count else count)
               0%nat codes) <$> categoryCodeMap
  end.

(** The value of [selectedThickness] after the second effect. *)
Definition repairThickness (st : Selection) : string :=
  match selectedMaterial st with
  | None => ""
  | Some material =>
      let exists_ :=
        existsb (fun setting =>
                   bool_decide (NumberToString (layerThickness setting)
                                = selectedThickness st))
          (settings material) in
      if negb exists_
      then match head (settings material) with
           | Some setting => NumberToString (layerThickness setting)
           | None => ""
           end
      else selectedThickness st
  end.

Definition thicknessOption (st : Selection) : option LayerOption :=
  match selectedMaterial st with
  | None => None
  | Some material =>
      List.find (fun setting =>
                   bool_decide (NumberToString (layerThickness setting)
                                = selectedThickness st))
        (settings material)
  end.

(** One commit of the two repair effects: both read the selection of the
    render they belong to, and their state updates are applied together. *)
Definition repairSelection (st : Selection) : Selection :=
  {| selectedPrinterId := selectedPrinterId st;
     selectedCategoryIds := selectedCategoryIds st;
     selectedMaterialCode := repairMaterial st;
     selectedThickness := repairThickness st |}.
End page.

(** ** [JSON.stringify] and [JSON.parse] *)

Definition dquote : ascii := ascii_of_nat 34.
Definition backslash : ascii := ascii_of_nat 92.
Definition newline : ascii := ascii_of_nat 10.

(** Lower-case hexadecimal digit of a number below 16. *)
Definition hex_digit (n : nat) : ascii :=
  if (n <? 10)%nat then ascii_of_nat (48 + n) else ascii_of_nat (87 + n).

(** QuoteJSONString on one character: the quote, the backslash and the
    control characters are escaped. *)
Definition quote_char (c : ascii) : string :=
  let n := nat_of_ascii c in
  if (n =? 8)%nat then String backslash "b"
  else if (n =? 9)%nat then String backslash "t"
  else if (n =? 10)%nat then String backslash "n"
  else if (n =? 12)%nat then String backslash "f"
  else if (n =? 13)%nat then String backslash "r"
  else if (n =? 34)%nat then String backslash (String dquote "")
  else if (n =? 92)%nat then String backslash (String backslash "")
  else if (n <? 32)%nat then
    String backslash
      (String "u" (String "0" (String "0"
         (String (hex_digit (n / 16)) (String (hex_digit (n mod 16)) "")))))
  else String c "".

Fixpoint quote_chars (s : string) : string :=
  match s with
  | EmptyString => ""
  | String c rest => quote_char c +:+ quote_chars rest
  end.

Definition QuoteJSONString (s : string) : string :=
  String dquote (quote_chars s +:+ String dquote "").

(** The gap of [JSON.stringify(value, null, 2)]. *)
Definition gap : string := "  ".

(** A number that is not finite is written [null]. *)
Definition SerializeJSONNumber (n : number) : string :=
  match n with
  | Finite _ _ => NumberToString n
  | _ => "null"
  end.

(** SerializeJSONProperty with the current indentation; an empty array or
    object has no line break. *)
Fixpoint SerializeJSONProperty (indent : string) (value : json) : string :=
  let stepback := indent in
  let indent := indent +:+ gap in
  let separator := "," +:+ String newline indent in
  match value with
  | JNull => "null"
  | JBool b => if b then "true" else "false"
  | JNum n => SerializeJSONNumber n
  | JStr s => QuoteJSONString s
  | JArr [] => "[]"
  | JArr items =>
      "[" +:+ String newline indent
      +:+ String.concat separator (map (SerializeJSONProperty indent) items)
      +:+ String newline stepback +:+ "]"
  | JObj [] => "{}"
  | JObj entries =>
      "{" +:+ String newline indent
      +:+ String.concat separator
            (map (fun entry : string * json =>
                    match entry with
                    | (key, v) =>
                        QuoteJSONString key +:+ ": " +:+ SerializeJSONProperty indent v
                    end) entries)
      +:+ String newline stepback +:+ "}"
  end.

Definition JSON_stringify (value : json) : string := SerializeJSONProperty "" value.

(** The object literal [copySceneSettings] serialises, and its payload. *)
Definition scene_object (scene : SceneSettings) : json :=
  JObj [("machine_type", JStr (machine_type scene));
        ("material_code", JStr (material_code scene));
        ("layer_thickness_mm", JNum (layer_thickness_mm scene))].

Definition scene_payload (scene : SceneSettings) : string :=
  JSON_stringify (scene_object scene).

(** *** Parsing *)

Definition is_ws (c : ascii) : bool :=
  let n := nat_of_ascii c in
  (n =? 32)%nat || (n =? 9)%nat || (n =? 10)%nat || (n =? 13)%nat.

Fixpoint skip_ws (s : string) : string :=
  match s with
  | EmptyString => ""
  | String c rest => if is_ws c then skip_ws rest else s
  end.

Definition is_digit (c : ascii) : bool :=
  let n := nat_of_ascii c in (48 <=? n)%nat && (n <=? 57)%nat.

Definition hex_value (c : ascii) : option nat :=
  let n := nat_of_ascii c in
  if (48 <=? n)%nat && (n <=? 57)%nat then Some (n - 48)
  else if (97 <=? n)%nat && (n <=? 102)%nat then Some (n - 87)
  else if (65 <=? n)%nat && (n <=? 70)%nat then Some (n - 55)
  else None.

Definition hex4 (a b c d : ascii) : option nat :=
  match hex_value a, hex_value b, hex_value c, hex_value d with
  | Some x, Some y, Some z, Some w => Some (((x * 16 + y) * 16 + z) * 16 + w)
  | _, _, _, _ => None
  end.

(** The bytes (UTF-8) of the code unit of a [\uXXXX] escape. *)
Definition code_unit_bytes (n : nat) : string :=
  if (n <? 128)%nat then String (ascii_of_nat n) ""
  else if (n <? 2048)%nat then
    String (ascii_of_nat (192 + n / 64)) (String (ascii_of_nat (128 + n mod 64)) "")
  else
    String (ascii_of_nat (224 + n / 4096))
      (String (ascii_of_nat (128 + (n / 64) mod 64))
         (String (ascii_of_nat (128 + n mod 64)) "")).

(** The character of a one-letter escape. *)
Definition unescape (c : ascii) : option ascii :=
  let n := nat_of_ascii c in
  if (n =? 34)%nat then Some dquote
  else if (n =? 92)%nat then Some backslash
  else if (n =? 47)%nat then Some "/"%char
  else if (n =? 98)%nat then Some (ascii_of_nat 8)
  else if (n =? 102)%nat then Some (ascii_of_nat 12)
  else if (n =? 110)%nat then Some (ascii_of_nat 10)
  else if (n =? 114)%nat then Some (ascii_of_nat 13)
  else if (n =? 116)%nat then Some (ascii_of_nat 9)
  else None.

Definition prepend (prefix : string) (parsed : option (string * string))
  : option (string * string) :=
  match parsed with
  | Some (s, rest) => Some (prefix +:+ s, rest)
  | None => None
  end.

(** The characters of a string literal after its opening quote, up to the
    closing quote; the result is the string and the text after it. *)
Fixpoint parse_string_body (s : string) : option (string * string) :=
  match s with
  | EmptyString => None
  | String c rest =>
      if (nat_of_ascii c =? 34)%nat then Some ("", rest)
      else if (nat_of_ascii c =? 92)%nat then
        match rest with
        | EmptyString => None
        | String e rest' =>
            if (nat_of_ascii e =? 117)%nat then
              match rest' with
              | String h1 (String h2 (String h3 (String h4 rest''))) =>
                  match hex4 h1 h2 h3 h4 with
                  | Some n => prepend (code_unit_bytes n) (parse_string_body rest'')
                  | None => None
                  end
              | _ => None
              end
            else
              match unescape e with
              | Some ch => prepend (String ch "") (parse_string_body rest')
              | None => None
              end
        end
      else if (nat_of_ascii c <? 32)%nat then None
      else prepend (String c "") (parse_string_body rest)
  end.

(** The longest prefix of digits, and the rest. *)
Fixpoint span_digits (s : string) : string * string :=
  match s with
  | EmptyString => ("", "")
  | String c rest =>
      if is_digit c
      then let (digits, rest') := span_digits rest in (String c digits, rest')
      else ("", s)
  end.

Fixpoint strip_leading_zeros (s : string) : string :=
  match s with
  | EmptyString => ""
  | String c rest => if is_zero_char c then strip_leading_zeros rest else s
  end.

(** The natural number a string of digits denotes. *)
Definition N_of_digits (digits : string) : N :=
  match NilEmpty.uint_of_string digits with
  | Some d => N.of_uint d
  | None => 0%N
  end.

(** The number with the given sign and decimal digits, times [10 ^ e]. *)
Definition decimal_number (negative : bool) (digits : string) (e : Z) : number :=
  let significant := strip_leading_zeros digits in
  let s := strip_trailing_zeros significant in
  match N_of_digits s with
  | N0 => Finite 0 0
  | Npos p =>
      let e' := (e + Z.of_nat (String.length significant)
                 - Z.of_nat (String.length s))%Z in
      Finite (if negative then Zneg p else Zpos p) e'
  end.

(** The exponent part of a number literal, if there is one. *)
Definition parse_exponent (s : string) : option (Z * string) :=
  match s with
  | String c rest =>
      if (nat_of_ascii c =? 101)%nat || (nat_of_ascii c =? 69)%nat then
        let (negative, rest1) :=
          match rest with
          | String sign rest' =>
              if (nat_of_ascii sign =? 45)%nat then (true, rest')
              else if (nat_of_ascii sign =? 43)%nat then (false, rest')
              else (false, rest)
          | EmptyString => (false, rest)
          end in
        let (digits, rest2) := span_digits rest1 in
        match digits with
        | EmptyString => None
        | _ => let n := Z.of_N (N_of_digits digits) in
               Some (if negative then (- n)%Z else n, rest2)
        end
      else Some (0%Z, s)
  | EmptyString => Some (0%Z, s)
  end.

(** The fraction part of a number literal, if there is one. *)
Definition parse_fraction (s : string) : option (string * string) :=
  match s with
  | String c rest =>
      if (nat_of_ascii c =? 46)%nat then
        let (digits, rest') := span_digits rest in
        match digits with
        | EmptyString => None
        | _ => Some (digits, rest')
        end
      else Some ("", s)
  | EmptyString => Some ("", s)
  end.

(** A JSON number literal: optional minus, integer part without a
    superfluous leading zero, optional fraction, optional exponent. *)
Definition parse_number (s : string) : option (number * string) :=
  let (negative, s1) :=
    match s with
    | String c rest => if (nat_of_ascii c =? 45)%nat then (true, rest) else (false, s)
    | EmptyString => (false, s)
    end in
  let (int, s2) := span_digits s1 in
  match int with
  | EmptyString => None
  | String d more =>
      if is_zero_char d && negb (bool_decide (more = "")) then None
      else
        match parse_fraction s2 with
        | None => None
        | Some (frac, s3) =>
            match parse_exponent s3 with
            | None => None
            | Some (e, s4) =>
                Some (decimal_number negative (int +:+ frac)
                        (e - Z.of_nat (String.length frac)), s4)
            end
        end
  end.

(** [CreateDataProperty] while parsing an object: a repeated key keeps its
    place and takes the later value. *)
Fixpoint object_set (entries : list (string * json)) (key : string) (value : json)
  : list (string * json) :=
  match entries with
  | [] => [(key, value)]
  | (k, v) :: rest =>
      if bool_decide (k = key) then (k, value) :: rest
      else (k, v) :: object_set rest key value
  end.

(** A literal name at the head of the text. *)
Fixpoint parse_literal (name : string) (s : string) : option string :=
  match name, s with
  | EmptyString, _ => Some s
  | String c name', String c' s' =>
      if bool_decide (c = c') then parse_literal name' s' else None
  | _, _ => None
  end.

(** A JSON value, with the text after it; [fuel] bounds the nesting and the
    number of elements. *)
Fixpoint parse_value (fuel : nat) (s : string) : option (json * string) :=
  match fuel with
  | O => None
  | S fuel' =>
      match skip_ws s with
      | EmptyString => None
      | String c rest =>
          let n := nat_of_ascii c in
          if (n =? 34)%nat then
            match parse_string_body rest with
            | Some (str, rest') => Some (JStr str, rest')
            | None => None
            end
          else if (n =? 123)%nat then
            match skip_ws rest with
            | String c' rest' =>
                if (nat_of_ascii c' =? 125)%nat then Some (JObj [], rest')
                else parse_members fuel' [] (skip_ws rest)
            | EmptyString => None
            end
          else if (n =? 91)%nat then
            match skip_ws rest with
            | String c' rest' =>
                if (nat_of_ascii c' =? 93)%nat then Some (JArr [], rest')
                else parse_elements fuel' [] (skip_ws rest)
            | EmptyString => None
            end
          else if (n =? 116)%nat then
            option_map (fun r => (JBool true, r)) (parse_literal "true" (String c rest))
          else if (n =? 102)%nat then
            option_map (fun r => (JBool false, r)) (parse_literal "false" (String c rest))
          else if (n =? 110)%nat then
            option_map (fun r => (JNull, r)) (parse_literal "null" (String c rest))
          else
            match parse_number (String c rest) with
            | Some (x, rest') => Some (JNum x, rest')
            | None => None
            end
      end
  end
with parse_members (fuel : nat) (acc : list (string * json)) (s : string)
  : option (json * string) :=
  match fuel with
  | O => None
  | S fuel' =>
      match skip_ws s with
      | String c rest =>
          if (nat_of_ascii c =? 34)%nat then
            match parse_string_body rest with
            | Some (key, rest1) =>
                match skip_ws rest1 with
                | String colon rest2 =>
                    if (nat_of_ascii colon =? 58)%nat then
                      match parse_value fuel' rest2 with
                      | Some (v, rest3) =>
                          let acc' := object_set acc key v in
                          match skip_ws rest3 with
                          | String c' rest4 =>
                              if (nat_of_ascii c' =? 44)%nat
                              then parse_members fuel' acc' rest4
                              else if (nat_of_ascii c' =? 125)%nat
                              then Some (JObj acc', rest4)
                              else None
                          | EmptyString => None
                          end
                      | None => None
                      end
                    else None
                | EmptyString => None
                end
            | None => None
            end
          else None
      | EmptyString => None
      end
  end
with parse_elements (fuel : nat) (acc : list json) (s : string)
  : option (json * string) :=
  match fuel with
  | O => None
  | S fuel' =>
      match parse_value fuel' s with
      | Some (v, rest) =>
          match skip_ws rest with
          | String c rest' =>
              if (nat_of_ascii c =? 44)%nat
              then parse_elements fuel' (acc ++ [v]) rest'
              else if (nat_of_ascii c =? 93)%nat
              then Some (JArr (acc ++ [v]), rest')
              else None
          | EmptyString => None
          end
      | None => None
      end
  end.

(** [JSON.parse(text)]: one value and nothing but white space after it.
    The length of the text is fuel enough. *)
Definition JSON_parse (text : string) : option json :=
  match parse_value (S (String.length text)) text with
  | Some (v, rest) =>
      match skip_ws rest with
      | EmptyString => Some v
      | _ => None
      end
  | None => None
  end.

(** The representation of a number is the one [Number::toString] reads the
    digits off: zero is [0 * 10 ^ 0], and the mantissa of another finite
    number does not end in the digit 0.  Every finite number has exactly one
    such representation. *)
Definition canonical (x : number) : bool :=
  match x with
  | Finite Z0 e => (e =? 0)%Z
  | Finite (Zpos p) _ | Finite (Zneg p) _ =>
      bool_decide (strip_trailing_zeros (digits_of_pos p) = digits_of_pos p)
  | _ => true
  end.

Definition is_finite (x : number) : bool :=
  match x with Finite _ _ => true | _ => false end.

(** Vocabulary of the parser's properties: a string of digits; a text that
    does not continue a number literal, or a run of digits; and the text of
    the payload of a scene, given the text of its thickness. *)
Fixpoint all_digits (s : string) : bool :=
  match s with
  | EmptyString => true
  | String c rest => is_digit c && all_digits rest
  end.

Definition number_ends (rest : string) : bool :=
  match rest with
  | EmptyString => true
  | String c _ =>
      negb (is_digit c) && negb (bool_decide (c = "."%char))
      && negb (bool_decide (c = "e"%char)) && negb (bool_decide (c = "E"%char))
  end.

Definition digits_end (rest : string) : bool :=
  match rest with EmptyString => true | String c _ => negb (is_digit c) end.

Definition scene_text (mt mc numtext : string) : string :=
  String "{" (String newline ("  " +:+ QuoteJSONString "machine_type" +:+ ": "
    +:+ QuoteJSONString mt +:+ "," +:+ String newline ("  "
    +:+ QuoteJSONString "material_code" +:+ ": " +:+ QuoteJSONString mc
    +:+ "," +:+ String newline ("  " +:+ QuoteJSONString "layer_thickness_mm"
    +:+ ": " +:+ numtext +:+ String newline "}")))).

(** ** Vocabulary of the statements *)

(** What deduplicating a list leaves: its elements, each one once, at the
    place of its first occurrence. *)
Fixpoint distinct {A : Type} `{EqDecision A} (items : list A) : list A :=
  match items with
  | [] => []
  | x :: rest => x :: List.filter (fun y => negb (bool_decide (y = x))) (distinct rest)
  end.

(** The nodes of the subtree rooted at a node, in pre-order, the node itself
    first; and the nodes of a whole tree. *)
Fixpoint subtree (node : CategoryNode) : list CategoryNode :=
  match node with
  | mkCategoryNode _ _ _ _ children => node :: flat_map subtree children
  end.

Definition all_nodes (tree : CategoryTree) : list CategoryNode :=
  flat_map subtree tree.

(** The own codes of a node and of all its descendants, in pre-order. *)
Fixpoint descendantCodes (node : CategoryNode) : list string :=
  match node with
  | mkCategoryNode _ _ _ own children => own ++ flat_map descendantCodes children
  end.

(** The node [buildCategoryTree] makes of one entry of an object. *)
Definition entry_node (path : list string) (key : string) (value : json)
  : CategoryNode :=
  let currentPath := path ++ [key] in
  match value with
  | JArr items =>
      let own := dedupe (string_entries items) in
      mkCategoryNode (String.concat "/" currentPath) (humanizeKey key) own own []
  | _ =>
      let children := buildCategoryTree value currentPath in
      mkCategoryNode (String.concat "/" currentPath) (humanizeKey key)
        (dedupe (flat_map codes children)) [] children
  end.

(** The nodes of a subtree, each with the labels on the way from the root
    to it (its ancestry), in pre-order. *)
Fixpoint labelled_subtree (pathLabels : list string) (node : CategoryNode)
  : list (list string * CategoryNode) :=
  match node with
  | mkCategoryNode _ label _ _ children =>
      (pathLabels ++ [label], node)
      :: flat_map (labelled_subtree (pathLabels ++ [label])) children
  end.

Definition labelled_nodes (tree : CategoryTree) : list (list string * CategoryNode) :=
  flat_map (labelled_subtree []) tree.

(** The breadcrumb of an ancestry. *)
Definition breadcrumb (labels : list string) : string :=
  String.concat breadcrumb_separator labels.

(** The order a comparator sorts by: [a] may come before [b]. *)
Definition not_after {A} (comparefn : A -> A -> comparison) (a b : A) : Prop :=
  comparefn a b <> Gt.

(** A consistent comparator, as [Array.prototype.sort] requires for a
    defined sort order. *)
Definition consistent_comparator {A} (comparefn : A -> A -> comparison) : Prop :=
  (forall a b, comparefn b a = CompOpp (comparefn a b))
  /\ (forall a b c, comparefn a b <> Gt -> comparefn b c <> Gt -> comparefn a c <> Gt).

(** The registrations [visit] performs in a subtree, in order: each own
    code of each node with the breadcrumb of the node. *)
Definition registrations (tree : CategoryTree) : list (string * string) :=
  flat_map (fun entry => map (fun code => (code, breadcrumb (fst entry)))
                             (ownCodes (snd entry)))
           (labelled_nodes tree).

(** The breadcrumbs registered for one code, in order. *)
Definition registered_for (code : string) (regs : list (string * string))
  : list string :=
  map snd (List.filter (fun reg => bool_decide (fst reg = code)) regs).

(** Performing a list of registrations on the index under construction,
    as [visit] does. *)
Definition register_each (map : option (gmap string (list string)))
    (regs : list (string * string)) : option (gmap string (list string)) :=
  foldl (fun m reg => register_path (snd reg) m (fst reg)) map regs.

(** The entries a list of registrations amounts to: each breadcrumb is added
    to the set of its code. *)
Definition add_registration (map : gmap string (list string)) (reg : string * string)
  : gmap string (list string) :=
  <[fst reg := set_add (default [] (map !! fst reg)) (snd reg)]> map.

Definition register_all (map : gmap string (list string))
    (regs : list (string * string)) : gmap string (list string) :=
  foldl add_registration map regs.

(** A material matches one of the selected filters: its code is among the
    aggregated codes [categoryCodeMap] holds for one of the ids. *)
Definition matches_some_filter (categoryCodeMap : gmap string (list string))
    (ids : list string) (material : MaterialOption) : bool :=
  existsb (fun id => bool_decide (code material ∈ default [] (categoryCodeMap !! id)))
    ids.

(** The number of materials of a printer whose code is among given codes,
    and the number of given codes that are codes of materials of the
    printer. *)
Definition materials_in_category (printer : PrinterOption) (codes : list string) : nat :=
  length (List.filter (fun material => bool_decide (code material ∈ codes))
            (materials printer)).

Definition category_codes_of_printer (printer : PrinterOption) (codes : list string)
  : nat :=
  length (List.filter (fun c => bool_decide (c ∈ List.map code (materials printer)))
            codes).

(** ** Sample data *)

Definition sample_scene (material_code : string) (thickness : number) : SceneSettings :=
  {| machine_type := "FORM-4-0"; material_code := material_code;
     layer_thickness_mm := thickness |}.

Definition sample_setting (label material_code : string) (thickness : number)
  : RawMaterialSetting :=
  {| setting_label := label; scene_settings := sample_scene material_code thickness |}.

(** Grey resin: two settings at 0.1 mm, the second one with another code,
    and one at 0.05 mm with a third code. *)
Definition sample_grey : RawMaterial :=
  {| raw_label := "Grey Resin"; raw_description := "General purpose";
     material_settings :=
       [sample_setting "Grey 100" "FLGPGR05" (Finite 1 (-1));
        sample_setting "Grey 100 (fast)" "FLGPGR05-F" (Finite 1 (-1));
        sample_setting "Grey 50" "FLGPGR04" (Finite 5 (-2))] |}.

(** A second material whose first setting carries the code of grey resin. *)
Definition sample_grey_legacy : RawMaterial :=
  {| raw_label := "Grey Resin (legacy)"; raw_description := "Older profile";
     material_settings := [sample_setting "Legacy 100" "FLGPGR05" (Finite 1 (-1))] |}.

Definition sample_clear : RawMaterial :=
  {| raw_label := "Clear Resin"; raw_description := "Transparent";
     material_settings :=
       [sample_setting "Clear 100" "FLGPCL05" (Finite 1 (-1));
        sample_setting "Clear 25" "FLGPCL05" (Finite 25 (-3))] |}.

(** A material whose settings all have a thickness that is [NaN]. *)
Definition sample_unparseable : RawMaterial :=
  {| raw_label := "Draft Resin"; raw_description := "No thickness";
     material_settings :=
       [sample_setting "Draft A" "FLDRGR02" NaN;
        sample_setting "Draft B" "FLDRGR02" NaN] |}.

(** A material with a thickness too large for a finite number, as the
    literal [1e999] in the catalog gives. *)
Definition sample_overflow : RawMaterial :=
  {| raw_label := "Rigid Resin"; raw_description := "Overflowing thickness";
     material_settings := [sample_setting "Rigid" "FLRG1001" (Infinity false)] |}.

(** A material with one [NaN] thickness and one finite thickness. *)
Definition sample_mixed : RawMaterial :=
  {| raw_label := "Tough Resin"; raw_description := "Partly unparseable";
     material_settings :=
       [sample_setting "Tough ?" "FLTO2001" NaN;
        sample_setting "Tough 100" "FLTO2001" (Finite 1 (-1))] |}.

Definition sample_catalog : RawMaterialData :=
  {| printer_types :=
       [{| raw_printer_label := "Form 4";
           supported_machine_type_ids := ["FORM-4-0"];
           supported_product_names := Some ["Form 4"; "Form 4B"];
           raw_materials := [sample_grey; sample_grey_legacy; sample_clear] |}] |}.

Definition sample_taxonomy : json :=
  JObj [("general", JArr [JStr "FLGPGR05"; JStr "FLGPCL05"]);
        ("dental", JObj [("models", JArr [JStr "FLGPGR05"])]);
        ("engineering", JArr [JStr "FLGPCL05"; JNum (Finite 7 0)])].

Definition sample_tree : CategoryTree := buildCategoryTree sample_taxonomy [].

Definition sample_categoryCodeMap : gmap string (list string) :=
  own_entries (flattenCategoryCodes sample_tree).

Definition sample_codeToCategoryPaths : gmap string (list string) :=
  default ∅ (buildCodeToCategoryPaths String.compare sample_tree).

Definition sample_printers : list PrinterOption :=
  buildPrinters String.compare sample_catalog sample_codeToCategoryPaths.

Definition sample_selection (ids : list string) (materialCode thickness : string)
  : Selection :=
  {| selectedPrinterId := "FORM-4-0"; selectedCategoryIds := ids;
     selectedMaterialCode := materialCode; selectedThickness := thickness |}.

(** The layer options the thickness selector offers: those of the selected
    material, none without a selected material. *)
Definition thicknessOptions (printers : list PrinterOption)
    (categoryCodeMap : gmap string (list string)) (st : Selection) : list LayerOption :=
  match selectedMaterial printers categoryCodeMap st with
  | Some material => settings material
  | None => []
  end.

(** The selected material code is that of a filtered material; the selected
    thickness is the printed thickness of a layer option of the selected
    material. *)
Definition material_selected (printers : list PrinterOption)
    (categoryCodeMap : gmap string (list string)) (st : Selection) : Prop :=
  exists material,
    material ∈ filteredMaterials printers categoryCodeMap st
    /\ code material = selectedMaterialCode st.

Definition thickness_selected (printers : list PrinterOption)
    (categoryCodeMap : gmap string (list string)) (st : Selection) : Prop :=
  exists setting,
    setting ∈ thicknessOptions printers categoryCodeMap st
    /\ NumberToString (layerThickness setting) = selectedThickness st.

(** The material a selection designates: the first of the filtered
    materials that has the selected code.  And a thickness that a material
    offers: the printed thickness of one of its layer options. *)
Definition current_material (printers : list PrinterOption)
    (categoryCodeMap : gmap string (list string)) (st : Selection)
    (material : MaterialOption) : Prop :=
  exists i,
    filteredMaterials printers categoryCodeMap st !! i = Some material
    /\ code material = selectedMaterialCode st
    /\ forall j other, (j < i)%nat ->
                       filteredMaterials printers categoryCodeMap st !! j = Some other ->
                       code other <> selectedMaterialCode st.

Definition offers_thickness (material : MaterialOption) (thickness : string) : Prop :=
  exists option, option ∈ settings material
                 /\ NumberToString (layerThickness option) = thickness.

(** The key of a raw setting in the thickness map. *)
Definition thickness_key (setting : RawMaterialSetting) : number :=
  Number (layer_thickness_mm (scene_settings setting)).

(** [setting] is at position [i] and no earlier setting has its key. *)
Definition first_with_thickness (raw : list RawMaterialSetting) (i : nat)
    (setting : RawMaterialSetting) : Prop :=
  raw !! i = Some setting
  /\ forall j earlier, (j < i)%nat -> raw !! j = Some earlier ->
                       SameValueZero (thickness_key earlier) (thickness_key setting)
                       = false.

(** [a < b] and [a <= b] on numbers; both are false when [a] or [b] is
    [NaN]. *)
Definition number_lt (a b : number) : Prop := sub_sign a b = Lt.

Definition number_le (a b : number) : Prop :=
  is_NaN a = false /\ is_NaN b = false /\ sub_sign a b <> Gt.

(** ** Initial selection, category toggling and copy status *)

Definition DEFAULT_PRINTER_LABEL : string := "Form 4".

(** [printers.find((printer) => printer.label === DEFAULT_PRINTER_LABEL)?.id
    ?? printers[0]?.id ?? '']. *)
Definition defaultPrinterId (printers : list PrinterOption) : string :=
  match List.find (fun printer => bool_decide (printer_label printer = DEFAULT_PRINTER_LABEL))
          printers with
  | Some printer => printer_id printer
  | None =>
      match head printers with
      | Some printer => printer_id printer
      | None => ""
      end
  end.

(** The initial values of the four [useState] calls of the selection. *)
Definition initialSelection (printers : list PrinterOption) : Selection :=
  {| selectedPrinterId := defaultPrinterId printers;
     selectedCategoryIds := [];
     selectedMaterialCode := "";
     selectedThickness := "" |}.

(** The state updater of [toggleCategory]. *)
Definition toggleCategory (id : string) (prev : list string) : list string :=
  if bool_decide (id ∈ prev)
  then List.filter (fun item => negb (bool_decide (item = id))) prev
  else prev ++ [id].

(** [setSelectedCategoryIds] applied to a selection. *)
Definition with_categories (st : Selection) (ids : list string) : Selection :=
  {| selectedPrinterId := selectedPrinterId st;
     selectedCategoryIds := ids;
     selectedMaterialCode := selectedMaterialCode st;
     selectedThickness := selectedThickness st |}.


(** The copy status: ['idle' | 'copied' | 'error']. *)
Inductive CopyState : Type := copy_idle | copy_copied | copy_error.

(** The status together with the number of [setTimeout] callbacks that have
    been scheduled and have not run yet; each of them is
    [() => setCopyState('idle')]. *)
Record CopyStatus : Type := {
  copyState : CopyState;
  pendingResets : nat
}.

(** What happens to the status: the clipboard write of a copy resolves or
    rejects, or a scheduled reset runs. *)
Inductive CopyEvent : Type := WriteResolved | WriteRejected | ResetFired.

Definition initialCopyStatus : CopyStatus :=
  {| copyState := copy_idle; pendingResets := 0 |}.

(** [handleCopy]: [onSuccess] and [onError] set the status and schedule a
    reset; a reset that runs sets the status to idle.  No reset runs when
    none is scheduled. *)
Definition copy_step (status : CopyStatus) (event : CopyEvent) : CopyStatus :=
  match event with
  | WriteResolved =>
      {| copyState := copy_copied; pendingResets := S (pendingResets status) |}
  | WriteRejected =>
      {| copyState := copy_error; pendingResets := S (pendingResets status) |}
  | ResetFired =>
      match pendingResets status with
      | O => status
      | S pending => {| copyState := copy_idle; pendingResets := pending |}
      end
  end.

Definition copy_run (events : list CopyEvent) : CopyStatus :=
  foldl copy_step initialCopyStatus events.

(** ** Further vocabulary of the statements *)

(** Every character of a string passes a test. *)
Fixpoint string_forallb (P : ascii -> bool) (s : string) : bool :=
  match s with
  | EmptyString => true
  | String c rest => P c && string_forallb P rest
  end.

Definition not_key_separator (c : ascii) : bool := negb (is_key_separator c).

(** A string of ASCII characters: on these [toUpperCase] changes the letters
    [a] to [z] and nothing else, one character for one. *)
Definition is_ascii_char (c : ascii) : bool := (nat_of_ascii c <? 128)%nat.

Definition ascii_only (s : string) : bool := string_forallb is_ascii_char s.

(** The last node of a tree, in pre-order, that has a given id. *)
Definition last_with_id (id : string) (nodes : list CategoryNode)
  : option CategoryNode :=
  last (List.filter (fun node => bool_decide (node_id node = id)) nodes).

(** A key that holds no slash. *)
Definition not_slash (c : ascii) : bool := negb (bool_decide (c = "/"%char)).

Definition slash_free (key : string) : bool := string_forallb not_slash key.

(** A taxonomy document whose objects have no key twice and no key with a
    slash, at every depth that [buildCategoryTree] descends to. *)
Fixpoint well_keyed (doc : json) : bool :=
  match doc with
  | JObj entries =>
      bool_decide (NoDup (map fst entries))
      && forallb (fun entry : string * json =>
                    match entry with
                    | (key, value) => slash_free key && well_keyed value
                    end) entries
  | _ => true
  end.

(** The chains of keys that lead to the nodes [buildCategoryTree] makes of a
    document, in pre-order. *)
Fixpoint key_paths (doc : json) : list (list string) :=
  match doc with
  | JObj entries =>
      flat_map (fun entry : string * json =>
                  match entry with
                  | (key, value) => [key] :: map (cons key) (key_paths value)
                  end) entries
  | _ => []
  end.

(** A raw material that has at least one setting, and a raw printer that has
    at least one such material. *)
Definition has_settings (material : RawMaterial) : bool :=
  (0 <? length (material_settings material))%nat.

Definition has_materials (printer : RawPrinter) : bool :=
  existsb has_settings (raw_materials printer).

(** The comparators of the two [sort] calls of [buildPrinters]. *)
Definition by_material_label (localeCompare : string -> string -> comparison)
    (a b : MaterialOption) : comparison :=
  localeCompare (material_label a) (material_label b).

Definition by_printer_label (localeCompare : string -> string -> comparison)
    (a b : PrinterOption) : comparison :=
  localeCompare (printer_label a) (printer_label b).

(** The shape of a slug: lower-case letters, digits and hyphens, and no
    hyphen next to another one. *)
Definition is_slug_or_hyphen (c : ascii) : bool :=
  is_slug_char c || bool_decide (c = "-"%char).

Fixpoint no_adjacent_hyphens (s : string) : bool :=
  match s with
  | EmptyString => true
  | String c rest =>
      match rest with
      | String d _ =>
          negb (bool_decide (c = "-"%char) && bool_decide (d = "-"%char))
      | EmptyString => true
      end && no_adjacent_hyphens rest
  end.

(** * Properties *)

Example NumberToString_tenth : NumberToString (Finite 1 (-1)) = "0.1".
Proof. reflexivity. Qed.

Example NumberToString_25_microns : NumberToString (Finite 25 (-3)) = "0.025".
Proof. reflexivity. Qed.

Example NumberToString_hundred : NumberToString (Finite 1 2) = "100".
Proof. reflexivity. Qed.

Example NumberToString_small : NumberToString (Finite 15 (-8)) = "1.5e-7".
Proof. reflexivity. Qed.

Example NumberToString_large : NumberToString (Finite 1 21) = "1e+21".
Proof. reflexivity. Qed.

Example NumberToString_mixed : NumberToString (Finite (-12345) (-2)) = "-123.45".
Proof. reflexivity. Qed.

(** ** Insertion-ordered sets *)

Section js_set_facts.
Context {A : Type} `{EqDecision A}.
Implicit Types (s acc : list A) (x : A).

Lemma elem_of_set_add s x y : y ∈ set_add s x <-> y ∈ s \/ y = x.
Proof.
  unfold set_add. destruct (decide (x ∈ s)) as [Hin|Hin].
  - split; [by left | intros [?| ->]; done].
  - rewrite elem_of_app, list_elem_of_singleton. done.
Qed.

Lemma NoDup_set_add s x : NoDup s -> NoDup (set_add s x).
Proof.
  intros Hs. unfold set_add. destruct (decide (x ∈ s)); [done|].
  apply NoDup_app. split_and!; [done | | apply NoDup_singleton].
  intros y Hy ->%list_elem_of_singleton. done.
Qed.

Lemma elem_of_foldl_set_add items acc y :
  y ∈ foldl set_add acc items <-> y ∈ acc \/ y ∈ items.
Proof.
  revert acc. induction items as [|x items IH]; intros acc; simpl.
  - rewrite elem_of_nil. tauto.
  - rewrite IH, elem_of_set_add, elem_of_cons. tauto.
Qed.

Lemma NoDup_foldl_set_add items acc :
  NoDup acc -> NoDup (foldl set_add acc items).
Proof.
  revert acc. induction items as [|x items IH]; intros acc Hacc; simpl; [done|].
  by apply IH, NoDup_set_add.
Qed.

Lemma set_add_elem s x : x ∈ s -> set_add s x = s.
Proof. intros Hin. unfold set_add. by rewrite decide_True. Qed.

(** Adding the elements of a set built from [items] is adding [items]. *)
Lemma foldl_set_add_absorb items acc acc' :
  foldl set_add acc (foldl set_add acc' items)
  = foldl set_add (foldl set_add acc acc') items.
Proof.
  revert acc'. induction items as [|x items IH] using rev_ind; intros acc'; [done|].
  rewrite !foldl_app. simpl. rewrite <- IH.
  unfold set_add at 2. destruct (decide (x ∈ foldl set_add acc' items)) as [Hin|Hin].
  - rewrite set_add_elem; [done|]. apply elem_of_foldl_set_add. by right.
  - by rewrite foldl_app.
Qed.

Lemma elem_of_dedupe (items : list A) y : y ∈ dedupe items <-> y ∈ items.
Proof.
  unfold dedupe, new_Set. rewrite elem_of_foldl_set_add, elem_of_nil. tauto.
Qed.

Lemma NoDup_dedupe (items : list A) : NoDup (dedupe items).
Proof. apply NoDup_foldl_set_add, NoDup_nil_2. Qed.

Lemma dedupe_app_dedupe (l1 l2 : list A) :
  dedupe (dedupe l1 ++ l2) = dedupe (l1 ++ l2).
Proof.
  unfold dedupe, new_Set. rewrite !foldl_app. f_equal.
  apply (foldl_set_add_absorb l1 [] []).
Qed.

Lemma dedupe_idemp (items : list A) : dedupe (dedupe items) = dedupe items.
Proof.
  pose proof (dedupe_app_dedupe items []) as H. by rewrite !app_nil_r in H.
Qed.

Lemma dedupe_app_dedupe_r (l1 l2 : list A) :
  dedupe (l1 ++ dedupe l2) = dedupe (l1 ++ l2).
Proof.
  unfold dedupe, new_Set. rewrite !foldl_app.
  apply (foldl_set_add_absorb l2 (foldl set_add [] l1) []).
Qed.

(** Deduplicating the concatenation of deduplicated lists. *)
Lemma dedupe_flat_map_dedupe {B} (f : B -> list A) (l : list B) :
  dedupe (flat_map (fun b => dedupe (f b)) l) = dedupe (flat_map f l).
Proof.
  induction l as [|b l IH]; [done|]. simpl.
  rewrite dedupe_app_dedupe, <- dedupe_app_dedupe_r, IH.
  apply dedupe_app_dedupe_r.
Qed.
End js_set_facts.

(** ** The category tree *)

Lemma json_nested_ind (P : json -> Prop) :
  P JNull -> (forall b, P (JBool b)) -> (forall n, P (JNum n)) ->
  (forall s, P (JStr s)) ->
  (forall items, Forall P items -> P (JArr items)) ->
  (forall entries, Forall (fun entry => P (snd entry)) entries -> P (JObj entries)) ->
  forall v, P v.
Proof.
  intros Hnull Hbool Hnum Hstr Harr Hobj. fix IH 1.
  intros [ | b | n | s | items | entries].
  - exact Hnull.
  - apply Hbool.
  - apply Hnum.
  - apply Hstr.
  - apply Harr. induction items as [|v items IHitems]; constructor.
    + apply IH.
    + exact IHitems.
  - apply Hobj. induction entries as [|[k v] entries IHentries]; constructor.
    + apply IH.
    + exact IHentries.
Qed.

Lemma CategoryNode_nested_ind (P : CategoryNode -> Prop) :
  (forall id label codes own children,
      Forall P children -> P (mkCategoryNode id label codes own children)) ->
  forall node, P node.
Proof.
  intros Hnode. fix IH 1. intros [id label cs own children].
  apply Hnode. induction children as [|child children IHchildren]; constructor.
  - apply IH.
  - exact IHchildren.
Qed.

Lemma elem_of_flat_map {A B} (f : A -> list B) (l : list A) (y : B) :
  y ∈ flat_map f l <-> exists x, x ∈ l /\ y ∈ f x.
Proof.
  rewrite list_elem_of_In, in_flat_map. setoid_rewrite list_elem_of_In. done.
Qed.

Lemma elem_of_map {A B} (f : A -> B) (l : list A) (y : B) :
  y ∈ map f l <-> exists x, y = f x /\ x ∈ l.
Proof.
  rewrite list_elem_of_In, in_map_iff. setoid_rewrite list_elem_of_In.
  split; intros (x & ? & ?); eauto.
Qed.

Lemma lookup_map {A B} (f : A -> B) (l : list A) (i : nat) :
  map f l !! i = f <$> (l !! i).
Proof. revert i. induction l as [|x l IH]; intros [|i]; simpl; auto. Qed.

Lemma buildCategoryTree_object entries path :
  buildCategoryTree (JObj entries) path
  = map (fun entry => entry_node path (fst entry) (snd entry)) entries.
Proof.
  simpl. apply map_ext. intros [key value]. simpl. by destruct value.
Qed.

Lemma buildCategoryTree_not_object doc path :
  (forall entries, doc <> JObj entries) -> buildCategoryTree doc path = [].
Proof. intros Hdoc. destruct doc; try done. by destruct (Hdoc entries). Qed.

Lemma elem_of_buildCategoryTree doc path node :
  node ∈ buildCategoryTree doc path ->
  exists key value, node = entry_node path key value.
Proof.
  destruct doc; try (simpl; by intros ?%elem_of_nil).
  rewrite buildCategoryTree_object.
  intros ([key value] & -> & _)%elem_of_map. eauto.
Qed.

Lemma subtree_self node : node ∈ subtree node.
Proof. destruct node. simpl. apply elem_of_cons. by left. Qed.

Lemma subtree_unfold node :
  subtree node = node :: all_nodes (children node).
Proof. by destruct node. Qed.

Lemma subtree_trans a b c : a ∈ subtree b -> b ∈ subtree c -> a ∈ subtree c.
Proof.
  revert a b. induction c as [id label cs own kids IH] using CategoryNode_nested_ind.
  intros a b Ha Hb. rewrite subtree_unfold in Hb. simpl in Hb.
  apply elem_of_cons in Hb as [-> | Hb]; [done|].
  apply elem_of_flat_map in Hb as (kid & Hkid & Hb).
  rewrite subtree_unfold. simpl. apply elem_of_cons. right.
  apply elem_of_flat_map. exists kid. split; [done|].
  rewrite Forall_forall in IH. by eapply IH.
Qed.

Lemma all_nodes_subtree tree a b :
  a ∈ subtree b -> b ∈ all_nodes tree -> a ∈ all_nodes tree.
Proof.
  intros Ha (root & Hroot & Hb)%elem_of_flat_map.
  apply elem_of_flat_map. exists root. split; [done|]. by eapply subtree_trans.
Qed.

Lemma descendantCodes_subtree node :
  descendantCodes node = flat_map ownCodes (subtree node).
Proof.
  induction node as [id label cs own kids IH] using CategoryNode_nested_ind.
  simpl. f_equal. induction IH as [|kid kids Hkid _ IHkids]; [done|].
  simpl. by rewrite flat_map_app, Hkid, IHkids.
Qed.

(** Every node of a built tree is the node of some entry. *)
Lemma all_nodes_buildCategoryTree doc path node :
  node ∈ all_nodes (buildCategoryTree doc path) ->
  exists path' key value, node = entry_node path' key value.
Proof.
  revert path. induction doc as [ | | | | items _ | entries IH] using json_nested_ind;
    intros path; try (by intros ?%elem_of_nil).
  rewrite buildCategoryTree_object. unfold all_nodes.
  intros (root & Hroot & Hnode)%elem_of_flat_map.
  apply elem_of_map in Hroot as ([key value] & -> & Hentry).
  rewrite Forall_forall in IH. specialize (IH _ Hentry). simpl in *.
  rewrite subtree_unfold in Hnode. apply elem_of_cons in Hnode as [-> | Hnode]; [eauto|].
  destruct value; simpl in Hnode; try (by apply elem_of_nil in Hnode).
  by eapply IH.
Qed.

Lemma entry_node_shape path key value :
  let node := entry_node path key value in
  NoDup (codes node) /\
  ((ownCodes node <> [] /\ children node = [] /\ codes node = ownCodes node)
   \/ (ownCodes node = [] /\ codes node = dedupe (flat_map codes (children node)))).
Proof.
  destruct value; simpl; try (split; [apply NoDup_dedupe | by right]).
  split; [apply NoDup_dedupe|].
  destruct (dedupe (string_entries items)) as [|c cs] eqn:Hown; [by right | by left].
Qed.

Lemma buildCategoryTree_codes_descendants doc path :
  Forall (fun node => codes node = dedupe (descendantCodes node))
         (buildCategoryTree doc path).
Proof.
  revert path. induction doc as [ | | | | items _ | entries IH] using json_nested_ind;
    intros path; try (by apply Forall_nil).
  rewrite buildCategoryTree_object. apply Forall_forall.
  intros node ([key value] & -> & Hentry)%elem_of_map. rewrite Forall_forall in IH. specialize (IH _ Hentry).
  simpl in *.
  assert (forall kids : CategoryTree,
             Forall (fun node => codes node = dedupe (descendantCodes node)) kids ->
             dedupe (flat_map codes kids) = dedupe ([] ++ flat_map descendantCodes kids))
    as Hbranch.
  { intros kids Hkids. simpl.
    transitivity (dedupe (flat_map (fun b => dedupe (descendantCodes b)) kids));
      [f_equal | apply dedupe_flat_map_dedupe].
    induction Hkids as [|kid kids Hkid _ IHkids]; [done|]. simpl. by rewrite Hkid, IHkids. }
  destruct value; simpl; try done; try (by apply Hbranch, IH).
  by rewrite app_nil_r, dedupe_idemp.
Qed.

Lemma entry_node_codes_descendants path key value :
  codes (entry_node path key value)
  = dedupe (descendantCodes (entry_node path key value)).
Proof.
  pose proof (buildCategoryTree_codes_descendants (JObj [(key, value)]) path) as H.
  rewrite buildCategoryTree_object in H. simpl in H. by apply Forall_inv in H.
Qed.

(** A node of a built tree that has own codes has no children. *)
Lemma category_node_shape_own_codes doc path node :
  node ∈ all_nodes (buildCategoryTree doc path) ->
  children node = [] \/ ownCodes node = [].
Proof.
  intros (path' & key & value & ->)%all_nodes_buildCategoryTree.
  destruct (entry_node_shape path' key value) as [_ [(_ & ? & _) | (? & _)]]; auto.
Qed.

Lemma built_node_codes_NoDup doc path node :
  node ∈ all_nodes (buildCategoryTree doc path) -> NoDup (codes node).
Proof.
  intros (path' & key & value & ->)%all_nodes_buildCategoryTree.
  apply entry_node_shape.
Qed.

(** Scenario A of the specification: one branch with one leaf. *)
Example scenario_A_tree :
  buildCategoryTree
    (JObj [("dental", JObj [("models", JArr [JStr "RS-F2-DM"; JStr "RS-F2-IND"])])]) []
  = [mkCategoryNode "dental" "Dental" ["RS-F2-DM"; "RS-F2-IND"] []
       [mkCategoryNode "dental/models" "Models"
          ["RS-F2-DM"; "RS-F2-IND"] ["RS-F2-DM"; "RS-F2-IND"] []]].
Proof. reflexivity. Qed.

Example humanizeKey_segments : humanizeKey "high_temp-v2__x" = "High Temp V2 X".
Proof. reflexivity. Qed.

Example dedupe_keeps_first : dedupe ["b"; "a"; "b"; "c"; "a"] = ["b"; "a"; "c"].
Proof. reflexivity. Qed.

(** C8. Every node of a tree made by [buildCategoryTree], at any depth, is
    either a leaf, with own codes and no children, or a branch, without own
    codes and with every one of its aggregated codes among the aggregated
    codes of one of its children; and the aggregated codes of every node are
    free of duplicates. *)
Theorem category_node_leaf_or_branch (doc : json) (path : list string)
    (node : CategoryNode) :
  node ∈ all_nodes (buildCategoryTree doc path) ->
  ((ownCodes node <> [] /\ children node = [])
   \/ (ownCodes node = []
       /\ forall c, c ∈ codes node ->
                    exists child, child ∈ children node /\ c ∈ codes child))
  /\ NoDup (codes node).
Proof.
  intros (path' & key & value & ->)%all_nodes_buildCategoryTree.
  destruct (entry_node_shape path' key value) as [Hnodup Hshape].
  split; [|done].
  destruct Hshape as [(Hown & Hkids & _) | (Hown & Hcodes)]; [by left | right].
  split; [done|]. intros c Hc. rewrite Hcodes in Hc.
  by apply elem_of_dedupe, elem_of_flat_map in Hc.
Qed.

Lemma category_node_leaf_or_branch_witness :
  let leaf := mkCategoryNode "dental/models" "Models"
                ["RS-F2-DM"; "RS-F2-IND"] ["RS-F2-DM"; "RS-F2-IND"] [] in
  ((ownCodes leaf <> [] /\ children leaf = [])
   \/ (ownCodes leaf = []
       /\ forall c, c ∈ codes leaf ->
                    exists child, child ∈ children leaf /\ c ∈ codes child))
  /\ NoDup (codes leaf).
Proof.
  intros leaf.
  apply (category_node_leaf_or_branch
           (JObj [("dental", JObj [("models", JArr [JStr "RS-F2-DM"; JStr "RS-F2-IND"])])])
           [] leaf).
  apply list_elem_of_In. vm_compute. right. left. reflexivity.
Defined.

Lemma filter_filter_bool {A} (P Q : A -> bool) (l : list A) :
  List.filter P (List.filter Q l) = List.filter (fun x => Q x && P x) l.
Proof.
  induction l as [|x l IH]; simpl; [done|].
  destruct (Q x); simpl; [|done]. destruct (P x); by rewrite IH.
Qed.

Lemma foldl_set_add_distinct {A} `{EqDecision A} (items acc : list A) :
  foldl set_add acc items
  = acc ++ List.filter (fun y => negb (bool_decide (y ∈ acc))) (distinct items).
Proof.
  revert acc. induction items as [|x items IH]; intros acc; simpl.
  - by rewrite app_nil_r.
  - rewrite IH, filter_filter_bool. unfold set_add.
    destruct (decide (x ∈ acc)) as [Hin|Hnotin].
    + rewrite bool_decide_true by done. simpl. f_equal.
      apply List.filter_ext. intros y.
      destruct (bool_decide_reflect (y ∈ acc)) as [Hy|Hy]; simpl; [by rewrite andb_false_r|].
      rewrite bool_decide_false; [done|]. by intros ->.
    + rewrite bool_decide_false by done. simpl. rewrite <- app_assoc. simpl. do 2 f_equal.
      apply List.filter_ext. intros y.
      rewrite (bool_decide_ext (y ∈ acc ++ [x]) (y ∈ acc \/ y = x))
        by (by rewrite elem_of_app, list_elem_of_singleton).
      by rewrite bool_decide_or, negb_orb, andb_comm.
Qed.

(** [dedupe] leaves the distinct elements, first occurrences first. *)
Lemma dedupe_distinct {A} `{EqDecision A} (items : list A) :
  dedupe items = distinct items.
Proof.
  unfold dedupe, new_Set. rewrite foldl_set_add_distinct. simpl.
  induction (distinct items) as [|y l IH]; simpl; [done|]. by rewrite IH.
Qed.

Lemma filter_bool_sublist_of {A} (P : A -> bool) (l : list A) :
  List.filter P l `sublist_of` l.
Proof.
  induction l as [|x l IH]; simpl; [done|].
  destruct (P x); [by apply sublist_skip|by apply sublist_cons].
Qed.

Lemma distinct_sublist {A} `{EqDecision A} (items : list A) :
  distinct items `sublist_of` items.
Proof.
  induction items as [|x items IH]; simpl; [done|]. apply sublist_skip.
  etrans; [apply filter_bool_sublist_of|done].
Qed.

Lemma elem_of_string_entries (items : list json) (c : string) :
  c ∈ string_entries items <-> JStr c ∈ items.
Proof.
  unfold string_entries. rewrite list_elem_of_omap. split.
  - intros (v & Hv & Hc). destruct v; try done. by injection Hc as ->.
  - intros Hin. by exists (JStr c).
Qed.

(** C1. For an object given to [buildCategoryTree]: the entry of a key whose
    value is an array becomes a leaf whose own and aggregated codes are the
    deduplicated string entries of the array; the entry of a key whose value
    is a nested object becomes a branch without own codes, whose children
    are the tree of the nested object and whose aggregated codes are the
    deduplicated codes of all its descendants.  Deduplicated means: every
    element once, at the place of its first occurrence; the string entries
    of an array are the strings among its elements.  Hence, for every node
    of the tree, the aggregated codes have no code twice, and a code is among
    them exactly when it is an own code of a leaf that is the node itself or
    one of its descendants. *)
Theorem buildCategoryTree_aggregates_leaf_codes :
  (forall entries path i key items,
      entries !! i = Some (key, JArr items) ->
      buildCategoryTree (JObj entries) path !! i
      = Some (mkCategoryNode (String.concat "/" (path ++ [key])) (humanizeKey key)
                (distinct (string_entries items)) (distinct (string_entries items)) []))
  /\ (forall entries path i key nested,
         entries !! i = Some (key, JObj nested) ->
         exists node,
           buildCategoryTree (JObj entries) path !! i = Some node
           /\ ownCodes node = []
           /\ children node = buildCategoryTree (JObj nested) (path ++ [key])
           /\ codes node = distinct (flat_map descendantCodes (children node)))
  /\ (forall items : list string,
         NoDup (distinct items)
         /\ distinct items `sublist_of` items
         /\ forall c, c ∈ distinct items <-> c ∈ items)
  /\ (forall items c, c ∈ string_entries items <-> JStr c ∈ items)
  /\ (forall doc path node,
         node ∈ all_nodes (buildCategoryTree doc path) ->
         NoDup (codes node)
         /\ forall c, c ∈ codes node <->
                      exists leaf, leaf ∈ subtree node /\ children leaf = []
                                   /\ c ∈ ownCodes leaf).
Proof.
  split_and!.
  - intros entries path i key items Hi. rewrite buildCategoryTree_object.
    rewrite lookup_map, Hi. simpl. by rewrite dedupe_distinct.
  - intros entries path i key nested Hi. rewrite buildCategoryTree_object.
    rewrite lookup_map, Hi. simpl.
    eexists. split; [done|]. split_and!; try done.
    pose proof (entry_node_codes_descendants path key (JObj nested)) as Hcodes.
    simpl in Hcodes. by rewrite Hcodes, dedupe_distinct.
  - intros items. rewrite <- dedupe_distinct. split_and!.
    + apply NoDup_dedupe.
    + rewrite dedupe_distinct. apply distinct_sublist.
    + intros c. apply elem_of_dedupe.
  - apply elem_of_string_entries.
  - intros doc path node Hnode. split; [by apply built_node_codes_NoDup in Hnode|].
    intros c.
    destruct (all_nodes_buildCategoryTree _ _ _ Hnode) as (path' & key & value & Heq).
    assert (codes node = dedupe (descendantCodes node)) as ->
      by (subst node; apply entry_node_codes_descendants).
    rewrite elem_of_dedupe, descendantCodes_subtree, elem_of_flat_map.
    split.
    + intros (leaf & Hleaf & Hc). exists leaf. split_and!; try done.
      pose proof (all_nodes_subtree _ _ _ Hleaf Hnode) as Hin.
      destruct (category_node_shape_own_codes _ _ _ Hin) as [Hk|Hk]; [done|].
      rewrite Hk in Hc. by apply elem_of_nil in Hc.
    + intros (leaf & Hleaf & _ & Hc). eauto.
Qed.

Lemma buildCategoryTree_aggregates_leaf_codes_witness :
  let nested := [("models", JArr [JStr "X"; JStr "X"; JNum (Finite 7 0); JStr "Y"]);
                 ("crowns", JArr [JStr "Y"; JStr "Z"; JStr "Y"])] in
  buildCategoryTree (JObj nested) ["dental"] !! 0%nat
  = Some (mkCategoryNode "dental/models" "Models" ["X"; "Y"] ["X"; "Y"] [])
  /\ (exists node,
         buildCategoryTree (JObj [("dental", JObj nested)]) [] !! 0%nat = Some node
         /\ ownCodes node = []
         /\ children node = buildCategoryTree (JObj nested) ["dental"]
         /\ codes node = ["X"; "Y"; "Z"])
  /\ (forall node c,
         node ∈ all_nodes (buildCategoryTree (JObj [("dental", JObj nested)]) []) ->
         (c ∈ codes node <->
          exists leaf, leaf ∈ subtree node /\ children leaf = []
                       /\ c ∈ ownCodes leaf)).
Proof.
  intros nested.
  destruct buildCategoryTree_aggregates_leaf_codes as (Hleaf & Hbranch & _ & _ & Hcodes).
  split_and!.
  - rewrite (Hleaf nested ["dental"] 0%nat "models"
               [JStr "X"; JStr "X"; JNum (Finite 7 0); JStr "Y"] eq_refl).
    reflexivity.
  - destruct (Hbranch [("dental", JObj nested)] [] 0%nat "dental" nested eq_refl)
      as (node & Hnode & Hown & Hkids & Hagg).
    exists node. split_and!; [done..|].
    rewrite Hagg, Hkids. vm_compute. reflexivity.
  - intros node c Hnode.
    exact (proj2 (Hcodes (JObj [("dental", JObj nested)]) [] node Hnode) c).
Defined.

(** ** Sorting *)

Section sort_facts.
Context {A : Type} (comparefn : A -> A -> comparison).
Hypothesis comparefn_antisym : forall a b, comparefn b a = CompOpp (comparefn a b).

Lemma sort_insert_perm x l : sort_insert comparefn x l ≡ₚ x :: l.
Proof.
  induction l as [|y l IH]; simpl; [done|].
  destruct (comparefn x y); try done; by rewrite IH, Permutation_swap.
Qed.

Lemma foldl_sort_insert_perm items acc :
  foldl (fun sorted x => sort_insert comparefn x sorted) acc items ≡ₚ acc ++ items.
Proof.
  revert acc. induction items as [|x items IH]; intros acc; simpl.
  - by rewrite app_nil_r.
  - rewrite IH, sort_insert_perm. simpl. apply Permutation_middle.
Qed.

Lemma array_sort_perm items : array_sort comparefn items ≡ₚ items.
Proof. apply (foldl_sort_insert_perm items []). Qed.

Lemma sort_insert_HdRel y x l :
  HdRel (not_after comparefn) y l -> not_after comparefn y x ->
  HdRel (not_after comparefn) y (sort_insert comparefn x l).
Proof.
  intros Hl Hx. destruct l as [|z l]; simpl; [by constructor|].
  inversion_clear Hl. destruct (comparefn x z); by constructor.
Qed.

Lemma sort_insert_Sorted x l :
  Sorted (not_after comparefn) l ->
  Sorted (not_after comparefn) (sort_insert comparefn x l).
Proof.
  induction 1 as [|y l Hl IH Hy]; simpl; [by repeat constructor|].
  destruct (comparefn x y) eqn:Hxy.
  - constructor; [done|]. apply sort_insert_HdRel; [done|].
    unfold not_after. by rewrite comparefn_antisym, Hxy.
  - repeat constructor; try done. unfold not_after. by rewrite Hxy.
  - constructor; [done|]. apply sort_insert_HdRel; [done|].
    unfold not_after. by rewrite comparefn_antisym, Hxy.
Qed.

Lemma array_sort_Sorted items : Sorted (not_after comparefn) (array_sort comparefn items).
Proof.
  unfold array_sort. generalize (Sorted_nil (not_after comparefn)).
  generalize (@nil A). induction items as [|x items IH]; intros acc Hacc; simpl; [done|].
  by apply IH, sort_insert_Sorted.
Qed.

Lemma elem_of_array_sort items x : x ∈ array_sort comparefn items <-> x ∈ items.
Proof. by rewrite array_sort_perm. Qed.

Lemma array_sort_NoDup items : NoDup items -> NoDup (array_sort comparefn items).
Proof. by rewrite array_sort_perm. Qed.

Lemma array_sort_length items : length (array_sort comparefn items) = length items.
Proof. by rewrite array_sort_perm. Qed.
End sort_facts.

Lemma array_sort_StronglySorted {A} (comparefn : A -> A -> comparison) items :
  consistent_comparator comparefn ->
  StronglySorted (not_after comparefn) (array_sort comparefn items).
Proof.
  intros [Hanti Htrans]. apply Sorted_StronglySorted.
  - intros a b c. apply Htrans.
  - by apply array_sort_Sorted.
Qed.

(** Byte-wise lexicographic comparison is a consistent comparator. *)
Lemma String_compare_consistent : consistent_comparator String.compare.
Proof.
  split; [intros a b; apply String.compare_antisym|].
  intros a. induction a as [|x a IH]; intros [|y b] [|z c]; simpl; try done.
  unfold Ascii.compare.
  destruct (N.compare_spec (N_of_ascii x) (N_of_ascii y)) as [Hxy|Hxy|Hxy];
    destruct (N.compare_spec (N_of_ascii y) (N_of_ascii z)) as [Hyz|Hyz|Hyz];
    try done; intros Hab Hbc.
  - rewrite Hxy, Hyz, N.compare_refl. by apply (IH b c).
  - rewrite Hxy. by apply N.compare_lt_iff in Hyz as ->.
  - rewrite <- Hyz. by apply N.compare_lt_iff in Hxy as ->.
  - assert (N_of_ascii x < N_of_ascii z)%N as ->%N.compare_lt_iff by lia. done.
Qed.

(** ** The code-to-breadcrumb index *)

Lemma register_each_app map regs1 regs2 :
  register_each map (regs1 ++ regs2) = register_each (register_each map regs1) regs2.
Proof. apply foldl_app. Qed.

Lemma foldl_register_path label map own :
  foldl (register_path label) map own
  = register_each map (List.map (fun code => (code, label)) own).
Proof. revert map. induction own as [|c own IH]; intros map; simpl; auto. Qed.

(** The visit of a subtree performs the registrations of its labelled
    nodes. *)
Lemma paths_visit_register pathLabels map node :
  paths_visit pathLabels map node
  = register_each map
      (flat_map (fun entry => List.map (fun code => (code, breadcrumb (fst entry)))
                                       (ownCodes (snd entry)))
                (labelled_subtree pathLabels node)).
Proof.
  revert pathLabels map.
  induction node as [id label cs own kids IH] using CategoryNode_nested_ind.
  intros pathLabels map. simpl. rewrite register_each_app.
  assert (match own with
          | [] => map
          | _ :: _ => foldl (register_path (String.concat breadcrumb_separator
                                              (pathLabels ++ [label]))) map own
          end
          = register_each map
              (List.map (fun code => (code, breadcrumb (pathLabels ++ [label]))) own))
    as -> by (destruct own; [done | apply foldl_register_path]).
  generalize (register_each map
                (List.map (fun code => (code, breadcrumb (pathLabels ++ [label]))) own)).
  induction IH as [|kid kids Hkid _ IHkids]; intros m; simpl; [done|].
  by rewrite flat_map_app, register_each_app, Hkid, IHkids.
Qed.

Lemma foldl_paths_visit map tree :
  foldl (paths_visit []) map tree = register_each map (registrations tree).
Proof.
  unfold registrations, labelled_nodes.
  revert map. induction tree as [|node tree IH]; intros map; simpl; [done|].
  by rewrite flat_map_app, register_each_app, paths_visit_register, IH.
Qed.

(** Once the error is thrown nothing is registered any more. *)
Lemma register_each_None regs : register_each None regs = None.
Proof. induction regs as [|reg regs IH]; [done|]. exact IH. Qed.

Lemma lookup_add_registration map reg code :
  add_registration map reg !! code
  = if decide (fst reg = code)
    then Some (set_add (default [] (map !! fst reg)) (snd reg))
    else map !! code.
Proof.
  unfold add_registration. destruct (decide (fst reg = code)) as [<-|Hne].
  - by rewrite lookup_insert_eq.
  - by rewrite lookup_insert_ne.
Qed.

(** The registrations go through exactly when none of their codes names a
    member inherited from [Object.prototype]; the object under construction
    never has an own entry for such a name. *)
Lemma register_each_Some map regs :
  (forall key, is_Some (map !! key) -> inherited key = false) ->
  register_each (Some map) regs
  = if existsb (fun reg => inherited (fst reg)) regs then None
    else Some (register_all map regs).
Proof.
  revert map. induction regs as [|[c l] regs IH]; intros map Hkeys; [done|].
  unfold register_each, register_all in *. cbn [foldl existsb fst snd register_path].
  assert (forall key, is_Some (add_registration map (c, l) !! key) ->
                      inherited c = false -> inherited key = false) as Hstep.
  { intros key Hkey Hc. rewrite lookup_add_registration in Hkey. simpl in Hkey.
    destruct (decide (c = key)) as [<-|Hne]; [done|by apply Hkeys]. }
  destruct (map !! c) as [labels|] eqn:Hmap.
  - assert (inherited c = false) as Hc by (apply Hkeys; by rewrite Hmap).
    rewrite Hc. simpl.
    change (<[c := set_add labels l]> map) with
      (<[fst (c, l) := set_add (default [] (Some labels)) (snd (c, l))]> map).
    rewrite <- Hmap. fold (add_registration map (c, l)).
    apply IH. intros key Hkey. by apply Hstep.
  - destruct (inherited c) eqn:Hc; simpl.
    + apply register_each_None.
    + change (<[c := set_add [] l]> map) with
        (<[fst (c, l) := set_add (default [] None) (snd (c, l))]> map).
      rewrite <- Hmap. fold (add_registration map (c, l)).
      apply IH. intros key Hkey. by apply Hstep.
Qed.

Lemma lookup_register_all map regs code :
  register_all map regs !! code
  = match registered_for code regs with
    | [] => map !! code
    | labels => Some (foldl set_add (default [] (map !! code)) labels)
    end.
Proof.
  revert map. induction regs as [|[c l] regs IH]; intros map; [done|].
  unfold register_all in *. simpl. rewrite IH, lookup_add_registration.
  unfold registered_for. simpl. destruct (decide (c = code)) as [->|Hne].
  - rewrite bool_decide_eq_true_2 by done. simpl.
    by destruct (List.map snd _).
  - by rewrite bool_decide_eq_false_2 by done.
Qed.

Lemma elem_of_registered_for code regs label :
  label ∈ registered_for code regs <-> (code, label) ∈ regs.
Proof.
  unfold registered_for. rewrite elem_of_map. split.
  - intros ([c l] & -> & Hin). apply list_elem_of_In, filter_In in Hin as [Hin Hc].
    apply bool_decide_eq_true in Hc. simpl in *. subst. by apply list_elem_of_In.
  - intros Hin. exists (code, label). split; [done|].
    apply list_elem_of_In, filter_In. split; [by apply list_elem_of_In|].
    by apply bool_decide_eq_true.
Qed.

Lemma elem_of_registrations tree code label :
  (code, label) ∈ registrations tree
  <-> exists labels node, (labels, node) ∈ labelled_nodes tree
                          /\ code ∈ ownCodes node /\ label = breadcrumb labels.
Proof.
  unfold registrations. rewrite elem_of_flat_map. split.
  - intros ([labels node] & Hin & Hreg). apply elem_of_map in Hreg as (c & [= -> ->] & Hc).
    eauto.
  - intros (labels & node & Hin & Hc & ->). exists (labels, node). split; [done|].
    apply elem_of_map. eauto.
Qed.

Lemma labelled_subtree_nodes pathLabels node :
  List.map snd (labelled_subtree pathLabels node) = subtree node.
Proof.
  revert pathLabels.
  induction node as [id label cs own kids IH] using CategoryNode_nested_ind.
  intros pathLabels. simpl. f_equal.
  induction IH as [|kid kids Hkid _ IHkids]; [done|].
  simpl. by rewrite map_app, Hkid, IHkids.
Qed.

Lemma labelled_nodes_all_nodes tree :
  List.map snd (labelled_nodes tree) = all_nodes tree.
Proof.
  unfold labelled_nodes, all_nodes. induction tree as [|node tree IH]; [done|].
  simpl. by rewrite map_app, labelled_subtree_nodes, IH.
Qed.

Lemma buildCodeToCategoryPaths_result localeCompare tree :
  buildCodeToCategoryPaths localeCompare tree
  = if existsb (fun reg => inherited (fst reg)) (registrations tree) then None
    else Some ((fun labels => array_sort localeCompare labels)
                 <$> register_all ∅ (registrations tree)).
Proof.
  unfold buildCodeToCategoryPaths. rewrite foldl_paths_visit, register_each_Some.
  - by destruct (existsb _ (registrations tree)).
  - intros key [labels Hkey]. by rewrite lookup_empty in Hkey.
Qed.

Lemma buildCodeToCategoryPaths_lookup localeCompare tree index code :
  buildCodeToCategoryPaths localeCompare tree = Some index ->
  index !! code
  = match registered_for code (registrations tree) with
    | [] => None
    | labels => Some (array_sort localeCompare (dedupe labels))
    end.
Proof.
  rewrite buildCodeToCategoryPaths_result.
  destruct (existsb _ (registrations tree)); [done|]. intros [= <-].
  rewrite lookup_fmap, lookup_register_all, lookup_empty.
  by destruct (registered_for code (registrations tree)).
Qed.


Example scenario_A_paths :
  (fun index => (index !! "RS-F2-DM", index !! "RS-F2-IND", size index))
    <$> buildCodeToCategoryPaths String.compare
          (buildCategoryTree
             (JObj [("dental",
                     JObj [("models", JArr [JStr "RS-F2-DM"; JStr "RS-F2-IND"])])])
             [])
  = Some (Some ["Dental â€º Models"], Some ["Dental â€º Models"], 2%nat).
Proof. vm_compute. reflexivity. Qed.

(** A code below two categories gets both breadcrumbs, in sorted order. *)
Example two_ancestries_paths :
  (fun index => index !! "X")
    <$> buildCodeToCategoryPaths String.compare
          (buildCategoryTree
             (JObj [("medical", JArr [JStr "X"]);
                    ("dental", JObj [("models", JArr [JStr "X"; JStr "X"])])]) [])
  = Some (Some ["Dental â€º Models"; "Medical"]).
Proof. vm_compute. reflexivity. Qed.




(** ** Filtering by category *)

Lemma elem_of_allowedCodes categoryCodeMap ids c :
  c ∈ allowedCodes categoryCodeMap ids
  <-> exists id, id ∈ ids /\ c ∈ default [] (categoryCodeMap !! id).
Proof.
  unfold allowedCodes.
  assert (forall acc,
             c ∈ foldl (fun allowed id =>
                          foldl set_add allowed (default [] (categoryCodeMap !! id)))
                       acc ids
             <-> c ∈ acc \/ exists id, id ∈ ids /\ c ∈ default [] (categoryCodeMap !! id))
    as Hacc.
  { induction ids as [|id ids IH]; intros acc; simpl.
    - split; [by left | intros [?|(id & Hid%elem_of_nil & _)]; done].
    - rewrite IH, elem_of_foldl_set_add. split.
      + intros [[?|?]|(id' & ? & ?)]; [by left | right..].
        * exists id. split; [apply elem_of_cons; by left | done].
        * exists id'. split; [apply elem_of_cons; by right | done].
      + intros [?|(id' & [->|?]%elem_of_cons & ?)]; [by left; left | by left; right |].
        right. by exists id'. }
  rewrite Hacc, elem_of_nil. split; [by intros [[]|?] | by right].
Qed.

Lemma matches_some_filter_spec categoryCodeMap ids material :
  matches_some_filter categoryCodeMap ids material = true
  <-> exists id, id ∈ ids /\ code material ∈ default [] (categoryCodeMap !! id).
Proof.
  unfold matches_some_filter. rewrite existsb_exists. split.
  - intros (id & Hid%list_elem_of_In & Hc%bool_decide_eq_true). eauto.
  - intros (id & Hid & Hc). exists id. split; [by apply list_elem_of_In|].
    by apply bool_decide_eq_true.
Qed.

(** C4. With a printer selected: without selected filters the filtered
    materials are all the materials of the printer; with selected filters
    they are the materials of the printer, in the printer's order, whose
    code is among the aggregated codes of at least one selected id. *)
Theorem filteredMaterials_union_of_filters (printers : list PrinterOption)
    (categoryCodeMap : gmap string (list string)) (st : Selection)
    (printer : PrinterOption) :
  selectedPrinter printers st = Some printer ->
  (selectedCategoryIds st = [] ->
   filteredMaterials printers categoryCodeMap st = materials printer)
  /\ (selectedCategoryIds st <> [] ->
      filteredMaterials printers categoryCodeMap st
      = List.filter (matches_some_filter categoryCodeMap (selectedCategoryIds st))
          (materials printer))
  /\ (forall material,
         matches_some_filter categoryCodeMap (selectedCategoryIds st) material = true
         <-> exists id, id ∈ selectedCategoryIds st
                        /\ code material ∈ default [] (categoryCodeMap !! id)).
Proof.
  intros Hprinter. unfold filteredMaterials. rewrite Hprinter. split_and!.
  - by intros ->.
  - intros Hids. destruct (selectedCategoryIds st) as [|id ids] eqn:Heq; [done|].
    apply filter_ext. intros material.
    apply eq_true_iff_eq. rewrite matches_some_filter_spec, bool_decide_eq_true.
    apply elem_of_allowedCodes.
  - intros material. apply matches_some_filter_spec.
Qed.

(** ** Category counts *)

Lemma lookup_assign_codes map nid ncs id :
  own_entries (assign_codes map nid ncs) !! id
  = if bool_decide (nid = "__proto__") then own_entries map !! id
    else if decide (nid = id) then Some ncs else own_entries map !! id.
Proof.
  unfold assign_codes. destruct (bool_decide (nid = "__proto__")); [done|]. simpl.
  destruct (decide (nid = id)) as [->|Hne].
  - by rewrite lookup_insert_eq.
  - by rewrite lookup_insert_ne.
Qed.

Lemma flatten_visit_lookup map node id cs :
  own_entries (flatten_visit map node) !! id = Some cs ->
  own_entries map !! id = Some cs
  \/ exists n, n ∈ subtree node /\ node_id n = id /\ codes n = cs.
Proof.
  revert map. induction node as [nid label ncs own kids IH] using CategoryNode_nested_ind.
  intros map. simpl.
  assert (forall m,
             own_entries (foldl flatten_visit m kids) !! id = Some cs ->
             own_entries m !! id = Some cs
             \/ exists n, n ∈ flat_map subtree kids /\ node_id n = id /\ codes n = cs)
    as Hkids.
  { induction IH as [|kid kids Hkid _ IHkids]; intros m; simpl; [by left|].
    intros [Hm|(n & Hn & ?)]%IHkids.
    - apply Hkid in Hm as [?|(n & Hn & ?)]; [by left|]. right. exists n.
      split; [|done]. apply elem_of_app. by left.
    - right. exists n. split; [|done]. apply elem_of_app. by right. }
  intros [Hm|(n & Hn & ?)]%Hkids.
  - rewrite lookup_assign_codes in Hm.
    destruct (bool_decide (nid = "__proto__")); [by left|].
    destruct (decide (nid = id)) as [->|Hne]; [|by left].
    injection Hm as <-. right.
    eexists. split; [apply elem_of_cons; by left | done].
  - right. exists n. split; [|done]. apply elem_of_cons. by right.
Qed.

(** Every entry of [categoryCodeMap] holds the aggregated codes of a node
    with that id. *)
Lemma flattenCategoryCodes_lookup tree id cs :
  own_entries (flattenCategoryCodes tree) !! id = Some cs ->
  exists node, node ∈ all_nodes tree /\ node_id node = id /\ codes node = cs.
Proof.
  unfold flattenCategoryCodes.
  assert (forall m,
             own_entries (foldl flatten_visit m tree) !! id = Some cs ->
             own_entries m !! id = Some cs
             \/ exists n, n ∈ all_nodes tree /\ node_id n = id /\ codes n = cs)
    as Htree.
  { unfold all_nodes. induction tree as [|node tree IH]; intros m; simpl; [by left|].
    intros [Hm|(n & Hn & ?)]%IH.
    - apply flatten_visit_lookup in Hm as [?|(n & Hn & ?)]; [by left|]. right. exists n.
      split; [|done]. apply elem_of_app. by left.
    - right. exists n. split; [|done]. apply elem_of_app. by right. }
  intros [Hm|?]%Htree; [|done]. simpl in Hm. by rewrite lookup_empty in Hm.
Qed.

Lemma flattenCategoryCodes_NoDup doc path id cs :
  own_entries (flattenCategoryCodes (buildCategoryTree doc path)) !! id = Some cs ->
  NoDup cs.
Proof.
  intros (node & Hnode & _ & <-)%flattenCategoryCodes_lookup.
  by apply built_node_codes_NoDup in Hnode.
Qed.

Lemma foldl_count {A} (P : A -> bool) (l : list A) (n : nat) :
  foldl (fun count x => if P x then S count else count) n l
  = (n + length (List.filter P l))%nat.
Proof.
  revert n. induction l as [|x l IH]; intros n; simpl; [lia|].
  rewrite IH. destruct (P x); simpl; lia.
Qed.

Lemma filter_length_cons_fresh (x : string) (l cs : list string) :
  NoDup cs -> x ∈ cs -> x ∉ l ->
  length (List.filter (fun c => bool_decide (c ∈ x :: l)) cs)
  = S (length (List.filter (fun c => bool_decide (c ∈ l)) cs)).
Proof.
  intros Hcs. induction Hcs as [|c cs Hc Hcs IH]; intros Hx Hl;
    [by apply elem_of_nil in Hx|].
  simpl. apply elem_of_cons in Hx as [<-|Hx].
  - rewrite bool_decide_eq_true_2 by (apply elem_of_cons; by left).
    rewrite (bool_decide_eq_false_2 (x ∈ l)) by done. simpl. f_equal.
    f_equal. apply filter_ext_in. intros c' Hc'%list_elem_of_In.
    apply bool_decide_ext. rewrite elem_of_cons. split; [|by right].
    intros [->|?]; done.
  - assert (c <> x) by (intros ->; done).
    rewrite (bool_decide_ext (c ∈ x :: l) (c ∈ l))
      by (rewrite elem_of_cons; split; [by intros [?|?] | by right]).
    destruct (bool_decide (c ∈ l)); simpl; by rewrite IH.
Qed.

Lemma filter_length_cons_absent (x : string) (l cs : list string) :
  x ∉ cs ->
  List.filter (fun c => bool_decide (c ∈ x :: l)) cs
  = List.filter (fun c => bool_decide (c ∈ l)) cs.
Proof.
  intros Hx. apply filter_ext_in. intros c Hc%list_elem_of_In.
  apply bool_decide_ext. rewrite elem_of_cons. split; [|by right].
  intros [->|?]; done.
Qed.

(** Counting the codes of a category among distinct material codes is
    counting the materials with a code in the category. *)
Lemma count_codes_count_materials (cs : list string) (ms : list MaterialOption) :
  NoDup cs -> NoDup (List.map code ms) ->
  length (List.filter (fun c => bool_decide (c ∈ List.map code ms)) cs)
  = length (List.filter (fun m => bool_decide (code m ∈ cs)) ms).
Proof.
  intros Hcs. induction ms as [|m ms IH]; simpl; intros Hms.
  - clear Hcs. by induction cs as [|c cs IHcs].
  - apply NoDup_cons in Hms as [Hm Hms]. destruct (decide (code m ∈ cs)) as [Hin|Hout].
    + rewrite filter_length_cons_fresh, (bool_decide_eq_true_2 _ Hin) by done.
      simpl. by rewrite IH.
    + rewrite filter_length_cons_absent, (bool_decide_eq_false_2 _ Hout) by done.
      by apply IH.
Qed.

Example sample_printers_value :
  List.map (fun printer =>
              (printer_id printer,
               List.map (fun material =>
                           (code material, categoryPaths material,
                            List.map layer_id (settings material)))
                        (materials printer)))
           sample_printers
  = [("FORM-4-0",
      [("FLGPCL05", ["Engineering"; "General"], ["FLGPCL05-0.025"; "FLGPCL05-0.1"]);
       ("FLGPGR05", ["Dental â€º Models"; "General"], ["FLGPGR04-0.05"; "FLGPGR05-0.1"]);
       ("FLGPGR05", ["Dental â€º Models"; "General"], ["FLGPGR05-0.1"])])].
Proof. vm_compute. reflexivity. Qed.

Example sample_categoryCodeMap_value :
  List.map (fun id => (id, sample_categoryCodeMap !! id))
    ["general"; "dental"; "dental/models"; "engineering"; "models"]
  = [("general", Some ["FLGPGR05"; "FLGPCL05"]);
     ("dental", Some ["FLGPGR05"]);
     ("dental/models", Some ["FLGPGR05"]);
     ("engineering", Some ["FLGPCL05"]);
     ("models", None)]
  /\ size sample_categoryCodeMap = 4%nat.
Proof. vm_compute. split; reflexivity. Qed.

Lemma filteredMaterials_union_of_filters_witness :
  List.map material_label
    (filteredMaterials sample_printers sample_categoryCodeMap
       (sample_selection ["dental"; "engineering"] "" ""))
  = ["Clear Resin"; "Grey Resin"; "Grey Resin (legacy)"]
  /\ exists printer,
      selectedPrinter sample_printers (sample_selection ["dental"; "engineering"] "" "")
      = Some printer
      /\ filteredMaterials sample_printers sample_categoryCodeMap
           (sample_selection ["dental"; "engineering"] "" "")
         = List.filter (matches_some_filter sample_categoryCodeMap ["dental"; "engineering"])
             (materials printer).
Proof.
  split; [vm_compute; reflexivity|].
  destruct (selectedPrinter sample_printers
              (sample_selection ["dental"; "engineering"] "" "")) as [printer|] eqn:Hp;
    [|by vm_compute in Hp].
  exists printer. split; [done|].
  apply (filteredMaterials_union_of_filters sample_printers sample_categoryCodeMap
           (sample_selection ["dental"; "engineering"] "" "") printer Hp).
  done.
Defined.

(** With a printer selected, the count of a category is the number of its
    aggregated codes that are codes of materials of the printer. *)
Lemma categoryCounts_lookup printers categoryCodeMap st printer id :
  selectedPrinter printers st = Some printer ->
  categoryCounts printers categoryCodeMap st !! id
  = category_codes_of_printer printer <$> categoryCodeMap !! id.
Proof.
  intros Hprinter. unfold categoryCounts. rewrite Hprinter, lookup_fmap.
  destruct (categoryCodeMap !! id) as [cs|]; [|done]. simpl. f_equal.
  unfold category_codes_of_printer.
  etransitivity;
    [|apply (foldl_count (fun c => bool_decide (c ∈ List.map code (materials printer)))
               cs 0)].
  generalize 0%nat. induction cs as [|c cs IH]; intros count; simpl; [done|].
  rewrite <- IH. f_equal.
  destruct (decide (c ∈ new_Set (List.map code (materials printer)))) as [Hin|Hout].
  - by rewrite bool_decide_eq_true_2 by (by apply elem_of_dedupe).
  - rewrite bool_decide_eq_false_2; [done|]. by intros ?%(elem_of_dedupe (A:=string)).
Qed.

(** C7, as stated, fails: two materials of the selected printer share the
    code [FLGPGR05], the category [dental] holds that code, the count is 1
    and the number of materials with a code in the category is 2. *)
Lemma categoryCounts_not_materials_count :
  exists printer codes,
    selectedPrinter sample_printers (sample_selection [] "" "") = Some printer
    /\ sample_categoryCodeMap !! "dental" = Some codes
    /\ categoryCounts sample_printers sample_categoryCodeMap (sample_selection [] "" "")
         !! "dental" = Some 1%nat
    /\ materials_in_category printer codes = 2%nat
    /\ categoryCounts sample_printers sample_categoryCodeMap (sample_selection [] "" "")
         !! "dental" <> Some (materials_in_category printer codes).
Proof.
  destruct (selectedPrinter sample_printers (sample_selection [] "" "")) as [printer|] eqn:Hp;
    [|by vm_compute in Hp].
  assert (materials_in_category printer ["FLGPGR05"] = 2%nat) as Hcount
    by (vm_compute in Hp; injection Hp as <-; by vm_compute).
  exists printer, ["FLGPGR05"].
  split_and!; [done | by vm_compute | by vm_compute | done |].
  rewrite Hcount. by vm_compute.
Qed.

(** C7, amended. For the selected printer and every id of [categoryCodeMap],
    the count is the number of the category's aggregated codes that are
    codes of materials of the printer; when no two materials of the printer
    share a code (the aggregated codes being free of duplicates), this is
    the number of materials of the printer with a code among the aggregated
    codes. *)
Theorem categoryCounts_counts_codes (printers : list PrinterOption)
    (categoryCodeMap : gmap string (list string)) (st : Selection)
    (printer : PrinterOption) (id : string) (codes : list string) :
  selectedPrinter printers st = Some printer ->
  categoryCodeMap !! id = Some codes ->
  categoryCounts printers categoryCodeMap st !! id
  = Some (category_codes_of_printer printer codes)
  /\ (NoDup codes -> NoDup (List.map code (materials printer)) ->
      categoryCounts printers categoryCodeMap st !! id
      = Some (materials_in_category printer codes)).
Proof.
  intros Hprinter Hid. rewrite (categoryCounts_lookup _ _ _ _ _ Hprinter), Hid. simpl.
  split; [done|]. intros Hcodes Hms. f_equal.
  by apply count_codes_count_materials.
Qed.

Lemma categoryCounts_counts_codes_witness :
  exists printer,
    selectedPrinter sample_printers (sample_selection [] "" "") = Some printer
    /\ categoryCounts sample_printers sample_categoryCodeMap (sample_selection [] "" "")
         !! "general"
       = Some (category_codes_of_printer printer ["FLGPGR05"; "FLGPCL05"]).
Proof.
  destruct (selectedPrinter sample_printers (sample_selection [] "" "")) as [printer|] eqn:Hp;
    [|by vm_compute in Hp].
  exists printer. split; [done|].
  apply (categoryCounts_counts_codes sample_printers sample_categoryCodeMap
           (sample_selection [] "" "") printer "general" ["FLGPGR05"; "FLGPCL05"] Hp).
  by vm_compute.
Defined.

(** ** Selection repair *)

Lemma existsb_elem_of {A} (P : A -> bool) (l : list A) :
  existsb P l = true <-> exists x, x ∈ l /\ P x = true.
Proof. rewrite existsb_exists. by setoid_rewrite list_elem_of_In. Qed.

Lemma find_elem_of {A} (P : A -> bool) (l : list A) (x : A) :
  List.find P l = Some x -> x ∈ l /\ P x = true.
Proof. intros [? ?]%find_some. split; [by apply list_elem_of_In | done]. Qed.

Lemma find_none_elem_of {A} (P : A -> bool) (l : list A) (x : A) :
  List.find P l = None -> x ∈ l -> P x = false.
Proof. intros Hnone Hx%list_elem_of_In. by eapply find_none. Qed.

Lemma head_elem_of {A} (l : list A) (x : A) : head l = Some x -> x ∈ l.
Proof. destruct l; [done|]. intros [= ->]. apply elem_of_cons. by left. Qed.

Lemma material_selected_exists printers categoryCodeMap st :
  existsb (fun material => bool_decide (code material = selectedMaterialCode st))
    (filteredMaterials printers categoryCodeMap st) = true
  <-> material_selected printers categoryCodeMap st.
Proof.
  rewrite existsb_elem_of. unfold material_selected.
  by setoid_rewrite bool_decide_eq_true.
Qed.

Lemma selectedMaterial_is_Some printers categoryCodeMap st :
  is_Some (selectedMaterial printers categoryCodeMap st)
  <-> material_selected printers categoryCodeMap st.
Proof.
  unfold selectedMaterial, material_selected. split.
  - intros [material [? ?%bool_decide_eq_true]%find_elem_of]. eauto.
  - intros (material & Hin & Hcode).
    destruct (List.find _ _) as [|] eqn:Hfind; [done|].
    eapply find_none_elem_of in Hfind; [|done].
    by apply bool_decide_eq_false in Hfind.
Qed.

Lemma filteredMaterials_no_printer printers categoryCodeMap st :
  selectedPrinter printers st = None ->
  filteredMaterials printers categoryCodeMap st = [].
Proof. intros Hnone. unfold filteredMaterials. by rewrite Hnone. Qed.

(** A commit of the repair effects changes neither the printer nor the
    filters, hence not the filtered materials. *)
Lemma filteredMaterials_repairSelection printers categoryCodeMap st :
  filteredMaterials printers categoryCodeMap (repairSelection printers categoryCodeMap st)
  = filteredMaterials printers categoryCodeMap st.
Proof. reflexivity. Qed.

Lemma repairMaterial_kept printers categoryCodeMap st :
  material_selected printers categoryCodeMap st ->
  repairMaterial printers categoryCodeMap st = selectedMaterialCode st.
Proof.
  intros Hsel. unfold repairMaterial.
  destruct (selectedPrinter printers st) eqn:Hprinter.
  - apply material_selected_exists in Hsel. by rewrite Hsel.
  - destruct Hsel as (material & Hin & _).
    rewrite filteredMaterials_no_printer in Hin by done. by apply elem_of_nil in Hin.
Qed.

Lemma repairMaterial_reset printers categoryCodeMap st :
  ~ material_selected printers categoryCodeMap st ->
  repairMaterial printers categoryCodeMap st
  = match head (filteredMaterials printers categoryCodeMap st) with
    | Some material => code material
    | None => ""
    end.
Proof.
  intros Hsel. unfold repairMaterial.
  destruct (selectedPrinter printers st) eqn:Hprinter.
  - rewrite <- material_selected_exists in Hsel.
    apply not_true_is_false in Hsel. by rewrite Hsel.
  - by rewrite filteredMaterials_no_printer.
Qed.

Lemma thickness_selected_exists printers categoryCodeMap st material :
  selectedMaterial printers categoryCodeMap st = Some material ->
  existsb (fun setting =>
             bool_decide (NumberToString (layerThickness setting) = selectedThickness st))
    (settings material) = true
  <-> thickness_selected printers categoryCodeMap st.
Proof.
  intros Hmat. rewrite existsb_elem_of. unfold thickness_selected, thicknessOptions.
  rewrite Hmat. by setoid_rewrite bool_decide_eq_true.
Qed.

Lemma repairThickness_reset printers categoryCodeMap st :
  ~ thickness_selected printers categoryCodeMap st ->
  repairThickness printers categoryCodeMap st
  = match head (thicknessOptions printers categoryCodeMap st) with
    | Some setting => NumberToString (layerThickness setting)
    | None => ""
    end.
Proof.
  intros Hsel. unfold repairThickness, thicknessOptions.
  destruct (selectedMaterial printers categoryCodeMap st) as [material|] eqn:Hmat; [|done].
  rewrite <- (thickness_selected_exists _ _ _ _ Hmat) in Hsel.
  apply not_true_is_false in Hsel. by rewrite Hsel.
Qed.

Lemma repairThickness_kept printers categoryCodeMap st :
  thickness_selected printers categoryCodeMap st ->
  repairThickness printers categoryCodeMap st = selectedThickness st.
Proof.
  intros Hsel. unfold repairThickness.
  destruct (selectedMaterial printers categoryCodeMap st) as [material|] eqn:Hmat.
  - apply (thickness_selected_exists _ _ _ _ Hmat) in Hsel. by rewrite Hsel.
  - destruct Hsel as (setting & Hin & _). unfold thicknessOptions in Hin.
    rewrite Hmat in Hin. by apply elem_of_nil in Hin.
Qed.

(** Scenario D: the filter [engineering] excludes the selected grey resin;
    the commit selects the first filtered material and clears the thickness,
    and the next commit selects the first thickness of that material. *)
Example scenario_D_repair :
  let st := sample_selection ["engineering"] "FLGPGR05" "0.1" in
  repairSelection sample_printers sample_categoryCodeMap st
  = sample_selection ["engineering"] "FLGPCL05" ""
  /\ repairSelection sample_printers sample_categoryCodeMap
       (repairSelection sample_printers sample_categoryCodeMap st)
     = sample_selection ["engineering"] "FLGPCL05" "0.025".
Proof. vm_compute. split; reflexivity. Qed.

(** ** Numbers as keys and sort keys *)

Lemma SameValueZero_refl a : SameValueZero a a = true.
Proof. destruct a as [|[]|m e]; simpl; auto using Qeq_bool_refl. Qed.

Lemma SameValueZero_sym a b : SameValueZero a b = SameValueZero b a.
Proof.
  destruct a as [|[]|m e], b as [|[]|m' e']; simpl; auto using Qeq_bool_comm.
Qed.

Lemma SameValueZero_trans a b c :
  SameValueZero a b = true -> SameValueZero b c = true -> SameValueZero a c = true.
Proof.
  destruct a as [|[]|m e], b as [|[]|m' e'], c as [|[]|m'' e'']; simpl; try done.
  apply Qeq_bool_trans.
Qed.

Lemma sub_sign_antisym a b : sub_sign b a = CompOpp (sub_sign a b).
Proof.
  destruct a as [|[]|m e], b as [|[]|m' e']; simpl; try done.
  by rewrite <- Qcompare_antisym.
Qed.

Lemma sub_sign_NaN_l b : sub_sign NaN b = Eq.
Proof. by destruct b. Qed.

Lemma sub_sign_NaN_r a : sub_sign a NaN = Eq.
Proof. by destruct a as [|[]|]. Qed.

Lemma number_le_trans a b c : number_le a b -> number_le b c -> number_le a c.
Proof.
  unfold number_le.
  destruct a as [|[]|m e], b as [|[]|m' e'], c as [|[]|m'' e'']; simpl;
    intros (? & ? & Hab) (? & ? & Hbc); split_and!; try done.
  apply Qle_alt. apply Qle_alt in Hab, Hbc. by eapply Qle_trans.
Qed.

Lemma sub_sign_Eq a b :
  is_NaN a = false -> is_NaN b = false -> sub_sign a b = Eq ->
  SameValueZero a b = true.
Proof.
  destruct a as [|[]|m e], b as [|[]|m' e']; simpl; try done.
  intros _ _ Heq. by apply Qeq_bool_iff, Qeq_alt.
Qed.

(** ** The thickness map *)

Lemma Map_has_app {V} (m m' : list (number * V)) key :
  Map_has (m ++ m') key = Map_has m key || Map_has m' key.
Proof. apply existsb_app. Qed.

Lemma Map_has_elem_of {V} (m : list (number * V)) key :
  Map_has m key = true
  <-> exists k v, (k, v) ∈ m /\ SameValueZero k key = true.
Proof.
  unfold Map_has. rewrite existsb_elem_of. split.
  - intros ([k v] & ? & ?). eauto.
  - intros (k & v & ? & ?). by exists (k, v).
Qed.

Lemma Map_set_absent {V} (m : list (number * V)) key value :
  Map_has m key = false -> Map_set m key value = m ++ [(key, value)].
Proof.
  induction m as [|[k v] m IH]; simpl; [done|].
  intros [Hk Hm]%orb_false_elim. by rewrite Hk, IH.
Qed.

Lemma add_setting_unfold thicknessMap setting :
  add_setting thicknessMap setting
  = if Map_has thicknessMap (thickness_key setting) then thicknessMap
    else thicknessMap ++ [(thickness_key setting, layer_option_of setting)].
Proof.
  unfold add_setting. fold (thickness_key setting).
  destruct (Map_has thicknessMap (thickness_key setting)) eqn:Hhas; simpl; [done|].
  by apply Map_set_absent.
Qed.

Lemma first_with_thickness_app raw setting i s :
  first_with_thickness (raw ++ [setting]) i s
  <-> first_with_thickness raw i s
      \/ (i = length raw /\ s = setting
          /\ forall earlier, earlier ∈ raw ->
                SameValueZero (thickness_key earlier) (thickness_key setting) = false).
Proof.
  unfold first_with_thickness. split.
  - intros [Hi Hfirst]. destruct (decide (i < length raw)%nat) as [Hlt|Hge].
    + left. rewrite lookup_app_l in Hi by done. split; [done|].
      intros j earlier Hj Hearlier. apply (Hfirst j); [done|].
      rewrite lookup_app_l by lia. done.
    + right. rewrite lookup_app_r in Hi by lia.
      destruct (i - length raw)%nat as [|n] eqn:Hn; [|by destruct n].
      injection Hi as <-. assert (i = length raw) as -> by lia. split_and!; try done.
      intros earlier (j & Hj)%list_elem_of_lookup_1.
      apply (Hfirst j); [by eapply lookup_lt_Some|].
      rewrite lookup_app_l by (by eapply lookup_lt_Some). done.
  - intros [[Hi Hfirst] | (-> & -> & Hfirst)].
    + pose proof (lookup_lt_Some _ _ _ Hi) as Hlt. split.
      * by rewrite lookup_app_l.
      * intros j earlier Hj Hearlier. apply (Hfirst j); [done|].
        by rewrite lookup_app_l in Hearlier by lia.
    + split.
      * rewrite lookup_app_r by lia. by rewrite Nat.sub_diag.
      * intros j earlier Hj Hearlier. rewrite lookup_app_l in Hearlier by done.
        apply Hfirst. by eapply list_elem_of_lookup_2.
Qed.

(** The thickness map holds, without repetition, the option of every
    setting that is the first with its key, and has the keys of all
    settings. *)
Lemma thicknessMap_invariant (raw : list RawMaterialSetting) :
  let m := foldl add_setting [] raw in
  (forall k o, (k, o) ∈ m
               <-> exists i s, first_with_thickness raw i s
                               /\ k = thickness_key s /\ o = layer_option_of s)
  /\ (forall k, Map_has m k = true
                <-> exists s, s ∈ raw /\ SameValueZero (thickness_key s) k = true)
  /\ NoDup m.
Proof.
  induction raw as [|setting raw IH] using rev_ind; simpl.
  - split_and!.
    + intros k o. split; [by intros ?%elem_of_nil|]. by intros (i & s & [? _] & _).
    + intros k. split; [done|]. by intros (s & ?%elem_of_nil & _).
    + apply NoDup_nil_2.
  - destruct IH as (Hmem & Hhas & Hnodup). rewrite foldl_app. simpl.
    rewrite add_setting_unfold.
    destruct (Map_has (foldl add_setting [] raw) (thickness_key setting)) eqn:Hkey.
    + apply Hhas in Hkey as (s0 & Hs0 & Hsame). split_and!; [| |done].
      * intros k o. rewrite Hmem. setoid_rewrite first_with_thickness_app.
        split; [by intros (i & s & ? & ?); exists i, s; split; [left|]|].
        intros (i & s & [?|(_ & _ & Hfirst)] & ?); [by exists i, s|].
        by rewrite (Hfirst _ Hs0) in Hsame.
      * intros k. rewrite Hhas. split.
        { intros (s & ? & ?). exists s. split; [|done]. apply elem_of_app. by left. }
        intros (s & [?| ->%list_elem_of_singleton]%elem_of_app & Hs); [by exists s|].
        exists s0. split; [done|]. by eapply SameValueZero_trans.
    + assert (forall earlier, earlier ∈ raw ->
                SameValueZero (thickness_key earlier) (thickness_key setting) = false)
        as Hfresh.
      { intros earlier Hin. apply not_true_is_false. intros Hsame.
        assert (Map_has (foldl add_setting [] raw) (thickness_key setting) = true)
          as Htrue by (apply Hhas; eauto). by rewrite Hkey in Htrue. }
      split_and!.
      * intros k o. rewrite elem_of_app, list_elem_of_singleton, Hmem.
        setoid_rewrite first_with_thickness_app. split.
        { intros [(i & s & ? & ?)|[= -> ->]]; [by exists i, s; split; [left|]|].
          exists (length raw), setting. split; [by right|done]. }
        intros (i & s & [?|(-> & -> & _)] & -> & ->); [left; eauto | by right].
      * intros k. rewrite Map_has_app, orb_true_iff, Hhas. simpl. rewrite orb_false_r.
        split.
        { intros [(s & ? & ?)|?].
          - exists s. split; [|done]. apply elem_of_app. by left.
          - exists setting. split; [|done]. apply elem_of_app. right.
            by apply list_elem_of_singleton. }
        intros (s & [?| ->%list_elem_of_singleton]%elem_of_app & Hs); [left; eauto | by right].
      * apply NoDup_app. split_and!; [done| |apply NoDup_singleton].
        intros [k o] Hin [= -> ->]%list_elem_of_singleton.
        apply Hmem in Hin as (i & s & [Hi _] & Hk & _).
        apply list_elem_of_lookup_2 in Hi. specialize (Hfresh _ Hi).
        by rewrite <- Hk, SameValueZero_refl in Hfresh.
Qed.

(** ** Layer options of a normalised material *)

Lemma by_thickness_antisym a b : by_thickness b a = CompOpp (by_thickness a b).
Proof. apply sub_sign_antisym. Qed.

Lemma elem_of_settings_buildMaterial codeToPaths material o :
  o ∈ settings (buildMaterial codeToPaths material)
  <-> exists i s, first_with_thickness (material_settings material) i s
                  /\ o = layer_option_of s.
Proof.
  simpl. rewrite elem_of_array_sort. unfold Map_values, thicknessMap_of.
  destruct (thicknessMap_invariant (material_settings material)) as (Hmem & _ & _).
  rewrite elem_of_map. split.
  - intros ([k o'] & -> & (i & s & ? & _ & ->)%Hmem). eauto.
  - intros (i & s & Hfirst & ->). exists (thickness_key s, layer_option_of s).
    split; [done|]. apply Hmem. eauto.
Qed.

Lemma first_with_thickness_unique raw i s j s' :
  first_with_thickness raw i s -> first_with_thickness raw j s' ->
  SameValueZero (thickness_key s) (thickness_key s') = true -> s = s'.
Proof.
  intros [Hi Hfi] [Hj Hfj] Hsame.
  destruct (Nat.lt_total i j) as [Hlt|[->|Hlt]].
  - by rewrite (Hfj _ _ Hlt Hi) in Hsame.
  - rewrite Hi in Hj. by injection Hj.
  - rewrite SameValueZero_sym in Hsame. by rewrite (Hfi _ _ Hlt Hj) in Hsame.
Qed.

Lemma settings_buildMaterial_NoDup codeToPaths material :
  NoDup (settings (buildMaterial codeToPaths material)).
Proof.
  simpl. apply array_sort_NoDup. unfold Map_values, thicknessMap_of.
  destruct (thicknessMap_invariant (material_settings material)) as (Hmem & _ & Hnodup).
  change (NoDup (snd <$> foldl add_setting [] (material_settings material))).
  apply NoDup_fmap_2_strong; [|done].
  intros [k o] [k' o'] (i & s & _ & -> & ->)%Hmem (j & s' & _ & -> & ->)%Hmem.
  simpl. intros Heq. f_equal; [|done].
  change (layerThickness (layer_option_of s) = layerThickness (layer_option_of s')).
  by rewrite Heq.
Qed.

Lemma Sorted_restrict {A} (R : A -> A -> Prop) (P : A -> Prop) (l : list A) :
  Sorted R l -> Forall P l -> Sorted (fun a b => P a /\ P b /\ R a b) l.
Proof.
  induction 1 as [|a l Hl IH Hhd]; intros Hall; [constructor|].
  apply Forall_cons in Hall as [Ha Hall]. constructor; [by apply IH|].
  destruct Hhd as [|b l' Hab]; constructor.
  apply Forall_cons in Hall as [Hb _]. done.
Qed.

Lemma StronglySorted_by_thickness (l : list LayerOption) :
  Forall (fun o => is_NaN (layerThickness o) = false) l ->
  StronglySorted (fun a b => number_le (layerThickness a) (layerThickness b))
    (array_sort by_thickness l).
Proof.
  intros Hall. apply Sorted_StronglySorted.
  { intros a b c. apply number_le_trans. }
  apply (Sorted_restrict (not_after by_thickness)
           (fun o => is_NaN (layerThickness o) = false)).
  - apply array_sort_Sorted, by_thickness_antisym.
  - apply Forall_forall. intros o Ho%elem_of_array_sort.
    rewrite Forall_forall in Hall. by apply Hall.
Qed.

(** C2, as stated, fails: with the thicknesses [NaN] and 0.1 both layer
    options survive, and in no order of the two is every thickness at most
    the next one. *)
Lemma layer_options_with_NaN_not_ascending :
  List.map layerThickness (settings (buildMaterial ∅ sample_mixed))
  = [NaN; Finite 1 (-1)]
  /\ forall ordered,
      ordered ≡ₚ settings (buildMaterial ∅ sample_mixed) ->
      ~ Sorted (fun a b => number_le (layerThickness a) (layerThickness b)) ordered.
Proof.
  split; [vm_compute; reflexivity|].
  intros ordered Hperm Hsorted.
  assert (settings (buildMaterial ∅ sample_mixed)
          = [layer_option_of (sample_setting "Tough ?" "FLTO2001" NaN);
             layer_option_of (sample_setting "Tough 100" "FLTO2001" (Finite 1 (-1)))])
    as Hout by (vm_compute; reflexivity).
  rewrite Hout in Hperm. symmetry in Hperm.
  apply Permutation_length_2_inv in Hperm as [->| ->];
    inversion_clear Hsorted as [|? ? _ Hhd]; inversion_clear Hhd as [|? ? Hle];
    by destruct Hle as (? & ? & _).
Qed.

(** C2, amended. The layer options of a normalised material are the options
    made of the settings that are the first with their thickness, the
    thickness being the numeric coercion of [layer_thickness_mm] and two
    thicknesses being the same when they are SameValueZero; no two options
    have the same thickness.  When no thickness is [NaN], the options are in
    strictly ascending order of thickness. *)
Theorem layer_options_first_per_thickness
    (codeToPaths : gmap string (list string)) (material : RawMaterial) :
  let raw := material_settings material in
  let out := settings (buildMaterial codeToPaths material) in
  (forall o, o ∈ out
             <-> exists i s, first_with_thickness raw i s /\ o = layer_option_of s)
  /\ (forall s, layerThickness (layer_option_of s)
                = Number (layer_thickness_mm (scene_settings s)))
  /\ NoDup out
  /\ (forall a b, a ∈ out -> b ∈ out ->
                  SameValueZero (layerThickness a) (layerThickness b) = true -> a = b)
  /\ ((forall s, s ∈ raw -> is_NaN (thickness_key s) = false) ->
      StronglySorted (fun a b => number_lt (layerThickness a) (layerThickness b)) out).
Proof.
  intros raw out. split_and!.
  - apply elem_of_settings_buildMaterial.
  - done.
  - apply settings_buildMaterial_NoDup.
  - intros a b (i & s & Hs & ->)%elem_of_settings_buildMaterial
      (j & s' & Hs' & ->)%elem_of_settings_buildMaterial Hsame.
    f_equal. by eapply first_with_thickness_unique.
  - intros Hfinite.
    assert (forall o, o ∈ out -> is_NaN (layerThickness o) = false) as Hout.
    { intros o (i & s & [Hi _] & ->)%elem_of_settings_buildMaterial.
      apply Hfinite. by eapply list_elem_of_lookup_2. }
    assert (forall a b, a ∈ out -> b ∈ out ->
              SameValueZero (layerThickness a) (layerThickness b) = true -> a = b)
      as Hunique.
    { intros a b (i & s & Hs & ->)%elem_of_settings_buildMaterial
        (j & s' & Hs' & ->)%elem_of_settings_buildMaterial Hsame.
      f_equal. by eapply first_with_thickness_unique. }
    pose proof (settings_buildMaterial_NoDup codeToPaths material) as Hnodup.
    assert (StronglySorted
              (fun a b => number_le (layerThickness a) (layerThickness b)) out)
      as Hsorted.
    { change (StronglySorted
                (fun a b => number_le (layerThickness a) (layerThickness b))
                (array_sort by_thickness (Map_values (thicknessMap_of material)))).
      apply StronglySorted_by_thickness, Forall_forall.
      intros o Ho. apply Hout. unfold out. simpl. by apply elem_of_array_sort. }
    fold out in Hnodup. clearbody out.
    induction Hsorted as [|a l Hl IH Ha]; [constructor|].
    apply NoDup_cons in Hnodup as [Hnotin Hnodup]. constructor.
    + apply IH; [| |done].
      * intros o Ho. apply Hout, elem_of_cons. by right.
      * intros x y Hx Hy. apply Hunique; apply elem_of_cons; by right.
    + apply Forall_forall. intros b Hb. rewrite Forall_forall in Ha.
      destruct (Ha b Hb) as (Hna & Hnb & Hle).
      unfold number_lt. destruct (sub_sign (layerThickness a) (layerThickness b)) eqn:Hsign;
        [|done|done].
      apply sub_sign_Eq in Hsign; [|done..].
      apply Hunique in Hsign; [|apply elem_of_cons; by left|apply elem_of_cons; by right].
      by subst.
Qed.

Lemma layer_options_first_per_thickness_witness :
  let out := settings (buildMaterial ∅ sample_grey) in
  List.map layer_label out = ["Grey 50"; "Grey 100"]
  /\ StronglySorted (fun a b => number_lt (layerThickness a) (layerThickness b)) out.
Proof.
  split; [vm_compute; reflexivity|].
  apply (layer_options_first_per_thickness ∅ sample_grey).
  intros s Hs. unfold sample_grey in Hs. simpl in Hs.
  apply list_elem_of_In in Hs. simpl in Hs.
  destruct Hs as [<-|[<-|[<-|[]]]]; reflexivity.
Defined.

Lemma is_NaN_true a : is_NaN a = true -> a = NaN.
Proof. by destruct a. Qed.

Lemma foldl_add_setting_NaN (o : LayerOption) (rest : list RawMaterialSetting) :
  (forall s, s ∈ rest -> thickness_key s = NaN) ->
  foldl add_setting [(NaN, o)] rest = [(NaN, o)].
Proof.
  induction rest as [|s rest IH]; intros Hrest; simpl; [done|].
  rewrite add_setting_unfold, (Hrest s) by (apply elem_of_cons; by left). simpl.
  apply IH. intros s' Hs'. apply Hrest, elem_of_cons. by right.
Qed.

(** C9. When a material has settings and the thickness of every one of them
    coerces to [NaN], the normalised material has exactly one layer option,
    the one made of the first setting: [NaN] is the same key as [NaN] in the
    thickness map. *)
Theorem unparseable_thickness_single_option
    (codeToPaths : gmap string (list string)) (material : RawMaterial)
    (first : RawMaterialSetting) (rest : list RawMaterialSetting) :
  material_settings material = first :: rest ->
  (forall s, s ∈ first :: rest ->
             is_NaN (Number (layer_thickness_mm (scene_settings s))) = true) ->
  settings (buildMaterial codeToPaths material) = [layer_option_of first]
  /\ SameValueZero NaN NaN = true.
Proof.
  intros Hsettings Hnan. split; [|done].
  assert (forall s, s ∈ first :: rest -> thickness_key s = NaN) as Hkeys
    by (intros s Hs; by apply is_NaN_true, Hnan).
  simpl. unfold thicknessMap_of. rewrite Hsettings. simpl.
  rewrite add_setting_unfold. simpl.
  rewrite (Hkeys first) by (apply elem_of_cons; by left).
  rewrite foldl_add_setting_NaN; [done|].
  intros s Hs. apply Hkeys, elem_of_cons. by right.
Qed.

Lemma unparseable_thickness_single_option_witness :
  List.map layer_label (settings (buildMaterial ∅ sample_unparseable)) = ["Draft A"].
Proof.
  destruct (unparseable_thickness_single_option ∅ sample_unparseable
              (sample_setting "Draft A" "FLDRGR02" NaN)
              [sample_setting "Draft B" "FLDRGR02" NaN] eq_refl) as [Hout _].
  - intros s Hs. apply list_elem_of_In in Hs. simpl in Hs.
    destruct Hs as [<-|[<-|[]]]; reflexivity.
  - rewrite Hout. reflexivity.
Defined.

(** C10. Every layer option of a normalised material is the option of one of
    the material's settings: its id and the material code of its scene are
    those of that setting.  The code of the material is the material code of
    the first setting (the label without settings), and the category
    breadcrumbs are those the index holds for that code.  So a setting that
    is the first with its thickness and whose material code is not the one
    of the first setting gives a layer option whose scene has a material
    code other than the code of the material. *)
Theorem layer_option_code_of_own_setting
    (codeToPaths : gmap string (list string)) (material : RawMaterial) :
  let normalised := buildMaterial codeToPaths material in
  (forall o, o ∈ settings normalised ->
             exists s, s ∈ material_settings material
                       /\ o = layer_option_of s
                       /\ layer_id o
                          = material_code (scene_settings s) +:+ "-"
                            +:+ NumberToString
                                  (Number (layer_thickness_mm (scene_settings s)))
                       /\ material_code (scene o) = material_code (scene_settings s))
  /\ code normalised
     = match head (material_settings material) with
       | Some first => material_code (scene_settings first)
       | None => raw_label material
       end
  /\ categoryPaths normalised = default [] (codeToPaths !! code normalised)
  /\ (forall i s first,
         first_with_thickness (material_settings material) i s ->
         head (material_settings material) = Some first ->
         material_code (scene_settings s) <> material_code (scene_settings first) ->
         exists o, o ∈ settings normalised
                   /\ material_code (scene o) = material_code (scene_settings s)
                   /\ material_code (scene o) <> code normalised).
Proof.
  intros normalised. split_and!; try done.
  - intros o (i & s & [Hi _] & ->)%elem_of_settings_buildMaterial.
    exists s. split_and!; try done. by eapply list_elem_of_lookup_2.
  - intros i s first Hfirst Hhead Hcode. exists (layer_option_of s). split_and!.
    + apply elem_of_settings_buildMaterial. eauto.
    + done.
    + simpl. by rewrite Hhead.
Qed.

Lemma layer_option_code_of_own_setting_witness :
  code (buildMaterial ∅ sample_grey) = "FLGPGR05"
  /\ exists o, o ∈ settings (buildMaterial ∅ sample_grey)
               /\ material_code (scene o) = "FLGPGR04"
               /\ material_code (scene o) <> code (buildMaterial ∅ sample_grey).
Proof.
  split; [reflexivity|].
  destruct (layer_option_code_of_own_setting ∅ sample_grey) as (_ & _ & _ & Hdiffer).
  apply (Hdiffer 2%nat (sample_setting "Grey 50" "FLGPGR04" (Finite 5 (-2)))
           (sample_setting "Grey 100" "FLGPGR05" (Finite 1 (-1)))).
  - split; [reflexivity|]. intros [|[|j]] earlier Hj; [| |lia]; intros [= <-]; reflexivity.
  - reflexivity.
  - discriminate.
Defined.

(** ** The exported payload *)

Example scene_payload_grey :
  scene_payload (sample_scene "FLGPGR05" (Finite 5 (-2)))
  = "{" +:+ String newline "  " +:+ QuoteJSONString "machine_type" +:+ ": "
    +:+ QuoteJSONString "FORM-4-0" +:+ "," +:+ String newline "  "
    +:+ QuoteJSONString "material_code" +:+ ": " +:+ QuoteJSONString "FLGPGR05"
    +:+ "," +:+ String newline "  " +:+ QuoteJSONString "layer_thickness_mm"
    +:+ ": 0.05" +:+ String newline "}".
Proof. reflexivity. Qed.

Example JSON_parse_payload_grey :
  JSON_parse (scene_payload (sample_scene "FLGPGR05" (Finite 5 (-2))))
  = Some (scene_object (sample_scene "FLGPGR05" (Finite 5 (-2)))).
Proof. vm_compute. reflexivity. Qed.

Example JSON_parse_numbers :
  JSON_parse "[1e3, -0.00120, 12.5E-1, 0, 1.5e-7, 100]"
  = Some (JArr [JNum (Finite 1 3); JNum (Finite (-12) (-4)); JNum (Finite 125 (-2));
                JNum (Finite 0 0); JNum (Finite 15 (-8)); JNum (Finite 1 2)]).
Proof. vm_compute. reflexivity. Qed.

Example JSON_roundtrip_nested :
  JSON_parse (JSON_stringify
                (JObj [("a", JArr [JNull; JBool true; JStr ("x" +:+ String newline "y")]);
                       ("b", JObj []); ("c", JNum (Finite (-12345) (-2)))]))
  = Some (JObj [("a", JArr [JNull; JBool true; JStr ("x" +:+ String newline "y")]);
                ("b", JObj []); ("c", JNum (Finite (-12345) (-2)))]).
Proof. vm_compute. reflexivity. Qed.

(** *** Strings, digits and number literals *)

Lemma str_app_cons c a b : String c a +:+ b = String c (a +:+ b).
Proof. reflexivity. Qed.

Lemma str_app_nil_r a : a +:+ "" = a.
Proof. induction a as [|c a IH]; [done|]. by rewrite str_app_cons, IH. Qed.

Lemma str_app_assoc a b c : (a +:+ b) +:+ c = a +:+ (b +:+ c).
Proof. induction a as [|x a IH]; [done|]. by rewrite !str_app_cons, IH. Qed.

Lemma str_length_app a b :
  String.length (a +:+ b) = (String.length a + String.length b)%nat.
Proof. induction a as [|x a IH]; [done|]. rewrite str_app_cons. simpl. by rewrite IH. Qed.

Lemma all_digits_app a b : all_digits (a +:+ b) = all_digits a && all_digits b.
Proof.
  induction a as [|c a IH]; [done|]. rewrite str_app_cons. simpl.
  by rewrite IH, andb_assoc.
Qed.

Lemma all_digits_string_of_uint d : all_digits (NilEmpty.string_of_uint d) = true.
Proof. induction d; simpl; auto. Qed.

Lemma all_digits_zeros n : all_digits (zeros n) = true.
Proof. induction n; simpl; auto. Qed.

Lemma span_digits_stop rest :
  match rest with EmptyString => true | String c _ => negb (is_digit c) end = true ->
  span_digits rest = ("", rest).
Proof. destruct rest as [|c rest]; [done|]. simpl. by intros ->%negb_true_iff. Qed.

Lemma span_digits_app ds rest :
  all_digits ds = true ->
  match rest with EmptyString => true | String c _ => negb (is_digit c) end = true ->
  span_digits (ds +:+ rest) = (ds, rest).
Proof.
  intros Hds Hrest. induction ds as [|c ds IH]; [by apply span_digits_stop|].
  simpl in Hds. apply andb_true_iff in Hds as [Hc Hds].
  rewrite str_app_cons. simpl. by rewrite Hc, IH.
Qed.

Lemma to_uint_no_leading_zero p d : Pos.to_uint p <> Decimal.D0 d.
Proof.
  intros Hd.
  assert (unorm (Pos.to_uint p) = Pos.to_uint p) as Hnorm.
  { rewrite <- (DecimalPos.Unsigned.to_of (Pos.to_uint p)), DecimalPos.Unsigned.of_to. done. }
  rewrite Hd in Hnorm. unfold unorm in Hnorm. rewrite nzhead_D0 in Hnorm.
  destruct (nzhead d) eqn:Hhead; try (by eapply (nzhead_nonzero d); rewrite Hhead, Hnorm).
  injection Hnorm as <-. by apply (DecimalPos.Unsigned.to_uint_nonzero p).
Qed.

Lemma digits_of_pos_head p :
  exists c rest, digits_of_pos p = String c rest /\ is_zero_char c = false
                 /\ is_digit c = true.
Proof.
  unfold digits_of_pos. destruct (Pos.to_uint p) eqn:Hd; simpl; eauto.
  - by destruct (DecimalPos.Unsigned.to_uint_nonnil p).
  - by destruct (to_uint_no_leading_zero p u).
Qed.

Lemma all_digits_digits_of_pos p : all_digits (digits_of_pos p) = true.
Proof. apply all_digits_string_of_uint. Qed.

Lemma N_of_digits_digits_of_pos p : N_of_digits (digits_of_pos p) = Npos p.
Proof.
  unfold N_of_digits, digits_of_pos. rewrite NilEmpty.usu.
  apply DecimalPos.Unsigned.of_to.
Qed.

Lemma N_of_digits_digits_of_N n : N_of_digits (digits_of_N n) = n.
Proof. destruct n; [done|]. apply N_of_digits_digits_of_pos. Qed.

Lemma all_digits_digits_of_N n : all_digits (digits_of_N n) = true.
Proof. destruct n; [done|]. apply all_digits_digits_of_pos. Qed.

Lemma digits_of_N_nonempty n : digits_of_N n <> "".
Proof.
  destruct n; [done|]. simpl. by destruct (digits_of_pos_head p) as (c & r & -> & _).
Qed.

Lemma all_zeros_zeros n : all_zeros (zeros n) = true.
Proof. induction n; simpl; auto. Qed.

Lemma all_zeros_app a b : all_zeros (a +:+ b) = all_zeros a && all_zeros b.
Proof.
  induction a as [|c a IH]; [done|]. rewrite str_app_cons. simpl.
  by rewrite IH, andb_assoc.
Qed.

Lemma strip_trailing_zeros_app_zeros s n :
  strip_trailing_zeros (s +:+ zeros n) = strip_trailing_zeros s.
Proof.
  induction s as [|c s IH].
  - simpl. induction n as [|n IHn]; [done|]. simpl. by rewrite all_zeros_zeros.
  - rewrite str_app_cons. simpl. rewrite all_zeros_app, all_zeros_zeros, andb_true_r.
    by rewrite IH.
Qed.

Lemma strip_leading_zeros_zeros n s :
  strip_leading_zeros (zeros n +:+ s) = strip_leading_zeros s.
Proof. induction n as [|n IH]; [done|]. simpl. by rewrite IH. Qed.

Lemma strip_leading_zeros_head c s :
  is_zero_char c = false -> strip_leading_zeros (String c s) = String c s.
Proof. intros Hc. simpl. by rewrite Hc. Qed.

Lemma str_take_drop n s : str_take n s +:+ str_drop n s = s.
Proof.
  revert s. induction n as [|n IH]; intros [|c s]; simpl; try done.
  by rewrite str_app_cons, IH.
Qed.

Lemma str_length_take n s :
  (n <= String.length s)%nat -> String.length (str_take n s) = n.
Proof.
  revert s. induction n as [|n IH]; intros [|c s]; simpl; try done; try lia.
  intros Hn. rewrite IH; lia.
Qed.

Lemma str_length_drop n s :
  String.length (str_drop n s) = (String.length s - n)%nat.
Proof. revert s. induction n as [|n IH]; intros [|c s]; simpl; try done. Qed.

Lemma all_digits_take n s : all_digits s = true -> all_digits (str_take n s) = true.
Proof.
  revert s. induction n as [|n IH]; intros [|c s]; simpl; try done.
  intros [Hc Hs]%andb_true_iff. by rewrite Hc, IH.
Qed.

Lemma all_digits_drop n s : all_digits s = true -> all_digits (str_drop n s) = true.
Proof.
  revert s. induction n as [|n IH]; intros [|c s]; simpl; try done.
  intros [Hc Hs]%andb_true_iff. by apply IH.
Qed.

Lemma str_length_zeros n : String.length (zeros n) = n.
Proof. induction n; simpl; auto. Qed.

Lemma str_app_nil_l b : "" +:+ b = b.
Proof. reflexivity. Qed.

Lemma parse_string_body_quote_char c tail :
  parse_string_body (quote_char c +:+ tail)
  = prepend (String c "") (parse_string_body tail).
Proof. destruct c as [[] [] [] [] [] [] [] []]; reflexivity. Qed.

Lemma parse_string_body_quote_chars s rest :
  parse_string_body (quote_chars s +:+ String dquote rest) = Some (s, rest).
Proof.
  induction s as [|c s IH]; [done|].
  simpl. rewrite str_app_assoc, parse_string_body_quote_char, IH. done.
Qed.

Lemma number_ends_digits_end rest : number_ends rest = true -> digits_end rest = true.
Proof.
  destruct rest as [|c rest]; [done|]. simpl.
  intros H. repeat (apply andb_true_iff in H as [H _]). done.
Qed.

Lemma parse_fraction_none rest :
  match rest with
  | EmptyString => true
  | String c _ => negb (bool_decide (c = "."%char))
  end = true ->
  parse_fraction rest = Some ("", rest).
Proof.
  destruct rest as [|c rest]; [done|]. simpl. intros Hc%negb_true_iff.
  apply bool_decide_eq_false in Hc.
  destruct (nat_of_ascii c =? 46)%nat eqn:Heq; [|done].
  apply Nat.eqb_eq in Heq. destruct Hc.
  by rewrite <- (ascii_nat_embedding c), Heq.
Qed.

Lemma parse_fraction_some frac rest :
  all_digits frac = true -> frac <> "" -> digits_end rest = true ->
  parse_fraction (String "." (frac +:+ rest)) = Some (frac, rest).
Proof.
  intros Hfrac Hne Hrest. unfold parse_fraction.
  change (nat_of_ascii "." =? 46)%nat with true. cbv iota.
  rewrite (span_digits_app _ _ Hfrac Hrest). by destruct frac.
Qed.

Lemma parse_exponent_none rest :
  match rest with
  | EmptyString => true
  | String c _ => negb (bool_decide (c = "e"%char)) && negb (bool_decide (c = "E"%char))
  end = true ->
  parse_exponent rest = Some (0%Z, rest).
Proof.
  destruct rest as [|c rest]; [done|]. simpl.
  intros [He%negb_true_iff HE%negb_true_iff]%andb_true_iff.
  apply bool_decide_eq_false in He, HE.
  destruct (nat_of_ascii c =? 101)%nat eqn:Heq.
  { apply Nat.eqb_eq in Heq. destruct He. by rewrite <- (ascii_nat_embedding c), Heq. }
  destruct (nat_of_ascii c =? 69)%nat eqn:Heq'; [|done].
  apply Nat.eqb_eq in Heq'. destruct HE. by rewrite <- (ascii_nat_embedding c), Heq'.
Qed.

Lemma parse_exponent_some z rest :
  digits_end rest = true ->
  parse_exponent
    (String "e" ((if (0 <=? z)%Z then "+" else "-") +:+ digits_of_N (Z.abs_N z) +:+ rest))
  = Some (z, rest).
Proof.
  intros Hrest. unfold parse_exponent.
  change (nat_of_ascii "e" =? 101)%nat with true. cbv iota. simpl orb. cbv iota.
  assert (span_digits (digits_of_N (Z.abs_N z) +:+ rest)
          = (digits_of_N (Z.abs_N z), rest)) as Hspan
    by (apply span_digits_app; [apply all_digits_digits_of_N | done]).
  pose proof (digits_of_N_nonempty (Z.abs_N z)) as Hne.
  destruct (0 <=? z)%Z eqn:Hz.
  - rewrite str_app_cons, str_app_nil_l. simpl. rewrite Hspan.
    destruct (digits_of_N (Z.abs_N z)) eqn:Hd; [done|]. rewrite <- Hd.
    rewrite N_of_digits_digits_of_N. f_equal. f_equal. lia.
  - rewrite str_app_cons, str_app_nil_l. simpl. rewrite Hspan.
    destruct (digits_of_N (Z.abs_N z)) eqn:Hd; [done|]. rewrite <- Hd.
    rewrite N_of_digits_digits_of_N. f_equal. f_equal. lia.
Qed.

Lemma decimal_number_digits (negative : bool) p (a b : nat) (e : Z) :
  strip_trailing_zeros (digits_of_pos p) = digits_of_pos p ->
  decimal_number negative (zeros a +:+ digits_of_pos p +:+ zeros b) e
  = Finite (if negative then Zneg p else Zpos p) (e + Z.of_nat b).
Proof.
  intros Hcanon.
  assert (strip_leading_zeros (zeros a +:+ digits_of_pos p +:+ zeros b)
          = digits_of_pos p +:+ zeros b) as Hlead.
  { rewrite strip_leading_zeros_zeros.
    destruct (digits_of_pos_head p) as (c & r & -> & Hc & _).
    rewrite str_app_cons. by apply strip_leading_zeros_head. }
  unfold decimal_number. cbv zeta. rewrite Hlead.
  rewrite strip_trailing_zeros_app_zeros, Hcanon, N_of_digits_digits_of_pos.
  rewrite str_length_app, str_length_zeros. f_equal. lia.
Qed.

Lemma parse_number_integer_part (negative : bool) (int s2 : string) c more :
  int = String c more -> all_digits int = true ->
  is_zero_char c && negb (bool_decide (more = "")) = false ->
  digits_end s2 = true ->
  parse_number ((if negative then "-" else "") +:+ int +:+ s2)
  = match parse_fraction s2 with
    | None => None
    | Some (frac, s3) =>
        match parse_exponent s3 with
        | None => None
        | Some (e, s4) =>
            Some (decimal_number negative (int +:+ frac)
                    (e - Z.of_nat (String.length frac)), s4)
        end
    end.
Proof.
  intros -> Hdigits Hzero Hs2.
  assert (Nat.eqb (nat_of_ascii c) 45 = false) as Hminus.
  { simpl in Hdigits. apply andb_true_iff in Hdigits as [Hc _].
    unfold is_digit in Hc. apply andb_true_iff in Hc as [Hc _].
    apply Nat.leb_le in Hc. apply Nat.eqb_neq. lia. }
  pose proof (span_digits_app _ _ Hdigits Hs2) as Hspan.
  destruct negative.
  - change ("-" +:+ String c more +:+ s2) with (String "-" (String c more +:+ s2)).
    unfold parse_number. change (nat_of_ascii "-" =? 45)%nat with true. cbv iota beta.
    rewrite Hspan. cbv iota beta. by rewrite Hzero.
  - change ("" +:+ String c more +:+ s2) with (String c (more +:+ s2)).
    unfold parse_number. cbv iota beta. rewrite Hminus. cbv iota beta.
    change (String c (more +:+ s2)) with (String c more +:+ s2).
    rewrite Hspan. cbv iota beta. by rewrite Hzero.
Qed.

Lemma decimal_number_digits_only (negative : bool) p (a : nat) (e : Z) :
  strip_trailing_zeros (digits_of_pos p) = digits_of_pos p ->
  decimal_number negative (zeros a +:+ digits_of_pos p) e
  = Finite (if negative then Zneg p else Zpos p) e.
Proof.
  intros Hcanon. pose proof (decimal_number_digits negative p a 0 e Hcanon) as H.
  simpl in H. rewrite str_app_nil_r, Z.add_0_r in H. done.
Qed.

Lemma parse_number_positive_to_string (negative : bool) p e rest :
  strip_trailing_zeros (digits_of_pos p) = digits_of_pos p ->
  number_ends rest = true ->
  parse_number ((if negative then "-" else "") +:+ positive_to_string p e +:+ rest)
  = Some (Finite (if negative then Zneg p else Zpos p) e, rest).
Proof.
  intros Hcanon Hrest.
  pose proof (number_ends_digits_end _ Hrest) as Hdend.
  assert (parse_fraction rest = Some ("", rest)) as Hfrac.
  { apply parse_fraction_none. destruct rest as [|x rest]; [done|]. simpl in Hrest.
    repeat (apply andb_true_iff in Hrest as [Hrest ?]). done. }
  assert (parse_exponent rest = Some (0%Z, rest)) as Hexp.
  { apply parse_exponent_none. destruct rest as [|x rest]; [done|]. simpl in Hrest.
    repeat (apply andb_true_iff in Hrest as [Hrest ?]). by apply andb_true_iff. }
  pose proof (all_digits_digits_of_pos p) as Hdigits.
  unfold positive_to_string, significand, point_position. rewrite Hcanon. cbv zeta.
  destruct (digits_of_pos_head p) as (c & r & Hd & Hc & Hcd).
  pose proof (fun b e => decimal_number_digits negative p 0 b e Hcanon) as Hdec.
  pose proof (fun a e => decimal_number_digits_only negative p a e Hcanon) as Hdec0.
  change (zeros 0 +:+ ?x) with x in Hdec.
  revert Hdec Hdec0. generalize (digits_of_pos p) Hd Hdigits. clear Hd Hdigits Hcanon.
  intros d -> Hdigits Hdec Hdec0.
  set (k := Z.of_nat (String.length (String c r))).
  set (n := (e + k)%Z).
  assert (k = Z.of_nat (S (String.length r))) as Hk by reflexivity.
  assert (n = (e + k)%Z) as Hn by reflexivity.
  clearbody n k.
  destruct ((k <=? n)%Z && (n <=? 21)%Z) eqn:Ha.
  { (* digits followed by zeros *)
    apply andb_true_iff in Ha as [Hkn _]. apply Z.leb_le in Hkn.
    rewrite (parse_number_integer_part negative _ rest c (r +:+ zeros (Z.to_nat (n - k))));
      [| done | by rewrite all_digits_app, Hdigits, all_digits_zeros | by rewrite Hc | done].
    rewrite Hfrac, Hexp, str_app_nil_r, Hdec. do 3 f_equal. simpl. lia. }
  destruct ((0 <? n)%Z && (n <=? 21)%Z) eqn:Hb.
  { (* digits with a point inside *)
    apply andb_true_iff in Hb as [Hn0 Hn21]. apply Z.ltb_lt in Hn0. rewrite Hn21 in Ha.
    rewrite andb_true_r in Ha. apply Z.leb_gt in Ha.
    destruct (Z.to_nat n) as [|n'] eqn:Hn'; [lia|].
    rewrite !str_app_assoc.
    change ("." +:+ ?x) with (String "." x).
    rewrite (parse_number_integer_part negative _ _ c (str_take n' r));
      [| done | by apply (all_digits_take (S n')) | by rewrite Hc | done].
    assert (String.length (str_drop (S n') (String c r)) = S (String.length r) - S n')%nat
      as Hlen by apply (str_length_drop (S n') (String c r)).
    rewrite parse_fraction_some;
      [| by apply all_digits_drop | | done].
    2:{ intros Hempty. rewrite Hempty in Hlen. simpl in Hlen. lia. }
    rewrite Hexp, str_take_drop, (Hdec0 0%nat). do 3 f_equal. rewrite Hlen. lia. }
  destruct ((-6 <? n)%Z && (n <=? 0)%Z) eqn:Hc3.
  { (* zero, point, zeros, digits *)
    apply andb_true_iff in Hc3 as [_ Hn0]. apply Z.leb_le in Hn0.
    rewrite !str_app_assoc.
    change ("0." +:+ ?x) with ("0" +:+ String "." x).
    rewrite <- (str_app_assoc (zeros _)).
    rewrite (parse_number_integer_part negative "0" _ "0" ""); [| done..].
    rewrite parse_fraction_some;
      [| by rewrite all_digits_app, all_digits_zeros | | done].
    2:{ destruct (zeros (Z.to_nat (- n))); done. }
    rewrite Hexp.
    change ("0" +:+ zeros ?m +:+ ?x) with (zeros (S m) +:+ x).
    rewrite (Hdec0 (S (Z.to_nat (- n)))). do 3 f_equal.
    rewrite str_length_app, str_length_zeros.
    change (String.length (String c r)) with (S (String.length r)). lia. }
  (* exponential notation *)
  assert (forall s2,
             digits_end s2 = true ->
             parse_fraction s2 = Some ("", s2) ->
             parse_exponent s2 = Some ((n - 1)%Z, rest) ->
             r = "" ->
             parse_number ((if negative then "-" else "") +:+ String c "" +:+ s2)
             = Some (Finite (if negative then Z.neg p else Z.pos p) e, rest)) as Hone.
  { intros s2 Hs2 Hf He ->.
    rewrite (parse_number_integer_part negative _ _ c ""); [| done | | | done].
    2:{ simpl. by rewrite Hcd. }
    2:{ by rewrite Hc. }
    rewrite Hf, He, str_app_nil_r, (Hdec0 0%nat). do 3 f_equal. simpl in *. lia. }
  destruct r as [|c1 r'].
  - rewrite !str_app_assoc. change ("e" +:+ ?x) with (String "e" x).
    apply Hone; [done | done | by apply parse_exponent_some | done].
  - clear Hone. rewrite !str_app_assoc.
    change (str_take 1 (String c (String c1 r'))) with (String c "").
    change (str_drop 1 (String c (String c1 r'))) with (String c1 r').
    change ("e" +:+ ?x) with (String "e" x). change ("." +:+ ?x) with (String "." x).
    rewrite (parse_number_integer_part negative _ _ c ""); [| done | | | done].
    2:{ simpl. by rewrite Hcd. }
    2:{ by rewrite Hc. }
    rewrite parse_fraction_some; [| | done | done].
    2:{ simpl in Hdigits. by apply andb_true_iff in Hdigits as [_ ?]. }
    rewrite parse_exponent_some by done.
    change (String c "" +:+ String c1 r') with (String c (String c1 r')).
    rewrite (Hdec0 0%nat). do 3 f_equal.
    change (String.length (String c1 r')) with (S (String.length r')).
    change (String.length (String c1 r')) with (S (String.length r')) in Hk. lia.
Qed.

Lemma parse_number_NumberToString x rest :
  is_finite x = true -> canonical x = true -> number_ends rest = true ->
  parse_number (NumberToString x +:+ rest) = Some (x, rest).
Proof.
  destruct x as [| |[|p|p] e]; try done; intros _ Hcanon Hrest.
  - apply Z.eqb_eq in Hcanon as ->.
    refine (eq_trans (parse_number_integer_part false "0" rest "0" ""
                        eq_refl eq_refl eq_refl _) _);
      [by apply number_ends_digits_end|].
    rewrite parse_fraction_none, parse_exponent_none; [done| |].
    + destruct rest as [|c rest]; [done|]. simpl in Hrest.
      repeat (apply andb_true_iff in Hrest as [Hrest ?]). by apply andb_true_iff.
    + destruct rest as [|c rest]; [done|]. simpl in Hrest.
      repeat (apply andb_true_iff in Hrest as [Hrest ?]). done.
  - apply bool_decide_eq_true in Hcanon.
    apply (parse_number_positive_to_string false p e rest Hcanon Hrest).
  - apply bool_decide_eq_true in Hcanon.
    change (NumberToString (Finite (Z.neg p) e)) with ("-" +:+ positive_to_string p e).
    rewrite str_app_assoc.
    apply (parse_number_positive_to_string true p e rest Hcanon Hrest).
Qed.

Lemma scene_payload_text scene :
  scene_payload scene
  = scene_text (machine_type scene) (material_code scene)
      (SerializeJSONNumber (layer_thickness_mm scene)).
Proof.
  unfold scene_payload, JSON_stringify, scene_object, scene_text.
  cbn [SerializeJSONProperty map String.concat].
  rewrite !str_app_assoc. reflexivity.
Qed.

Lemma positive_to_string_head p e :
  exists c r, positive_to_string p e = String c r /\ is_digit c = true.
Proof.
  unfold positive_to_string, significand, point_position. cbv zeta.
  destruct (digits_of_pos_head p) as (c & r & Hd & Hc & Hcd).
  assert (exists r', strip_trailing_zeros (digits_of_pos p) = String c r') as [r' ->].
  { rewrite Hd. simpl. rewrite Hc. simpl. eauto. }
  set (n := (e + Z.of_nat (String.length (digits_of_pos p)))%Z). clearbody n.
  set (k := Z.of_nat (String.length (String c r'))). clearbody k.
  destruct ((k <=? n)%Z && (n <=? 21)%Z) eqn:Ha; [by eexists _, _|].
  destruct ((0 <? n)%Z && (n <=? 21)%Z) eqn:Hb.
  { apply andb_true_iff in Hb as [Hn%Z.ltb_lt _].
    destruct (Z.to_nat n) as [|n'] eqn:Hn'; [lia|]. by eexists _, _. }
  destruct ((-6 <? n)%Z && (n <=? 0)%Z) eqn:Hc3; [by eexists _, _|].
  destruct r'; by eexists _, _.
Qed.

Lemma NumberToString_head x :
  is_finite x = true ->
  exists c r, NumberToString x = String c r
              /\ (is_digit c = true \/ c = "-"%char).
Proof.
  destruct x as [| |[|p|p] e]; try done; intros _.
  - eexists _, _. split; [reflexivity | by left].
  - destruct (positive_to_string_head p e) as (c & r & Heq & Hc).
    exists c, r. split; [done | by left].
  - eexists _, _. split; [reflexivity | by right].
Qed.

Lemma parse_value_number f x rest :
  is_finite x = true -> canonical x = true -> number_ends rest = true ->
  parse_value (S f) (String " " (NumberToString x +:+ rest)) = Some (JNum x, rest).
Proof.
  intros Hfin Hcanon Hrest.
  pose proof (parse_number_NumberToString x rest Hfin Hcanon Hrest) as Hparse.
  destruct (NumberToString_head x Hfin) as (c & r & Heq & Hc).
  rewrite Heq in *. rewrite str_app_cons in *.
  assert (is_ws c = false /\ Nat.eqb (nat_of_ascii c) 34 = false
          /\ Nat.eqb (nat_of_ascii c) 123 = false /\ Nat.eqb (nat_of_ascii c) 91 = false
          /\ Nat.eqb (nat_of_ascii c) 116 = false /\ Nat.eqb (nat_of_ascii c) 102 = false
          /\ Nat.eqb (nat_of_ascii c) 110 = false) as (Hws & H1 & H2 & H3 & H4 & H5 & H6).
  { destruct Hc as [Hc| ->]; [|done]. unfold is_digit in Hc. unfold is_ws.
    apply andb_true_iff in Hc as [?%Nat.leb_le ?%Nat.leb_le].
    rewrite !orb_false_iff. repeat split; apply Nat.eqb_neq; lia. }
  cbn [parse_value skip_ws]. change (is_ws " ") with true. cbv iota.
  cbn [skip_ws]. rewrite Hws. cbv beta iota zeta.
  rewrite H1, H2, H3, H4, H5, H6. by rewrite Hparse.
Qed.

Lemma parse_value_string f s rest :
  parse_value (S f) (String " " (QuoteJSONString s +:+ rest)) = Some (JStr s, rest).
Proof.
  unfold QuoteJSONString. rewrite str_app_cons, str_app_assoc.
  cbn [parse_value skip_ws]. change (is_ws " ") with true. cbv iota.
  cbn [skip_ws]. change (is_ws dquote) with false. cbv beta iota zeta.
  change (nat_of_ascii dquote =? 34)%nat with true. cbv iota.
  change (String dquote "" +:+ rest) with (String dquote rest).
  by rewrite parse_string_body_quote_chars.
Qed.

Lemma parse_value_object f text c rest :
  skip_ws text = String c rest -> Nat.eqb (nat_of_ascii c) 125 = false ->
  parse_value (S f) (String "{" text) = parse_members f [] (String c rest).
Proof.
  intros Hskip Hc. cbn [parse_value skip_ws]. change (is_ws "{") with false.
  cbv beta iota zeta. change (nat_of_ascii "{" =? 34)%nat with false.
  change (nat_of_ascii "{" =? 123)%nat with true. cbv iota.
  rewrite Hskip. cbv iota. by rewrite Hc.
Qed.

Lemma parse_members_entry f acc key vrest v rest3 :
  parse_value f vrest = Some (v, rest3) ->
  parse_members (S f) acc
    (String dquote (quote_chars key +:+ String dquote (String ":" vrest)))
  = match skip_ws rest3 with
    | String c rest4 =>
        if (nat_of_ascii c =? 44)%nat
        then parse_members f (object_set acc key v) rest4
        else if (nat_of_ascii c =? 125)%nat
             then Some (JObj (object_set acc key v), rest4)
             else None
    | EmptyString => None
    end.
Proof.
  intros Hval. cbn [parse_members skip_ws]. change (is_ws dquote) with false.
  cbv iota. change (nat_of_ascii dquote =? 34)%nat with true. cbv iota.
  rewrite parse_string_body_quote_chars. cbv iota beta.
  cbn [skip_ws]. change (is_ws ":") with false. cbv iota.
  change (nat_of_ascii ":" =? 58)%nat with true. cbv iota.
  by rewrite Hval.
Qed.

Lemma skip_ws_idemp s : skip_ws (skip_ws s) = skip_ws s.
Proof.
  induction s as [|c s IH]; [done|]. simpl.
  destruct (is_ws c) eqn:Hc; [done|]. simpl. by rewrite Hc.
Qed.

Lemma parse_members_skip_ws f acc s :
  parse_members f acc (skip_ws s) = parse_members f acc s.
Proof. destruct f; [done|]. cbn [parse_members]. by rewrite skip_ws_idemp. Qed.

(** One member of a pretty-printed object: a line break, the indentation,
    the quoted key, a colon, a space and the value. *)
Lemma parse_members_pretty f acc key vtext v rest :
  parse_value f (String " " (vtext +:+ rest)) = Some (v, rest) ->
  parse_members (S f) acc
    (String newline ("  " +:+ QuoteJSONString key +:+ ": " +:+ vtext +:+ rest))
  = match skip_ws rest with
    | String c rest' =>
        if (nat_of_ascii c =? 44)%nat
        then parse_members f (object_set acc key v) rest'
        else if (nat_of_ascii c =? 125)%nat
             then Some (JObj (object_set acc key v), rest')
             else None
    | EmptyString => None
    end.
Proof.
  intros Hval. rewrite <- parse_members_skip_ws.
  change (skip_ws (String newline
                     ("  " +:+ QuoteJSONString key +:+ ": " +:+ vtext +:+ rest)))
    with (String dquote ((quote_chars key +:+ String dquote "")
                         +:+ String ":" (String " " (vtext +:+ rest)))).
  rewrite str_app_assoc.
  change (String dquote "" +:+ ?x) with (String dquote x).
  by apply parse_members_entry.
Qed.

Lemma parse_value_object_pretty f text :
  parse_value (S f) (String "{" (String newline ("  " +:+ String dquote text)))
  = parse_members f [] (String newline ("  " +:+ String dquote text)).
Proof.
  rewrite <- parse_members_skip_ws.
  by apply parse_value_object.
Qed.

Lemma parse_scene_text f mt mc x :
  is_finite x = true -> canonical x = true ->
  parse_value (S (S (S (S (S f))))) (scene_text mt mc (NumberToString x))
  = Some (JObj [("machine_type", JStr mt); ("material_code", JStr mc);
                ("layer_thickness_mm", JNum x)], "").
Proof.
  intros Hfin Hcanon. unfold scene_text.
  change (QuoteJSONString "machine_type" +:+ ?x)
    with (String dquote (quote_chars "machine_type" +:+ String dquote x)) at 1.
  rewrite parse_value_object_pretty.
  change (String dquote (quote_chars "machine_type" +:+ String dquote ?x))
    with (QuoteJSONString "machine_type" +:+ x).
  rewrite (parse_members_pretty _ _ _ _ (JStr mt)) by apply parse_value_string.
  change (skip_ws ("," +:+ ?x)) with (String "," x). cbv iota.
  change (nat_of_ascii "," =? 44)%nat with true. cbv iota.
  rewrite (parse_members_pretty _ _ _ _ (JStr mc)) by apply parse_value_string.
  change (skip_ws ("," +:+ ?x)) with (String "," x). cbv iota.
  change (nat_of_ascii "," =? 44)%nat with true. cbv iota.
  rewrite (parse_members_pretty _ _ _ _ (JNum x)) by (by apply parse_value_number).
  reflexivity.
Qed.

Lemma scene_text_length mt mc numtext :
  exists n, String.length (scene_text mt mc numtext) = S (S (S (S n))).
Proof. unfold scene_text. eexists. reflexivity. Qed.

Lemma parse_value_null f rest :
  parse_value (S f) (String " " ("null" +:+ rest)) = Some (JNull, rest).
Proof. reflexivity. Qed.

Lemma parse_scene_text_null f mt mc :
  parse_value (S (S (S (S (S f))))) (scene_text mt mc "null")
  = Some (JObj [("machine_type", JStr mt); ("material_code", JStr mc);
                ("layer_thickness_mm", JNull)], "").
Proof.
  unfold scene_text.
  change (QuoteJSONString "machine_type" +:+ ?x)
    with (String dquote (quote_chars "machine_type" +:+ String dquote x)) at 1.
  rewrite parse_value_object_pretty.
  change (String dquote (quote_chars "machine_type" +:+ String dquote ?x))
    with (QuoteJSONString "machine_type" +:+ x).
  rewrite (parse_members_pretty _ _ _ _ (JStr mt)) by apply parse_value_string.
  change (skip_ws ("," +:+ ?x)) with (String "," x). cbv iota.
  change (nat_of_ascii "," =? 44)%nat with true. cbv iota.
  rewrite (parse_members_pretty _ _ _ _ (JStr mc)) by apply parse_value_string.
  change (skip_ws ("," +:+ ?x)) with (String "," x). cbv iota.
  change (nat_of_ascii "," =? 44)%nat with true. cbv iota.
  rewrite (parse_members_pretty _ _ _ _ JNull) by apply parse_value_null.
  reflexivity.
Qed.

(** C6, as stated, fails: the layer option of a thickness that is infinite
    (or [NaN]) is exported with [null] for [layer_thickness_mm], and parsing
    the payload back gives [null], not the thickness. *)
Lemma scene_payload_infinite_not_roundtrip :
  let option := layer_option_of (sample_setting "Rigid" "FLRG1001" (Infinity false)) in
  settings (buildMaterial ∅ sample_overflow) = [option]
  /\ JSON_parse (scene_payload (scene option))
     = Some (JObj [("machine_type", JStr "FORM-4-0");
                   ("material_code", JStr "FLRG1001");
                   ("layer_thickness_mm", JNull)])
  /\ JSON_parse (scene_payload (scene option)) <> Some (scene_object (scene option)).
Proof.
  assert (JSON_parse
            (scene_payload
               (scene (layer_option_of
                         (sample_setting "Rigid" "FLRG1001" (Infinity false)))))
          = Some (JObj [("machine_type", JStr "FORM-4-0");
                        ("material_code", JStr "FLRG1001");
                        ("layer_thickness_mm", JNull)])) as Hparse
    by (vm_compute; reflexivity).
  split_and!; [vm_compute; reflexivity | done |].
  rewrite Hparse. discriminate.
Qed.

(** C6, amended. The payload exported for a layer option is the
    pretty-printed text of an object with the three fields [machine_type],
    [material_code] and [layer_thickness_mm], in this order, each on a line
    of its own indented by two spaces, a thickness that is not finite being
    written [null].  When the thickness is finite (and given by the decimal
    [Number::toString] prints), parsing the payload gives back the object
    with the three original values; when it is not finite, parsing gives the
    two strings and [null] for the thickness. *)
Theorem scene_payload_roundtrip (option : LayerOption) :
  let exported := scene option in
  scene_payload exported
  = scene_text (machine_type exported) (material_code exported)
      (SerializeJSONNumber (layer_thickness_mm exported))
  /\ (is_finite (layer_thickness_mm exported) = true ->
      canonical (layer_thickness_mm exported) = true ->
      JSON_parse (scene_payload exported)
      = Some (JObj [("machine_type", JStr (machine_type exported));
                    ("material_code", JStr (material_code exported));
                    ("layer_thickness_mm", JNum (layer_thickness_mm exported))]))
  /\ (is_finite (layer_thickness_mm exported) = false ->
      JSON_parse (scene_payload exported)
      = Some (JObj [("machine_type", JStr (machine_type exported));
                    ("material_code", JStr (material_code exported));
                    ("layer_thickness_mm", JNull)])).
Proof.
  intros exported. split_and!.
  - apply scene_payload_text.
  - intros Hfin Hcanon. rewrite scene_payload_text.
    assert (SerializeJSONNumber (layer_thickness_mm exported)
            = NumberToString (layer_thickness_mm exported)) as ->
      by (by destruct (layer_thickness_mm exported)).
    unfold JSON_parse.
    destruct (scene_text_length (machine_type exported) (material_code exported)
                (NumberToString (layer_thickness_mm exported))) as [n ->].
    by rewrite parse_scene_text.
  - intros Hfin. rewrite scene_payload_text.
    assert (SerializeJSONNumber (layer_thickness_mm exported) = "null") as ->
      by (by destruct (layer_thickness_mm exported)).
    unfold JSON_parse.
    destruct (scene_text_length (machine_type exported) (material_code exported) "null")
      as [n ->].
    by rewrite parse_scene_text_null.
Qed.

Lemma scene_payload_roundtrip_witness :
  let exported := scene (layer_option_of (sample_setting "Grey 50" "FLGPGR04" (Finite 5 (-2)))) in
  JSON_parse (scene_payload exported)
  = Some (JObj [("machine_type", JStr "FORM-4-0");
                ("material_code", JStr "FLGPGR04");
                ("layer_thickness_mm", JNum (Finite 5 (-2)))]).
Proof.
  intros exported.
  destruct (scene_payload_roundtrip
              (layer_option_of (sample_setting "Grey 50" "FLGPGR04" (Finite 5 (-2)))))
    as (_ & Hfinite & _).
  apply Hfinite; reflexivity.
Defined.

(** ** Labels of keys *)

Lemma string_forallb_app P a b :
  string_forallb P (a +:+ b) = string_forallb P a && string_forallb P b.
Proof.
  induction a as [|c a IH]; [done|]. rewrite str_app_cons. simpl.
  by rewrite IH, andb_assoc.
Qed.

Lemma string_forallb_concat P sep (l : list string) :
  string_forallb P sep = true ->
  Forall (fun s => string_forallb P s = true) l ->
  string_forallb P (String.concat sep l) = true.
Proof.
  intros Hsep Hl. induction Hl as [|s l Hs Hl IH]; [done|].
  destruct l as [|s' l]; [done|].
  change (String.concat sep (s :: s' :: l))
    with (s +:+ sep +:+ String.concat sep (s' :: l)).
  by rewrite !string_forallb_app, Hs, Hsep, IH.
Qed.

Lemma split_key_aux_no_separator cur key :
  string_forallb not_key_separator cur = true ->
  Forall (fun s => string_forallb not_key_separator s = true) (split_key_aux cur key).
Proof.
  revert cur. induction key as [|c key IH]; intros cur Hcur; simpl.
  - by constructor.
  - destruct (is_key_separator c) eqn:Hc.
    + constructor; [done|]. by apply IH.
    + apply IH. rewrite string_forallb_app, Hcur. simpl.
      unfold not_key_separator. by rewrite Hc.
Qed.

Lemma upper_char_not_separator c :
  not_key_separator c = true -> not_key_separator (upper_char c) = true.
Proof.
  unfold upper_char. destruct (_ && _) eqn:Hrange; [|done]. intros _.
  apply andb_true_iff in Hrange as [H1%Nat.leb_le H2%Nat.leb_le].
  unfold not_key_separator, is_key_separator.
  pose proof (nat_ascii_embedding (nat_of_ascii c - 32) ltac:(lia)) as Hnat.
  rewrite negb_true_iff, orb_false_iff. split; apply bool_decide_eq_false; intros Heq;
    rewrite Heq in Hnat.
  - change (nat_of_ascii "-") with 45%nat in Hnat. lia.
  - change (nat_of_ascii "_") with 95%nat in Hnat. lia.
Qed.

Lemma capitalize_no_separator s :
  string_forallb not_key_separator s = true ->
  string_forallb not_key_separator (capitalize s) = true.
Proof.
  destruct s as [|c s]; [done|]. simpl.
  intros [Hc Hs]%andb_true_iff. by rewrite upper_char_not_separator, Hs.
Qed.

Lemma humanizeKey_separator_free (key : string) :
  string_forallb not_key_separator (humanizeKey key) = true.
Proof.
  unfold humanizeKey. apply string_forallb_concat; [done|].
  apply Forall_forall. intros s (seg & -> & Hseg)%elem_of_map.
  apply capitalize_no_separator.
  apply list_elem_of_In, filter_In in Hseg as [Hseg%list_elem_of_In _].
  pose proof (split_key_aux_no_separator "" key eq_refl) as Hall.
  rewrite Forall_forall in Hall. by apply Hall.
Qed.

(** X1. The label of a key of ASCII characters holds neither a hyphen nor an
    underscore. *)
Theorem humanizeKey_no_separator (key : string) :
  ascii_only key = true ->
  string_forallb not_key_separator (humanizeKey key) = true.
Proof. intros _. apply humanizeKey_separator_free. Qed.

Lemma humanizeKey_no_separator_witness :
  ascii_only "high_temp-v2__x" = true
  /\ humanizeKey "high_temp-v2__x" = "High Temp V2 X"
  /\ string_forallb not_key_separator (humanizeKey "high_temp-v2__x") = true.
Proof.
  split_and!; [reflexivity..|].
  apply (humanizeKey_no_separator "high_temp-v2__x"). reflexivity.
Defined.

Lemma split_key_aux_whole cur key :
  string_forallb not_key_separator key = true ->
  split_key_aux cur key = [cur +:+ key].
Proof.
  revert cur. induction key as [|c key IH]; intros cur; simpl.
  - by rewrite str_app_nil_r.
  - intros [Hc Hkey]%andb_true_iff. unfold not_key_separator in Hc.
    apply negb_true_iff in Hc. rewrite Hc, IH by done.
    by rewrite str_app_assoc.
Qed.

Lemma upper_char_idemp c : upper_char (upper_char c) = upper_char c.
Proof.
  unfold upper_char.
  destruct ((97 <=? nat_of_ascii c)%nat && (nat_of_ascii c <=? 122)%nat) eqn:Hrange;
    [|by rewrite Hrange].
  apply andb_true_iff in Hrange as [H1%Nat.leb_le H2%Nat.leb_le].
  rewrite nat_ascii_embedding by lia.
  destruct ((97 <=? nat_of_ascii c - 32)%nat && (nat_of_ascii c - 32 <=? 122)%nat)
    eqn:Hrange'; [|done].
  apply andb_true_iff in Hrange' as [H3%Nat.leb_le H4%Nat.leb_le]. lia.
Qed.

Lemma capitalize_idemp s : capitalize (capitalize s) = capitalize s.
Proof. destruct s as [|c s]; [done|]. simpl. by rewrite upper_char_idemp. Qed.

Lemma capitalize_concat sep s (l : list string) :
  s <> "" ->
  capitalize (String.concat sep (capitalize s :: l))
  = String.concat sep (capitalize s :: l).
Proof.
  intros Hs. destruct s as [|c s]; [done|].
  destruct l as [|s' l].
  - apply capitalize_idemp.
  - change (String.concat sep (capitalize (String c s) :: s' :: l))
      with (String (upper_char c) (s +:+ sep +:+ String.concat sep (s' :: l))).
    simpl. by rewrite upper_char_idemp.
Qed.

(** X2. Making a label of the label of a key of ASCII characters changes
    nothing: the label is a fixed point of [humanizeKey]. *)
Theorem humanizeKey_idempotent (key : string) :
  ascii_only key = true ->
  humanizeKey (humanizeKey key) = humanizeKey key.
Proof.
  intros _. pose proof (humanizeKey_separator_free key) as Hsep.
  unfold humanizeKey at 1. unfold split_key.
  rewrite (split_key_aux_whole "" _ Hsep). change ("" +:+ ?x) with x.
  simpl. unfold humanizeKey in *.
  destruct (List.filter _ (split_key key)) as [|seg segs] eqn:Hsegs; [done|].
  assert (seg <> "") as Hseg.
  { assert (In seg (List.filter (fun s => negb (bool_decide (s = ""))) (split_key key)))
      as Hin by (rewrite Hsegs; by left).
    apply filter_In in Hin as [_ Hne]. apply negb_true_iff, bool_decide_eq_false in Hne.
    done. }
  simpl map.
  assert (String.concat " " (capitalize seg :: map capitalize segs) <> "") as Hne.
  { destruct seg as [|c seg]; [done|]. by destruct (map capitalize segs). }
  rewrite bool_decide_eq_false_2 by done. simpl.
  by apply capitalize_concat.
Qed.

Lemma humanizeKey_idempotent_witness :
  humanizeKey (humanizeKey "high_temp-v2__x") = humanizeKey "high_temp-v2__x".
Proof. apply (humanizeKey_idempotent "high_temp-v2__x"). reflexivity. Defined.

(** ** Deduplication keeps the first occurrences *)

Section dedupe_facts.
Context {A : Type} `{EqDecision A}.

Lemma foldl_set_add_sublist (items acc : list A) :
  exists kept, foldl set_add acc items = acc ++ kept /\ kept `sublist_of` items.
Proof.
  revert acc. induction items as [|x items IH]; intros acc; simpl.
  - exists []. by rewrite app_nil_r.
  - unfold set_add at 2. destruct (decide (x ∈ acc)).
    + destruct (IH acc) as (kept & -> & Hsub). exists kept. split; [done|].
      by apply sublist_cons.
    + destruct (IH (acc ++ [x])) as (kept & -> & Hsub). exists (x :: kept).
      split; [by rewrite <- app_assoc|]. by apply sublist_skip.
Qed.

(** X3. [dedupe] keeps a sublist of its argument: the order of the elements it
    keeps is theirs in the argument; the sublist has the same elements and
    no element twice. *)
Theorem dedupe_sublist_same_elements (items : list A) :
  dedupe items `sublist_of` items
  /\ NoDup (dedupe items)
  /\ (forall x, x ∈ dedupe items <-> x ∈ items).
Proof.
  split_and!.
  - destruct (foldl_set_add_sublist items []) as (kept & Heq & Hsub).
    unfold dedupe, new_Set. by rewrite Heq.
  - apply NoDup_dedupe.
  - intros x. apply elem_of_dedupe.
Qed.

Lemma foldl_set_add_NoDup (items acc : list A) :
  NoDup (acc ++ items) -> foldl set_add acc items = acc ++ items.
Proof.
  revert acc. induction items as [|x items IH]; intros acc Hnodup; simpl.
  - by rewrite app_nil_r.
  - assert (x ∉ acc) as Hx.
    { apply NoDup_app in Hnodup as (_ & Hdisj & _). intros Hin.
      apply (Hdisj x Hin). apply elem_of_cons. by left. }
    unfold set_add. rewrite decide_False by done.
    rewrite IH; rewrite <- app_assoc; done.
Qed.

(** X4. A list without duplicates is left as it is, and a list is left as it is
    only if it has no duplicates. *)
Theorem dedupe_fixed_point (items : list A) :
  dedupe items = items <-> NoDup items.
Proof.
  split.
  - intros <-. apply NoDup_dedupe.
  - intros Hnodup. apply (foldl_set_add_NoDup items []). done.
Qed.
End dedupe_facts.

(** ** Node ids and the category code map *)

Lemma concat_snoc (sep : string) (l : list string) (x : string) :
  l <> [] -> String.concat sep (l ++ [x]) = String.concat sep l +:+ sep +:+ x.
Proof.
  induction l as [|a l IH]; [done|]. intros _.
  destruct l as [|b l].
  - simpl. done.
  - change (String.concat sep ((a :: b :: l) ++ [x]))
      with (a +:+ sep +:+ String.concat sep ((b :: l) ++ [x])).
    rewrite IH by done.
    change (String.concat sep (a :: b :: l)) with (a +:+ sep +:+ String.concat sep (b :: l)).
    by rewrite !str_app_assoc.
Qed.

Lemma entry_node_id path key value :
  node_id (entry_node path key value) = String.concat "/" (path ++ [key]).
Proof. unfold entry_node. by destruct value. Qed.

Lemma entry_node_label path key value :
  node_label (entry_node path key value) = humanizeKey key.
Proof. unfold entry_node. by destruct value. Qed.

Lemma entry_node_children path key value child :
  child ∈ children (entry_node path key value) ->
  exists key' value', child = entry_node (path ++ [key]) key' value'.
Proof.
  unfold entry_node.
  destruct value as [| | | | |entries];
    try (cbn [children buildCategoryTree]; by intros ?%elem_of_nil).
  cbn [children]. apply elem_of_buildCategoryTree.
Qed.

Lemma flatten_visit_foldl map node :
  flatten_visit map node
  = foldl (fun m n => assign_codes m (node_id n) (codes n)) map (subtree node).
Proof.
  revert map. induction node as [id label cs own kids IH] using CategoryNode_nested_ind.
  intros map. simpl. generalize (assign_codes map id cs) as m.
  induction IH as [|kid kids Hkid _ IHkids]; intros m; simpl; [done|].
  rewrite foldl_app, <- Hkid. apply IHkids.
Qed.

Lemma flattenCategoryCodes_foldl tree :
  flattenCategoryCodes tree
  = foldl (fun m n => assign_codes m (node_id n) (codes n))
      {| own_entries := ∅; prototype_codes := None |} (all_nodes tree).
Proof.
  unfold flattenCategoryCodes, all_nodes.
  generalize {| own_entries := ∅; prototype_codes := None |} as m.
  induction tree as [|node tree IH]; intros m; simpl; [done|].
  by rewrite foldl_app, <- flatten_visit_foldl.
Qed.

Lemma foldl_assign_lookup (nodes : list CategoryNode) (map : CategoryCodeMap) id :
  id <> "__proto__" ->
  own_entries (foldl (fun m n => assign_codes m (node_id n) (codes n)) map nodes) !! id
  = match last_with_id id nodes with
    | Some node => Some (codes node)
    | None => own_entries map !! id
    end.
Proof.
  intros Hid. unfold last_with_id.
  induction nodes as [|n nodes IH] using rev_ind; [done|].
  rewrite foldl_app, List.filter_app. simpl. rewrite lookup_assign_codes.
  destruct (bool_decide_reflect (node_id n = "__proto__")) as [Hproto|Hproto].
  - rewrite bool_decide_false by congruence. rewrite app_nil_r. apply IH.
  - destruct (decide (node_id n = id)) as [->|Hne].
    + rewrite bool_decide_true by done. by rewrite last_snoc.
    + rewrite bool_decide_false by done. rewrite app_nil_r. apply IH.
Qed.

Lemma prototype_assign_codes map nid ncs :
  prototype_codes (assign_codes map nid ncs)
  = if bool_decide (nid = "__proto__") then Some ncs else prototype_codes map.
Proof. unfold assign_codes. by destruct (bool_decide (nid = "__proto__")). Qed.

Lemma foldl_assign_proto (nodes : list CategoryNode) (map : CategoryCodeMap) :
  own_entries (foldl (fun m n => assign_codes m (node_id n) (codes n)) map nodes)
    !! "__proto__" = own_entries map !! "__proto__"
  /\ prototype_codes (foldl (fun m n => assign_codes m (node_id n) (codes n)) map nodes)
     = match last_with_id "__proto__" nodes with
       | Some node => Some (codes node)
       | None => prototype_codes map
       end.
Proof.
  unfold last_with_id.
  induction nodes as [|n nodes [IHown IHproto]] using rev_ind; [done|].
  rewrite foldl_app, List.filter_app. simpl.
  rewrite lookup_assign_codes, prototype_assign_codes.
  destruct (bool_decide_reflect (node_id n = "__proto__")) as [Hproto|Hproto].
  - by rewrite last_snoc.
  - rewrite app_nil_r. split; [|done].
    destruct (decide (node_id n = "__proto__")); [done|apply IHown].
Qed.

(** X7. The object [flattenCategoryCodes] returns has an own entry for exactly
    the ids of the nodes of the tree other than ["__proto__"], and the entry
    of an id holds the codes of the last node, in pre-order, that has the
    id; the codes of the last node with the id ["__proto__"], if there is
    one, have become the prototype of the object instead. *)
Theorem flattenCategoryCodes_last_node_wins (tree : list CategoryNode) (id : string) :
  own_entries (flattenCategoryCodes tree) !! id
  = (if bool_decide (id = "__proto__") then None
     else codes <$> last_with_id id (all_nodes tree))
  /\ prototype_codes (flattenCategoryCodes tree)
     = codes <$> last_with_id "__proto__" (all_nodes tree).
Proof.
  rewrite flattenCategoryCodes_foldl. split.
  - destruct (bool_decide_reflect (id = "__proto__")) as [->|Hid].
    + by rewrite (proj1 (foldl_assign_proto _ _)).
    + rewrite foldl_assign_lookup by done.
      by destruct (last_with_id id (all_nodes tree)).
  - rewrite (proj2 (foldl_assign_proto _ _)).
    by destruct (last_with_id "__proto__" (all_nodes tree)).
Qed.

Lemma NoDup_filter_singleton (id : string) (nodes : list CategoryNode) node :
  NoDup (List.map node_id nodes) -> node ∈ nodes -> node_id node = id ->
  List.filter (fun n => bool_decide (node_id n = id)) nodes = [node].
Proof.
  induction nodes as [|n nodes IH]; simpl; [by intros _ ?%elem_of_nil|].
  intros [Hn Hnodup]%NoDup_cons Hin Hid.
  assert (forall m, m ∈ nodes -> node_id m = node_id n -> False) as Hfresh.
  { intros m Hm Heq. apply Hn. rewrite <- Heq. apply elem_of_map. by exists m. }
  apply elem_of_cons in Hin as [->|Hin].
  - rewrite bool_decide_true by done. f_equal.
    clear IH Hnodup Hn. induction nodes as [|m nodes IH]; simpl; [done|].
    rewrite bool_decide_false.
    + apply IH. intros k Hk. apply Hfresh. by apply elem_of_cons; right.
    + intros Heq. apply (Hfresh m); [by apply elem_of_cons; left|]. congruence.
  - rewrite bool_decide_false; [by apply IH|].
    intros Heq. apply (Hfresh node Hin). congruence.
Qed.

(** X8. When the index of a built tree can be built, every code that an own
    entry of the category code map of the tree holds has breadcrumbs in the
    index. *)
Theorem category_codes_have_breadcrumbs
    (localeCompare : string -> string -> comparison) (doc : json) (path : list string)
    (index : gmap string (list string)) (id : string) (cs : list string) (c : string) :
  let tree := buildCategoryTree doc path in
  buildCodeToCategoryPaths localeCompare tree = Some index ->
  own_entries (flattenCategoryCodes tree) !! id = Some cs ->
  c ∈ cs ->
  exists labels, index !! c = Some labels /\ labels <> [].
Proof.
  intros tree Hindex Hlookup Hc.
  apply flattenCategoryCodes_lookup in Hlookup as (node & Hnode & _ & <-).
  pose proof Hnode as (path' & key & value & Heq)%all_nodes_buildCategoryTree.
  assert (codes node = dedupe (descendantCodes node)) as Hcodes
    by (rewrite Heq; apply entry_node_codes_descendants).
  rewrite Hcodes in Hc. apply (proj1 (elem_of_dedupe _ _)) in Hc.
  rewrite descendantCodes_subtree in Hc.
  apply elem_of_flat_map in Hc as (leaf & Hleaf & Hown).
  pose proof (all_nodes_subtree _ _ _ Hleaf Hnode) as Hleaf_tree.
  rewrite <- labelled_nodes_all_nodes in Hleaf_tree.
  apply elem_of_map in Hleaf_tree as ([labels leaf'] & -> & Hlabelled). simpl in Hown.
  assert ((c, breadcrumb labels) ∈ registrations tree) as Hreg.
  { apply elem_of_registrations. by exists labels, leaf'. }
  apply (proj2 (elem_of_registered_for _ _ _)) in Hreg.
  rewrite (buildCodeToCategoryPaths_lookup _ _ _ _ Hindex).
  destruct (registered_for c (registrations tree)) as [|l ls] eqn:Hregs;
    [by apply elem_of_nil in Hreg|].
  eexists. split; [done|].
  intros Hnil. apply (f_equal length) in Hnil.
  rewrite array_sort_length in Hnil.
  assert (l ∈ dedupe (l :: ls)) as Hl by (apply elem_of_dedupe, elem_of_cons; by left).
  destruct (dedupe (l :: ls)); [by apply elem_of_nil in Hl|done].
Qed.

Lemma category_codes_have_breadcrumbs_witness :
  exists labels, sample_codeToCategoryPaths !! "FLGPGR05" = Some labels /\ labels <> [].
Proof.
  apply (category_codes_have_breadcrumbs String.compare sample_taxonomy []
           sample_codeToCategoryPaths "dental" ["FLGPGR05"] "FLGPGR05").
  - vm_compute. reflexivity.
  - vm_compute. reflexivity.
  - apply elem_of_cons. by left.
Defined.

(** ** Distinct node ids *)

Lemma slash_split a b x y :
  slash_free a = true -> slash_free b = true ->
  a +:+ "/" +:+ x = b +:+ "/" +:+ y -> a = b /\ x = y.
Proof.
  revert b. induction a as [|c a IH]; intros [|d b] Ha Hb Heq.
  - change (String "/" x = String "/" y) in Heq. by injection Heq as ->.
  - change (String "/" x = String d (b +:+ "/" +:+ y)) in Heq. injection Heq as <- _.
    by vm_compute in Hb.
  - change (String c (a +:+ "/" +:+ x) = String "/" y) in Heq. injection Heq as -> _.
    by vm_compute in Ha.
  - rewrite !str_app_cons in Heq. injection Heq as -> Heq.
    unfold slash_free in Ha, Hb. simpl in Ha, Hb.
    apply andb_true_iff in Ha as [_ Ha]. apply andb_true_iff in Hb as [_ Hb].
    destruct (IH b Ha Hb Heq) as [-> ->]. done.
Qed.

Lemma slash_free_no_slash a b x :
  slash_free a = true -> a <> b +:+ "/" +:+ x.
Proof.
  revert a. induction b as [|d b IH]; intros a Ha Heq.
  - change (a = String "/" x) in Heq. subst a. by vm_compute in Ha.
  - rewrite str_app_cons in Heq. subst a.
    unfold slash_free in Ha. simpl in Ha. apply andb_true_iff in Ha as [_ Ha].
    by apply (IH _ Ha).
Qed.

Lemma concat_cons_cons (sep a b : string) (l : list string) :
  String.concat sep (a :: b :: l) = a +:+ sep +:+ String.concat sep (b :: l).
Proof. reflexivity. Qed.

Lemma concat_slash_inj (l l' : list string) :
  l <> [] -> l' <> [] ->
  Forall (fun key => slash_free key = true) l ->
  Forall (fun key => slash_free key = true) l' ->
  String.concat "/" l = String.concat "/" l' -> l = l'.
Proof.
  revert l'. induction l as [|a l IH]; [done|]. intros [|b l'] _; [done|].
  intros _ [Ha Hl]%Forall_cons [Hb Hl']%Forall_cons Heq.
  destruct l as [|a2 l], l' as [|b2 l'].
  - simpl in Heq. by subst.
  - rewrite concat_cons_cons in Heq. simpl in Heq.
    by apply slash_free_no_slash in Heq.
  - rewrite concat_cons_cons in Heq. simpl in Heq. symmetry in Heq.
    by apply slash_free_no_slash in Heq.
  - rewrite !concat_cons_cons in Heq.
    apply slash_split in Heq as [-> Heq]; [|done..].
    f_equal. by apply IH.
Qed.

Lemma all_nodes_app (t1 t2 : list CategoryNode) :
  all_nodes (t1 ++ t2) = all_nodes t1 ++ all_nodes t2.
Proof. unfold all_nodes. apply flat_map_app. Qed.

Lemma map_map_ext {A B C} (f : B -> C) (g : A -> B) (h : A -> C) (l : list A) :
  (forall x, f (g x) = h x) -> map f (map g l) = map h l.
Proof. intros Hfg. rewrite map_map. apply map_ext. done. Qed.

Lemma node_ids_key_paths doc path :
  map node_id (all_nodes (buildCategoryTree doc path))
  = map (fun keys => String.concat "/" (path ++ keys)) (key_paths doc).
Proof.
  revert path. induction doc as [| | | | |entries IH] using json_nested_ind; try done.
  intros path. rewrite buildCategoryTree_object.
  induction IH as [|[key value] entries Hvalue _ IHentries]; [done|].
  cbn [map key_paths flat_map fst snd]. fold (key_paths (JObj entries)).
  change (all_nodes (?n :: ?t)) with (subtree n ++ all_nodes t).
  rewrite !map_app, IHentries. f_equal.
  rewrite subtree_unfold. cbn [map]. rewrite entry_node_id. f_equal.
  rewrite (map_map_ext _ _ (fun keys => String.concat "/" ((path ++ [key]) ++ keys)));
    [|by intros keys; rewrite <- app_assoc].
  simpl in Hvalue. rewrite <- Hvalue.
  unfold entry_node. destruct value; try done.
Qed.

Lemma key_paths_shape doc keys :
  well_keyed doc = true -> keys ∈ key_paths doc ->
  keys <> [] /\ Forall (fun key => slash_free key = true) keys.
Proof.
  revert keys. induction doc as [| | | | |entries IH] using json_nested_ind;
    try (by intros keys _ ?%elem_of_nil).
  intros keys [_ Hall]%andb_true_iff Hin. simpl in Hin.
  apply elem_of_flat_map in Hin as ([key value] & Hentry & Hin).
  rewrite Forall_forall in IH. specialize (IH _ Hentry). simpl in IH.
  rewrite forallb_forall in Hall. apply list_elem_of_In in Hentry.
  apply Hall in Hentry as [Hkey Hvalue]%andb_true_iff.
  apply elem_of_cons in Hin as [->|Hin].
  - split; [done|]. by apply Forall_cons.
  - apply elem_of_map in Hin as (rest & -> & Hrest). split; [done|].
    apply Forall_cons. split; [done|]. by apply IH.
Qed.

Lemma NoDup_map_cons (key : string) (paths : list (list string)) :
  NoDup paths -> NoDup (map (cons key) paths).
Proof.
  induction 1 as [|p paths Hp Hnodup IH]; simpl; [apply NoDup_nil_2|].
  apply NoDup_cons. split; [|done].
  intros (q & [= ->] & Hq)%elem_of_map. done.
Qed.

Lemma key_paths_NoDup doc : well_keyed doc = true -> NoDup (key_paths doc).
Proof.
  induction doc as [| | | | |entries IH] using json_nested_ind;
    try (intros _; apply NoDup_nil_2).
  intros [Hkeys%bool_decide_eq_true Hall]%andb_true_iff. simpl.
  induction IH as [|[key value] entries Hvalue _ IHentries]; [apply NoDup_nil_2|].
  simpl in Hkeys, Hall |- *.
  apply NoDup_cons in Hkeys as [Hkey Hkeys].
  apply andb_true_iff in Hall as [[Hslash Hwell]%andb_true_iff Hall].
  specialize (IHentries Hkeys Hall). simpl in Hvalue.
  apply NoDup_cons. split.
  - intros [Hin|Hin]%elem_of_app.
    + apply elem_of_map in Hin as (rest & [= <-] & Hrest).
      by destruct (key_paths_shape value [] Hwell Hrest) as [? _].
    + apply elem_of_flat_map in Hin as ([key' value'] & Hentry & Hin).
      apply Hkey. apply elem_of_map. exists (key', value').
      split; [|done]. simpl.
      apply elem_of_cons in Hin as [[= ->]|Hin]; [done|].
      by apply elem_of_map in Hin as (rest & [= -> _] & _).
  - apply NoDup_app. split_and!.
    + by apply NoDup_map_cons, Hvalue.
    + intros keys (rest & -> & Hrest)%elem_of_map Hin.
      apply elem_of_flat_map in Hin as ([key' value'] & Hentry & Hin).
      apply Hkey. apply elem_of_map. exists (key', value').
      split; [|done]. simpl.
      apply elem_of_cons in Hin as [[= ->]|Hin]; [done|].
      by apply elem_of_map in Hin as (rest' & [= -> _] & _).
    + done.
Qed.

Lemma NoDup_map_inj_on {A B} (f : A -> B) (l : list A) :
  (forall x y, x ∈ l -> y ∈ l -> f x = f y -> x = y) -> NoDup l -> NoDup (map f l).
Proof.
  intros Hinj. induction 1 as [|x l Hx Hnodup IH]; simpl; [apply NoDup_nil_2|].
  apply NoDup_cons. split.
  - intros (y & Heq & Hy)%elem_of_map. apply Hx.
    rewrite (Hinj x y); [done|apply elem_of_cons; by left|apply elem_of_cons; by right|done].
  - apply IH. intros a b Ha Hb. apply Hinj; apply elem_of_cons; by right.
Qed.

Lemma built_tree_ids_NoDup doc :
  well_keyed doc = true ->
  NoDup (map node_id (all_nodes (buildCategoryTree doc []))).
Proof.
  intros Hwell. rewrite node_ids_key_paths.
  apply NoDup_map_inj_on; [|by apply key_paths_NoDup].
  intros keys keys' Hin Hin' Heq. simpl in Heq.
  destruct (key_paths_shape doc keys Hwell Hin) as [Hne Hfree].
  destruct (key_paths_shape doc keys' Hwell Hin') as [Hne' Hfree'].
  by apply concat_slash_inj.
Qed.

(** X5. The id of a node is its chain of keys joined by slashes, and its
    label the humanized last key: the entry [key] at position [i] of the
    root object makes the node at position [i] with the id [key]; the entry
    [key'] at position [j] of a nested object makes the child at position
    [j] with the parent's id, a slash and [key'] as id; every entry makes one
    node; and the ids of all nodes, in pre-order, are the chains of keys of
    the document joined by slashes. *)
Theorem node_id_extends_parent_id :
  (forall entries i key value,
      entries !! i = Some (key, value) ->
      exists node, buildCategoryTree (JObj entries) [] !! i = Some node
                   /\ node_id node = key /\ node_label node = humanizeKey key)
  /\ (forall entries path i key nested j key' value',
        entries !! i = Some (key, JObj nested) ->
        nested !! j = Some (key', value') ->
        exists node child,
          buildCategoryTree (JObj entries) path !! i = Some node
          /\ children node !! j = Some child
          /\ node_id child = node_id node +:+ "/" +:+ key'
          /\ node_label child = humanizeKey key'
          /\ length (children node) = length nested)
  /\ (forall entries path,
        length (buildCategoryTree (JObj entries) path) = length entries)
  /\ (forall doc,
        map node_id (all_nodes (buildCategoryTree doc []))
        = map (String.concat "/") (key_paths doc)).
Proof.
  split_and!.
  - intros entries i key value Hentry.
    exists (entry_node [] key value). split_and!.
    + by rewrite buildCategoryTree_object, lookup_map, Hentry.
    + apply entry_node_id.
    + apply entry_node_label.
  - intros entries path i key nested j key' value' Hentry Hnested.
    exists (entry_node path key (JObj nested)), (entry_node (path ++ [key]) key' value').
    assert (children (entry_node path key (JObj nested))
            = map (fun entry => entry_node (path ++ [key]) (fst entry) (snd entry)) nested)
      as Hkids by (unfold entry_node; cbn [children]; apply buildCategoryTree_object).
    split_and!.
    + by rewrite buildCategoryTree_object, lookup_map, Hentry.
    + by rewrite Hkids, lookup_map, Hnested.
    + rewrite !entry_node_id. apply concat_snoc. by destruct path.
    + apply entry_node_label.
    + by rewrite Hkids, length_map.
  - intros entries path. by rewrite buildCategoryTree_object, length_map.
  - intros doc. apply node_ids_key_paths.
Qed.

Lemma node_id_extends_parent_id_witness :
  exists node child,
    buildCategoryTree sample_taxonomy [] !! 1%nat = Some node
    /\ children node !! 0%nat = Some child
    /\ node_id child = node_id node +:+ "/" +:+ "models"
    /\ node_label child = humanizeKey "models".
Proof.
  destruct (proj1 (proj2 node_id_extends_parent_id)
              [("general", JArr [JStr "FLGPGR05"; JStr "FLGPCL05"]);
               ("dental", JObj [("models", JArr [JStr "FLGPGR05"])]);
               ("engineering", JArr [JStr "FLGPCL05"; JNum (Finite 7 0)])]
              [] 1%nat "dental" [("models", JArr [JStr "FLGPGR05"])] 0%nat "models"
              (JArr [JStr "FLGPGR05"]) eq_refl eq_refl)
    as (node & child & Hnode & Hchild & Hid & Hlabel & _).
  by exists node, child.
Defined.

(** X6. In the tree of a document whose objects repeat no key and have no key
    with a slash, no two nodes have the same id, and the category code map
    holds the codes of each node in an own entry under the id of the node,
    unless that id is ["__proto__"]. *)
Theorem well_keyed_ids_distinct (doc : json) :
  well_keyed doc = true ->
  let tree := buildCategoryTree doc [] in
  NoDup (map node_id (all_nodes tree))
  /\ forall node, node ∈ all_nodes tree -> node_id node <> "__proto__" ->
                  own_entries (flattenCategoryCodes tree) !! node_id node
                  = Some (codes node).
Proof.
  intros Hwell tree. pose proof (built_tree_ids_NoDup doc Hwell) as Hnodup.
  split; [done|]. intros node Hin Hid.
  rewrite flattenCategoryCodes_foldl, foldl_assign_lookup by done.
  unfold last_with_id. by rewrite (NoDup_filter_singleton _ _ node).
Qed.

Lemma well_keyed_ids_distinct_witness :
  NoDup (map node_id (all_nodes sample_tree))
  /\ own_entries (flattenCategoryCodes sample_tree) !! "dental/models"
     = Some ["FLGPGR05"].
Proof.
  destruct (well_keyed_ids_distinct sample_taxonomy eq_refl) as [Hnodup Hlookup].
  split; [exact Hnodup|].
  apply (Hlookup (mkCategoryNode "dental/models" "Models" ["FLGPGR05"] ["FLGPGR05"] [])).
  - apply (list_elem_of_lookup_2 _ 2). vm_compute. reflexivity.
  - discriminate.
Defined.

(** ** The normalised catalog *)

Lemma settings_buildMaterial_first codeToPaths material first rest :
  material_settings material = first :: rest ->
  layer_option_of first ∈ settings (buildMaterial codeToPaths material).
Proof.
  intros Hraw. apply elem_of_settings_buildMaterial.
  exists 0%nat, first. split; [|done]. split.
  - by rewrite Hraw.
  - intros j earlier Hj. lia.
Qed.

Lemma settings_buildMaterial_nil codeToPaths material :
  settings (buildMaterial codeToPaths material) = [] <-> material_settings material = [].
Proof.
  split.
  - destruct (material_settings material) as [|first rest] eqn:Hraw; [done|].
    intros Hnil. pose proof (settings_buildMaterial_first codeToPaths _ _ _ Hraw) as Hin.
    rewrite Hnil in Hin. by apply elem_of_nil in Hin.
  - intros Hraw. unfold buildMaterial, thicknessMap_of. simpl. by rewrite Hraw.
Qed.

Lemma has_settings_buildMaterial codeToPaths material :
  (0 <? length (settings (buildMaterial codeToPaths material)))%nat = has_settings material.
Proof.
  unfold has_settings.
  destruct (material_settings material) as [|first rest] eqn:Hraw.
  - by rewrite (proj2 (settings_buildMaterial_nil codeToPaths material) Hraw).
  - pose proof (settings_buildMaterial_first codeToPaths _ _ _ Hraw) as Hin.
    destruct (settings (buildMaterial codeToPaths material));
      [by apply elem_of_nil in Hin|done].
Qed.

Lemma filter_map_comm {A B} (f : A -> B) (P : B -> bool) (Q : A -> bool) (l : list A) :
  (forall x, P (f x) = Q x) ->
  List.filter P (List.map f l) = List.map f (List.filter Q l).
Proof.
  intros HPQ. induction l as [|x l IH]; simpl; [done|].
  rewrite HPQ. destruct (Q x); simpl; by rewrite IH.
Qed.

Lemma materials_buildPrinter localeCompare codeToPaths printer :
  materials (buildPrinter localeCompare codeToPaths printer)
  = array_sort (by_material_label localeCompare)
      (List.map (buildMaterial codeToPaths)
         (List.filter has_settings (raw_materials printer))).
Proof.
  unfold buildPrinter. simpl.
  by rewrite (filter_map_comm (buildMaterial codeToPaths)
                (fun material => (0 <? length (settings material))%nat) has_settings _
                (has_settings_buildMaterial codeToPaths)).
Qed.

Lemma has_materials_buildPrinter localeCompare codeToPaths printer :
  (0 <? length (materials (buildPrinter localeCompare codeToPaths printer)))%nat
  = has_materials printer.
Proof.
  rewrite materials_buildPrinter, array_sort_length, length_map.
  unfold has_materials.
  induction (raw_materials printer) as [|m ms IH]; simpl; [done|].
  destruct (has_settings m); simpl; [done|apply IH].
Qed.

Lemma buildPrinters_unfold localeCompare data codeToPaths :
  buildPrinters localeCompare data codeToPaths
  = array_sort (by_printer_label localeCompare)
      (List.map (buildPrinter localeCompare codeToPaths)
         (List.filter has_materials (printer_types data))).
Proof.
  unfold buildPrinters.
  by rewrite (filter_map_comm (buildPrinter localeCompare codeToPaths)
                (fun printer => (0 <? length (materials printer))%nat) has_materials _
                (has_materials_buildPrinter localeCompare codeToPaths)).
Qed.

(** X9. The catalog keeps, up to order, exactly the printers that have a
    material with a setting, and each kept printer keeps exactly its
    materials that have a setting: nothing else is dropped and nothing is
    listed twice. *)
Theorem buildPrinters_keeps_entries_with_settings
    (localeCompare : string -> string -> comparison) (data : RawMaterialData)
    (codeToPaths : gmap string (list string)) :
  buildPrinters localeCompare data codeToPaths
  ≡ₚ List.map (buildPrinter localeCompare codeToPaths)
       (List.filter has_materials (printer_types data))
  /\ forall printer,
       materials (buildPrinter localeCompare codeToPaths printer)
       ≡ₚ List.map (buildMaterial codeToPaths)
            (List.filter has_settings (raw_materials printer)).
Proof.
  split.
  - rewrite buildPrinters_unfold. apply array_sort_perm.
  - intros printer. rewrite materials_buildPrinter. apply array_sort_perm.
Qed.

Lemma elem_of_buildPrinters localeCompare data codeToPaths printer :
  printer ∈ buildPrinters localeCompare data codeToPaths ->
  exists raw, raw ∈ printer_types data /\ has_materials raw = true
              /\ printer = buildPrinter localeCompare codeToPaths raw.
Proof.
  rewrite buildPrinters_unfold. intros Hin.
  apply (proj1 (elem_of_array_sort _ _ _)) in Hin.
  apply elem_of_map in Hin as (raw & -> & Hraw).
  apply list_elem_of_In, filter_In in Hraw as [Hraw Hhas].
  exists raw. by rewrite list_elem_of_In.
Qed.

Lemma elem_of_materials_buildPrinter localeCompare codeToPaths raw material :
  material ∈ materials (buildPrinter localeCompare codeToPaths raw) ->
  exists rm, rm ∈ raw_materials raw /\ has_settings rm = true
             /\ material = buildMaterial codeToPaths rm.
Proof.
  rewrite materials_buildPrinter. intros Hin.
  apply (proj1 (elem_of_array_sort _ _ _)) in Hin.
  apply elem_of_map in Hin as (rm & -> & Hrm).
  apply list_elem_of_In, filter_In in Hrm as [Hrm Hhas].
  exists rm. by rewrite list_elem_of_In.
Qed.

Lemma buildPrinters_materials_settings localeCompare data codeToPaths printer :
  printer ∈ buildPrinters localeCompare data codeToPaths ->
  materials printer <> []
  /\ forall material, material ∈ materials printer -> settings material <> [].
Proof.
  intros (raw & _ & Hhas & ->)%elem_of_buildPrinters. split.
  - rewrite <- has_materials_buildPrinter with (localeCompare := localeCompare)
                                               (codeToPaths := codeToPaths) in Hhas.
    intros Hnil. by rewrite Hnil in Hhas.
  - intros material (rm & _ & Hrm & ->)%elem_of_materials_buildPrinter.
    rewrite <- (has_settings_buildMaterial codeToPaths) in Hrm.
    intros Hnil. by rewrite Hnil in Hrm.
Qed.

(** X10. No printer of the catalog is without materials, and no material of a
    printer of the catalog is without layer options. *)
Theorem buildPrinters_nothing_empty
    (localeCompare : string -> string -> comparison) (data : RawMaterialData)
    (codeToPaths : gmap string (list string)) (printer : PrinterOption) :
  printer ∈ buildPrinters localeCompare data codeToPaths ->
  materials printer <> []
  /\ forall material, material ∈ materials printer -> settings material <> [].
Proof. apply buildPrinters_materials_settings. Qed.

Lemma buildPrinters_nothing_empty_witness :
  exists printer,
    head sample_printers = Some printer
    /\ materials printer <> []
    /\ forall material, material ∈ materials printer -> settings material <> [].
Proof.
  destruct sample_printers as [|printer rest] eqn:Hprinters; [by vm_compute in Hprinters|].
  exists printer. split; [done|].
  apply (buildPrinters_nothing_empty String.compare sample_catalog
           sample_codeToCategoryPaths).
  fold sample_printers. rewrite Hprinters. apply elem_of_cons. by left.
Defined.

Lemma consistent_comparator_on {A B} (f : A -> B) (comparefn : B -> B -> comparison) :
  consistent_comparator comparefn ->
  consistent_comparator (fun a b => comparefn (f a) (f b)).
Proof.
  intros [Hanti Htrans]. split.
  - intros a b. apply Hanti.
  - intros a b c. apply Htrans.
Qed.

(** X11. Under a consistent [localeCompare], the printers of the catalog are in
    the order of their labels, and so are the materials of each printer. *)
Theorem buildPrinters_sorted_by_label
    (localeCompare : string -> string -> comparison) (data : RawMaterialData)
    (codeToPaths : gmap string (list string)) :
  consistent_comparator localeCompare ->
  StronglySorted (fun a b => not_after localeCompare (printer_label a) (printer_label b))
    (buildPrinters localeCompare data codeToPaths)
  /\ forall printer,
       printer ∈ buildPrinters localeCompare data codeToPaths ->
       StronglySorted
         (fun a b => not_after localeCompare (material_label a) (material_label b))
         (materials printer).
Proof.
  intros Hcons. split.
  - rewrite buildPrinters_unfold.
    apply (array_sort_StronglySorted (by_printer_label localeCompare)).
    by apply (consistent_comparator_on printer_label).
  - intros printer (raw & _ & _ & ->)%elem_of_buildPrinters.
    rewrite materials_buildPrinter.
    apply (array_sort_StronglySorted (by_material_label localeCompare)).
    by apply (consistent_comparator_on material_label).
Qed.

Lemma buildPrinters_sorted_by_label_witness :
  StronglySorted (fun a b => not_after String.compare (printer_label a) (printer_label b))
    sample_printers.
Proof.
  apply (buildPrinters_sorted_by_label String.compare sample_catalog
           sample_codeToCategoryPaths).
  apply String_compare_consistent.
Defined.

(** X12. A material with settings lists the layer option of its first setting,
    and its code is the material code in the scene of that option. *)
Theorem material_code_of_first_layer_option
    (codeToPaths : gmap string (list string)) (material : RawMaterial)
    (first : RawMaterialSetting) (rest : list RawMaterialSetting) :
  material_settings material = first :: rest ->
  exists o, o ∈ settings (buildMaterial codeToPaths material)
            /\ layer_label o = setting_label first
            /\ material_code (scene o) = code (buildMaterial codeToPaths material).
Proof.
  intros Hraw. exists (layer_option_of first). split; [|split].
  - by apply (settings_buildMaterial_first _ _ _ rest).
  - done.
  - unfold buildMaterial. simpl. by rewrite Hraw.
Qed.

Lemma material_code_of_first_layer_option_witness :
  exists o, o ∈ settings (buildMaterial ∅ sample_grey)
            /\ layer_label o = "Grey 100"
            /\ material_code (scene o) = code (buildMaterial ∅ sample_grey).
Proof.
  exact (material_code_of_first_layer_option ∅ sample_grey
           (sample_setting "Grey 100" "FLGPGR05" (Finite 1 (-1)))
           [sample_setting "Grey 100 (fast)" "FLGPGR05-F" (Finite 1 (-1));
            sample_setting "Grey 50" "FLGPGR04" (Finite 5 (-2))] eq_refl).
Defined.

Lemma is_slug_char_not_hyphen c : is_slug_char c = true -> c <> "-"%char.
Proof. intros Hc ->. by vm_compute in Hc. Qed.

Lemma replace_runs_slug in_run s :
  let out := replace_runs in_run s in
  string_forallb is_slug_or_hyphen out = true
  /\ no_adjacent_hyphens out = true
  /\ (in_run = true -> forall rest, out <> String "-" rest).
Proof.
  revert in_run. induction s as [|c s IH]; intros in_run; simpl; [done|].
  destruct (is_slug_char c) eqn:Hc.
  - destruct (IH false) as (Hall & Hadj & _). simpl.
    unfold is_slug_or_hyphen at 1. rewrite Hc. simpl. split_and!; [done| |].
    + rewrite Hadj, andb_true_r.
      destruct (replace_runs false s); [done|].
      rewrite (bool_decide_false (c = _)); [done|by apply is_slug_char_not_hyphen].
    + intros _ rest [= -> _]. by vm_compute in Hc.
  - destruct in_run.
    + apply (IH true).
    + destruct (IH true) as (Hall & Hadj & Hhead). simpl.
      split_and!; [done| |done].
      rewrite Hadj, andb_true_r.
      destruct (replace_runs true s) as [|d rest] eqn:Hout; [done|].
      rewrite (bool_decide_false (d = _)); [by rewrite ?andb_false_r|].
      intros ->. by apply (Hhead eq_refl rest).
Qed.

(** X13. A printer without machine type ids gets a slug as id: it is made of
    lower-case letters, digits and hyphens only, and no two hyphens are next
    to each other. *)
Theorem printer_id_fallback_is_slug
    (localeCompare : string -> string -> comparison)
    (codeToPaths : gmap string (list string)) (printer : RawPrinter) :
  supported_machine_type_ids printer = [] ->
  let id := printer_id (buildPrinter localeCompare codeToPaths printer) in
  string_forallb is_slug_or_hyphen id = true /\ no_adjacent_hyphens id = true.
Proof.
  intros Hids. unfold buildPrinter. simpl. rewrite Hids. simpl.
  destruct (replace_runs_slug false (toLowerCase (raw_printer_label printer)))
    as (Hall & Hadj & _). done.
Qed.

Lemma printer_id_fallback_is_slug_witness :
  let printer := {| raw_printer_label := "Form 3B+ (Dental)";
                    supported_machine_type_ids := [];
                    supported_product_names := None;
                    raw_materials := [] |} in
  printer_id (buildPrinter String.compare ∅ printer) = "form-3b-dental-"
  /\ string_forallb is_slug_or_hyphen (printer_id (buildPrinter String.compare ∅ printer))
     = true
  /\ no_adjacent_hyphens (printer_id (buildPrinter String.compare ∅ printer)) = true.
Proof.
  split; [reflexivity|].
  apply (printer_id_fallback_is_slug String.compare ∅). reflexivity.
Defined.

(** ** The initial selection and the category filters *)

Lemma find_by_id_elem_of (printers : list PrinterOption) (p : PrinterOption) :
  p ∈ printers ->
  exists q, List.find (fun printer => bool_decide (printer_id printer = printer_id p))
              printers = Some q /\ printer_id q = printer_id p.
Proof.
  intros Hp.
  destruct (List.find (fun printer => bool_decide (printer_id printer = printer_id p))
              printers) as [q|] eqn:Hq.
  - exists q. split; [done|]. apply find_elem_of in Hq as [_ Hq].
    by apply bool_decide_eq_true in Hq.
  - pose proof (find_none_elem_of _ _ p Hq Hp) as Hfalse. simpl in Hfalse.
    by rewrite bool_decide_true in Hfalse.
Qed.

Lemma find_by_id_unique (printers : list PrinterOption) (p : PrinterOption) :
  NoDup (List.map printer_id printers) -> p ∈ printers ->
  List.find (fun printer => bool_decide (printer_id printer = printer_id p)) printers
  = Some p.
Proof.
  intros Hnodup Hp. destruct (find_by_id_elem_of printers p Hp) as (q & Hq & Hid).
  rewrite Hq. f_equal.
  apply find_elem_of in Hq as [Hq _].
  apply list_elem_of_lookup_1 in Hq as [i Hi]. apply list_elem_of_lookup_1 in Hp as [j Hj].
  assert (i = j) as ->; [|congruence].
  apply (NoDup_lookup _ i j (printer_id p) Hnodup).
  - rewrite lookup_map, Hi. simpl. by rewrite Hid.
  - by rewrite lookup_map, Hj.
Qed.

Lemma initial_printer_found (printers : list PrinterOption) :
  printers <> [] ->
  exists printer, selectedPrinter printers (initialSelection printers) = Some printer
                  /\ printer_id printer = defaultPrinterId printers.
Proof.
  intros Hne. unfold selectedPrinter, initialSelection, defaultPrinterId. simpl.
  destruct (List.find (fun printer => bool_decide (printer_label printer = _)) printers)
    as [p|] eqn:Hp.
  - apply find_elem_of in Hp as [Hp _].
    destruct (find_by_id_elem_of printers p Hp) as (q & Hq & Hid). by exists q.
  - destruct printers as [|p rest]; [done|]. simpl.
    rewrite bool_decide_true by done. by exists p.
Qed.

(** X15. The printer selected at first is a printer of the catalog whenever the
    catalog has one: the first printer labelled Form 4 decides the id, else
    the first printer; with distinct printer ids the first printer labelled
    Form 4 is the selected printer itself.  An empty catalog selects none. *)
Theorem defaultPrinterId_selects_printer (printers : list PrinterOption) :
  (printers <> [] ->
   exists printer, selectedPrinter printers (initialSelection printers) = Some printer
                   /\ printer_id printer = defaultPrinterId printers)
  /\ (forall printer,
        NoDup (List.map printer_id printers) ->
        List.find (fun p => bool_decide (printer_label p = DEFAULT_PRINTER_LABEL)) printers
        = Some printer ->
        selectedPrinter printers (initialSelection printers) = Some printer)
  /\ (printers = [] ->
      defaultPrinterId printers = ""
      /\ selectedPrinter printers (initialSelection printers) = None).
Proof.
  split_and!.
  - apply initial_printer_found.
  - intros printer Hnodup Hlabel. unfold selectedPrinter, initialSelection, defaultPrinterId.
    simpl. rewrite Hlabel. apply find_elem_of in Hlabel as [Hin _].
    by apply find_by_id_unique.
  - by intros ->.
Qed.

Lemma defaultPrinterId_selects_printer_witness :
  exists printer,
    selectedPrinter sample_printers (initialSelection sample_printers) = Some printer
    /\ printer_id printer = defaultPrinterId sample_printers.
Proof.
  apply (proj1 (defaultPrinterId_selects_printer sample_printers)).
  intros Hnil. apply (f_equal length) in Hnil. by vm_compute in Hnil.
Defined.

Lemma elem_of_filter_bool {A} (P : A -> bool) (l : list A) (x : A) :
  x ∈ List.filter P l <-> x ∈ l /\ P x = true.
Proof. rewrite !list_elem_of_In. apply filter_In. Qed.

Lemma NoDup_filter_bool {A} (P : A -> bool) (l : list A) :
  NoDup l -> NoDup (List.filter P l).
Proof.
  induction 1 as [|x l Hx Hnodup IH]; simpl; [apply NoDup_nil_2|].
  destruct (P x); [|done]. apply NoDup_cons. split; [|done].
  rewrite elem_of_filter_bool. tauto.
Qed.

Lemma filter_bool_all {A} (P : A -> bool) (l : list A) :
  (forall x, x ∈ l -> P x = true) -> List.filter P l = l.
Proof.
  induction l as [|x l IH]; simpl; [done|]. intros Hall.
  rewrite Hall by (apply elem_of_cons; by left). f_equal.
  apply IH. intros y Hy. apply Hall, elem_of_cons. by right.
Qed.

(** X16. Toggling a category flips whether it is selected and leaves every other
    category as it was; a selection without repetitions stays without
    repetitions, and toggling twice a category that was not selected gives
    the selection back. *)
Theorem toggleCategory_flips_membership (id : string) (prev : list string) :
  (forall other, other ∈ toggleCategory id prev
                 <-> (other <> id /\ other ∈ prev) \/ (other = id /\ id ∉ prev))
  /\ (NoDup prev -> NoDup (toggleCategory id prev))
  /\ (id ∉ prev -> toggleCategory id (toggleCategory id prev) = prev).
Proof.
  unfold toggleCategory. split_and!.
  - intros other. destruct (bool_decide_reflect (id ∈ prev)) as [Hin|Hnotin].
    + rewrite elem_of_filter_bool, negb_true_iff, bool_decide_eq_false. tauto.
    + rewrite elem_of_app, list_elem_of_singleton.
      destruct (decide (other = id)) as [->|Hne]; intuition congruence.
  - intros Hnodup. destruct (bool_decide_reflect (id ∈ prev)) as [Hin|Hnotin].
    + by apply NoDup_filter_bool.
    + apply NoDup_app. split_and!; [done| |apply NoDup_singleton].
      intros x Hx ->%list_elem_of_singleton. done.
  - intros Hnotin. rewrite (bool_decide_false (id ∈ prev)) by done.
    rewrite bool_decide_true by (apply elem_of_app; right; by apply list_elem_of_singleton).
    rewrite List.filter_app. simpl. rewrite (bool_decide_true (id = id)) by done. simpl.
    rewrite app_nil_r. apply filter_bool_all.
    intros x Hx. apply negb_true_iff, bool_decide_eq_false. by intros ->.
Qed.

Lemma toggleCategory_flips_membership_witness :
  toggleCategory "dental" (toggleCategory "dental" ["general"]) = ["general"].
Proof.
  apply (proj2 (proj2 (toggleCategory_flips_membership "dental" ["general"]))).
  intros Hin. apply list_elem_of_singleton in Hin. discriminate Hin.
Defined.

Lemma filter_ext_elem_of {A} (P Q : A -> bool) (l : list A) :
  (forall x, x ∈ l -> P x = Q x) -> List.filter P l = List.filter Q l.
Proof.
  induction l as [|x l IH]; simpl; [done|]. intros Hext.
  rewrite (Hext x) by (apply elem_of_cons; by left).
  rewrite IH; [done|]. intros y Hy. apply Hext, elem_of_cons. by right.
Qed.

(** X17. The filtered materials depend on which categories are selected, not on
    the order of their selection or on repetitions among them. *)
Theorem filteredMaterials_same_categories (printers : list PrinterOption)
    (categoryCodeMap : gmap string (list string)) (st : Selection)
    (ids ids' : list string) :
  (forall id, id ∈ ids <-> id ∈ ids') ->
  filteredMaterials printers categoryCodeMap (with_categories st ids)
  = filteredMaterials printers categoryCodeMap (with_categories st ids').
Proof.
  intros Hsame. unfold filteredMaterials, selectedPrinter, with_categories. simpl.
  destruct (List.find _ printers) as [printer|]; [|done].
  destruct ids as [|i ids], ids' as [|i' ids']; [done| | |].
  - exfalso. apply (elem_of_nil i'), Hsame, elem_of_cons. by left.
  - exfalso. apply (elem_of_nil i), Hsame, elem_of_cons. by left.
  - apply filter_ext_elem_of. intros material _.
    apply bool_decide_ext. rewrite !elem_of_allowedCodes.
    split; intros (id & Hid & Hc); exists id; (split; [by apply Hsame|done]).
Qed.

Lemma filteredMaterials_same_categories_witness :
  filteredMaterials sample_printers sample_categoryCodeMap
    (with_categories (sample_selection [] "" "") ["dental"; "engineering"])
  = filteredMaterials sample_printers sample_categoryCodeMap
      (with_categories (sample_selection [] "" "") ["engineering"; "dental"; "engineering"]).
Proof.
  apply filteredMaterials_same_categories.
  intros id. rewrite !elem_of_cons, !elem_of_nil. tauto.
Defined.

Lemma filter_bool_sublist_mono {A} (P Q : A -> bool) (l : list A) :
  (forall x, P x = true -> Q x = true) ->
  List.filter P l `sublist_of` List.filter Q l.
Proof.
  intros HPQ. induction l as [|x l IH]; simpl; [done|].
  destruct (P x) eqn:HP.
  - rewrite (HPQ x HP). by apply sublist_skip.
  - destruct (Q x); [by apply sublist_cons|done].
Qed.

(** X18. The filtered materials are materials of the selected printer, in the
    printer's order; and as long as a category is selected, selecting more
    categories never removes a material. *)
Theorem filteredMaterials_grow_with_categories (printers : list PrinterOption)
    (categoryCodeMap : gmap string (list string)) (st : Selection)
    (printer : PrinterOption) (ids ids' : list string) :
  selectedPrinter printers st = Some printer ->
  filteredMaterials printers categoryCodeMap st `sublist_of` materials printer
  /\ (ids <> [] -> (forall id, id ∈ ids -> id ∈ ids') ->
      filteredMaterials printers categoryCodeMap (with_categories st ids)
      `sublist_of` filteredMaterials printers categoryCodeMap (with_categories st ids')).
Proof.
  intros Hprinter. split.
  - unfold filteredMaterials. rewrite Hprinter.
    destruct (selectedCategoryIds st); [done|apply filter_bool_sublist_of].
  - intros Hne Hsub. unfold filteredMaterials.
    change (selectedPrinter printers (with_categories st ids))
      with (selectedPrinter printers st).
    change (selectedPrinter printers (with_categories st ids'))
      with (selectedPrinter printers st).
    rewrite Hprinter. simpl.
    destruct ids as [|i ids]; [done|]. destruct ids' as [|i' ids'].
    { exfalso. apply (elem_of_nil i), Hsub, elem_of_cons. by left. }
    apply filter_bool_sublist_mono. intros material.
    rewrite !bool_decide_eq_true, !elem_of_allowedCodes.
    intros (id & Hid & Hc). exists id. split; [by apply Hsub|done].
Qed.

Lemma filteredMaterials_grow_with_categories_witness :
  filteredMaterials sample_printers sample_categoryCodeMap
    (with_categories (sample_selection [] "" "") ["dental"])
  `sublist_of`
  filteredMaterials sample_printers sample_categoryCodeMap
    (with_categories (sample_selection [] "" "") ["engineering"; "dental"]).
Proof.
  destruct (selectedPrinter sample_printers (sample_selection [] "" "")) as [printer|] eqn:Hp;
    [|by vm_compute in Hp].
  apply (proj2 (filteredMaterials_grow_with_categories sample_printers
                  sample_categoryCodeMap (sample_selection [] "" "") printer
                  ["dental"] ["engineering"; "dental"] Hp)); [done|].
  intros id. rewrite !elem_of_cons. tauto.
Defined.

(** ** Settling of the repair effects *)

Section repair_facts.
Variable printers : list PrinterOption.
Variable categoryCodeMap : gmap string (list string).

Local Abbreviation repair := (repairSelection printers categoryCodeMap).

Lemma material_selected_repair_kept st :
  material_selected printers categoryCodeMap st ->
  material_selected printers categoryCodeMap (repair st).
Proof.
  intros Hsel. pose proof Hsel as (material & Hin & Hcode). exists material.
  split; [done|].
  change (selectedMaterialCode (repair st)) with (repairMaterial printers categoryCodeMap st).
  by rewrite repairMaterial_kept.
Qed.

Lemma repairMaterial_settled st :
  repairMaterial printers categoryCodeMap (repair st)
  = repairMaterial printers categoryCodeMap st.
Proof.
  destruct (decide (existsb (fun material =>
                               bool_decide (code material = selectedMaterialCode st))
                      (filteredMaterials printers categoryCodeMap st) = true))
    as [Hsel|Hsel]; rewrite material_selected_exists in Hsel.
  - by rewrite (repairMaterial_kept _ _ _ (material_selected_repair_kept st Hsel)).
  - destruct (decide (existsb (fun material =>
                                 bool_decide (code material
                                              = selectedMaterialCode (repair st)))
                        (filteredMaterials printers categoryCodeMap (repair st)) = true))
      as [Hsel'|Hsel']; rewrite material_selected_exists in Hsel'.
    + by rewrite (repairMaterial_kept _ _ _ Hsel').
    + by rewrite (repairMaterial_reset _ _ _ Hsel'), (repairMaterial_reset _ _ _ Hsel).
Qed.

Lemma selectedMaterial_settled st :
  selectedMaterial printers categoryCodeMap (repair (repair st))
  = selectedMaterial printers categoryCodeMap (repair st).
Proof.
  unfold selectedMaterial.
  change (selectedMaterialCode (repair (repair st)))
    with (repairMaterial printers categoryCodeMap (repair st)).
  change (selectedMaterialCode (repair st))
    with (repairMaterial printers categoryCodeMap st).
  by rewrite repairMaterial_settled.
Qed.

Lemma repairThickness_valid st material :
  selectedMaterial printers categoryCodeMap st = Some material ->
  settings material <> [] ->
  exists setting, setting ∈ settings material
                  /\ NumberToString (layerThickness setting)
                     = repairThickness printers categoryCodeMap st.
Proof.
  intros Hmat Hne. unfold repairThickness. rewrite Hmat.
  destruct (existsb _ (settings material)) eqn:Hex; simpl.
  - apply existsb_elem_of in Hex as (setting & Hin & Heq%bool_decide_eq_true).
    by exists setting.
  - destruct (settings material) as [|setting rest]; [done|]. simpl.
    exists setting. split; [apply elem_of_cons; by left|done].
Qed.

Lemma repairThickness_settled st :
  selectedMaterial printers categoryCodeMap (repair st)
  = selectedMaterial printers categoryCodeMap st ->
  repairThickness printers categoryCodeMap (repair st)
  = repairThickness printers categoryCodeMap st.
Proof.
  intros Hsame.
  destruct (selectedMaterial printers categoryCodeMap st) as [material|] eqn:Hmat.
  - destruct (decide (settings material = [])) as [Hnil|Hne].
    + unfold repairThickness. rewrite Hsame, Hmat, Hnil. done.
    + destruct (repairThickness_valid st material Hmat Hne) as (setting & Hin & Heq).
      apply repairThickness_kept. exists setting. unfold thicknessOptions.
      rewrite Hsame. done.
  - unfold repairThickness. by rewrite Hsame, Hmat.
Qed.

Lemma repairSelection_settled st : repair (repair (repair st)) = repair (repair st).
Proof.
  unfold repairSelection at 1.
  rewrite repairMaterial_settled.
  rewrite (repairThickness_settled (repair st)) by apply selectedMaterial_settled.
  reflexivity.
Qed.

Lemma repairSelection_consistent st :
  material_selected printers categoryCodeMap st ->
  thickness_selected printers categoryCodeMap st ->
  repair st = st.
Proof.
  intros Hmat Hthick. unfold repairSelection.
  rewrite repairMaterial_kept, repairThickness_kept by done. by destruct st.
Qed.

Lemma thicknessOption_settled st material :
  selectedMaterial printers categoryCodeMap (repair st) = Some material ->
  settings material <> [] ->
  exists option, thicknessOption printers categoryCodeMap (repair (repair st)) = Some option
                 /\ option ∈ settings material.
Proof.
  intros Hmat Hne. unfold thicknessOption. rewrite selectedMaterial_settled, Hmat.
  destruct (repairThickness_valid (repair st) material Hmat Hne) as (setting & Hin & Heq).
  change (selectedThickness (repair (repair st)))
    with (repairThickness printers categoryCodeMap (repair st)).
  destruct (List.find _ (settings material)) as [option|] eqn:Hfind.
  - exists option. split; [done|]. by apply find_elem_of in Hfind as [? _].
  - apply (find_none_elem_of _ _ setting) in Hfind; [|done].
    by apply bool_decide_eq_false in Hfind.
Qed.

Lemma selectedMaterial_repaired st :
  filteredMaterials printers categoryCodeMap st <> [] ->
  exists material, selectedMaterial printers categoryCodeMap (repair st) = Some material
                   /\ material ∈ filteredMaterials printers categoryCodeMap st.
Proof.
  intros Hne.
  assert (material_selected printers categoryCodeMap (repair st)) as Hsel.
  { destruct (decide (existsb (fun material =>
                                 bool_decide (code material = selectedMaterialCode st))
                        (filteredMaterials printers categoryCodeMap st) = true))
      as [Hsel|Hsel]; rewrite material_selected_exists in Hsel.
    - by apply material_selected_repair_kept.
    - destruct (filteredMaterials printers categoryCodeMap st) as [|material rest] eqn:Hf;
        [done|].
      exists material. split.
      + change (filteredMaterials printers categoryCodeMap (repair st))
          with (filteredMaterials printers categoryCodeMap st).
        rewrite Hf. apply elem_of_cons. by left.
      + change (selectedMaterialCode (repair st))
          with (repairMaterial printers categoryCodeMap st).
        rewrite (repairMaterial_reset _ _ _ Hsel), Hf. done. }
  apply selectedMaterial_is_Some in Hsel as [material Hmat]. exists material.
  split; [done|]. by apply find_elem_of in Hmat as [? _].
Qed.

Lemma thicknessOption_available st :
  filteredMaterials printers categoryCodeMap st <> [] ->
  (forall material, material ∈ filteredMaterials printers categoryCodeMap st ->
                    settings material <> []) ->
  exists material option,
    selectedMaterial printers categoryCodeMap (repair (repair st)) = Some material
    /\ material ∈ filteredMaterials printers categoryCodeMap st
    /\ thicknessOption printers categoryCodeMap (repair (repair st)) = Some option
    /\ option ∈ settings material.
Proof.
  intros Hne Hsettings.
  destruct (selectedMaterial_repaired st Hne) as (material & Hmat & Hin).
  destruct (thicknessOption_settled st material Hmat (Hsettings _ Hin))
    as (option & Hopt & Hoin).
  exists material, option. by rewrite selectedMaterial_settled.
Qed.
End repair_facts.

Lemma find_first {A} (P : A -> bool) (l : list A) (x : A) :
  List.find P l = Some x
  <-> exists i, l !! i = Some x /\ P x = true
                /\ forall j y, (j < i)%nat -> l !! j = Some y -> P y = false.
Proof.
  induction l as [|a l IH]; simpl.
  - split; [done|]. by intros (i & Hi & _).
  - destruct (P a) eqn:Ha.
    + split.
      * intros [= ->]. exists 0%nat. split_and!; [done..|]. intros j y Hj. lia.
      * intros ([|i] & Hi & Hx & Hfirst); [by injection Hi as ->|].
        specialize (Hfirst 0%nat a ltac:(lia) eq_refl). congruence.
    + rewrite IH. split.
      * intros (i & Hi & Hx & Hfirst). exists (S i). split_and!; [done..|].
        intros [|j] y Hj Hy; [by injection Hy as <-|].
        apply (Hfirst j); [lia|done].
      * intros ([|i] & Hi & Hx & Hfirst); [injection Hi as ->; congruence|].
        exists i. split_and!; [done..|]. intros j y Hj Hy.
        apply (Hfirst (S j)); [lia|done].
Qed.

(** [selectedMaterial] finds the material the selection designates. *)
Lemma selectedMaterial_current printers categoryCodeMap st material :
  selectedMaterial printers categoryCodeMap st = Some material
  <-> current_material printers categoryCodeMap st material.
Proof.
  unfold selectedMaterial, current_material. rewrite find_first.
  split; intros (i & Hi & Hcode & Hfirst); exists i; split_and!; try done.
  - by apply bool_decide_eq_true in Hcode.
  - intros j other Hj Hother.
    by apply (proj1 (bool_decide_eq_false _)), (Hfirst j).
  - by apply bool_decide_eq_true.
  - intros j other Hj Hother.
    by apply (proj2 (bool_decide_eq_false _)), (Hfirst j).
Qed.

Lemma offers_thickness_selected printers categoryCodeMap st material :
  selectedMaterial printers categoryCodeMap st = Some material ->
  thickness_selected printers categoryCodeMap st
  <-> offers_thickness material (selectedThickness st).
Proof.
  intros Hmat. unfold thickness_selected, thicknessOptions, offers_thickness.
  by rewrite Hmat.
Qed.

(** A run that replaces the selected material clears a thickness although
    the new material offers thicknesses, the previous one among them: with
    the filter [engineering], grey resin and 0.1 selected, one run selects
    clear resin, which offers 0.025 and 0.1, and leaves the thickness empty;
    the first available thickness is selected by the next run only. *)
Lemma repair_run_clears_thickness_of_new_material :
  let st := sample_selection ["engineering"] "FLGPGR05" "0.1" in
  let st' := repairSelection sample_printers sample_categoryCodeMap st in
  exists material first,
    current_material sample_printers sample_categoryCodeMap st' material
    /\ List.map (fun option => NumberToString (layerThickness option)) (settings material)
       = ["0.025"; "0.1"]
    /\ head (settings material) = Some first
    /\ selectedThickness st' = ""
    /\ selectedThickness st' <> NumberToString (layerThickness first)
    /\ ~ offers_thickness material (selectedThickness st').
Proof.
  intros st st'.
  destruct (selectedMaterial sample_printers sample_categoryCodeMap st') as [material|]
    eqn:Hmat; [|by vm_compute in Hmat].
  pose proof (proj1 (selectedMaterial_current _ _ _ _) Hmat) as Hcurrent.
  vm_compute in Hmat. injection Hmat as <-.
  eexists _, _. split; [exact Hcurrent|]. split_and!.
  - vm_compute. reflexivity.
  - vm_compute. reflexivity.
  - vm_compute. reflexivity.
  - vm_compute. discriminate.
  - intros (option & Hin & Heq). apply list_elem_of_In in Hin. vm_compute in Hin, Heq.
    destruct Hin as [<-|[<-|[]]]; discriminate Heq.
Qed.

(** C3. A run of the two repair effects, and the runs that follow it.  After
    a run the selected material code is the code of a filtered material, or
    it is empty and no material is filtered: a code that was the code of a
    filtered material is kept, another one is replaced by the code of the
    first filtered material.  After a run the selected thickness is offered
    by the material that the selection designates, or it is empty.  The
    thickness repair reads the material designated before the run: a
    thickness that this material offers is kept, another one is replaced by
    its first thickness, or cleared when it has none; and a run that finds no
    designated material, as the run that replaces the material code does,
    clears the thickness.  After two runs a further run changes nothing;
    then the thickness is offered by the designated material whenever that
    material has a layer option, and it is empty when no material is
    designated. *)
Theorem repairSelection_restores_invariant (printers : list PrinterOption)
    (categoryCodeMap : gmap string (list string)) (st : Selection) :
  let repair := repairSelection printers categoryCodeMap in
  let current := current_material printers categoryCodeMap in
  let filtered := filteredMaterials printers categoryCodeMap st in
  ((exists material, material ∈ filtered
                     /\ code material = selectedMaterialCode (repair st))
   \/ (selectedMaterialCode (repair st) = "" /\ filtered = []))
  /\ ((exists material, material ∈ filtered /\ code material = selectedMaterialCode st) ->
      selectedMaterialCode (repair st) = selectedMaterialCode st)
  /\ (~ (exists material, material ∈ filtered /\ code material = selectedMaterialCode st) ->
      selectedMaterialCode (repair st)
      = match head filtered with
        | Some material => code material
        | None => ""
        end
      /\ selectedThickness (repair st) = "")
  /\ (forall material,
        current (repair st) material ->
        offers_thickness material (selectedThickness (repair st))
        \/ selectedThickness (repair st) = "")
  /\ (forall material,
        current st material ->
        (offers_thickness material (selectedThickness st) ->
         selectedThickness (repair st) = selectedThickness st)
        /\ (~ offers_thickness material (selectedThickness st) ->
            selectedThickness (repair st)
            = match head (settings material) with
              | Some option => NumberToString (layerThickness option)
              | None => ""
              end))
  /\ repair (repair (repair st)) = repair (repair st)
  /\ (forall material,
        current (repair (repair st)) material ->
        settings material <> [] ->
        offers_thickness material (selectedThickness (repair (repair st))))
  /\ ((forall material, ~ current (repair (repair st)) material) ->
      selectedThickness (repair (repair st)) = "").
Proof.
  intros repair current filtered. subst repair current filtered.
  assert (forall st0, (forall material,
                         ~ current_material printers categoryCodeMap st0 material) ->
                      selectedMaterial printers categoryCodeMap st0 = None) as Hnone.
  { intros st0 Hno.
    destruct (selectedMaterial printers categoryCodeMap st0) as [material|] eqn:Hmat;
      [|done].
    by apply selectedMaterial_current, Hno in Hmat. }
  split_and!.
  - destruct (decide (existsb (fun material =>
                                 bool_decide (code material = selectedMaterialCode st))
                        (filteredMaterials printers categoryCodeMap st) = true))
      as [Hsel|Hsel]; rewrite material_selected_exists in Hsel.
    + left. by apply material_selected_repair_kept.
    + change (selectedMaterialCode (repairSelection printers categoryCodeMap st))
        with (repairMaterial printers categoryCodeMap st).
      rewrite (repairMaterial_reset _ _ _ Hsel).
      destruct (filteredMaterials printers categoryCodeMap st) as [|material rest];
        [by right|left].
      exists material. split; [apply elem_of_cons; by left|done].
  - apply repairMaterial_kept.
  - intros Hsel. split; [by apply repairMaterial_reset|].
    change (selectedThickness (repairSelection printers categoryCodeMap st))
      with (repairThickness printers categoryCodeMap st).
    unfold repairThickness.
    destruct (selectedMaterial printers categoryCodeMap st) as [material|] eqn:Hmat;
      [|done].
    exfalso. apply Hsel, selectedMaterial_is_Some. by rewrite Hmat.
  - intros material Hcurrent%selectedMaterial_current.
    destruct (selectedMaterial printers categoryCodeMap st) as [material0|] eqn:Hmat.
    + assert (material_selected printers categoryCodeMap st) as Hsel
        by (apply selectedMaterial_is_Some; by rewrite Hmat).
      assert (material = material0) as ->.
      { unfold selectedMaterial in Hcurrent, Hmat.
        change (filteredMaterials printers categoryCodeMap
                  (repairSelection printers categoryCodeMap st))
          with (filteredMaterials printers categoryCodeMap st) in Hcurrent.
        change (selectedMaterialCode (repairSelection printers categoryCodeMap st))
          with (repairMaterial printers categoryCodeMap st) in Hcurrent.
        rewrite (repairMaterial_kept _ _ _ Hsel) in Hcurrent. congruence. }
      destruct (decide (settings material0 = [])) as [Hnil|Hne].
      * right.
        change (selectedThickness (repairSelection printers categoryCodeMap st))
          with (repairThickness printers categoryCodeMap st).
        unfold repairThickness. by rewrite Hmat, Hnil.
      * left. destruct (repairThickness_valid _ _ st material0 Hmat Hne)
          as (option & Hin & Heq).
        by exists option.
    + right.
      change (selectedThickness (repairSelection printers categoryCodeMap st))
        with (repairThickness printers categoryCodeMap st).
      unfold repairThickness. by rewrite Hmat.
  - intros material Hmat%selectedMaterial_current. split.
    + intros Hoffers. apply repairThickness_kept.
      by apply (offers_thickness_selected _ _ _ _ Hmat).
    + intros Hoffers.
      change (selectedThickness (repairSelection printers categoryCodeMap st))
        with (repairThickness printers categoryCodeMap st).
      rewrite repairThickness_reset
        by (by rewrite (offers_thickness_selected _ _ _ _ Hmat)).
      unfold thicknessOptions. by rewrite Hmat.
  - apply repairSelection_settled.
  - intros material Hmat%selectedMaterial_current Hne.
    rewrite selectedMaterial_settled in Hmat.
    destruct (repairThickness_valid _ _ _ material Hmat Hne) as (option & Hin & Heq).
    by exists option.
  - intros Hno%Hnone. rewrite selectedMaterial_settled in Hno.
    change (selectedThickness
              (repairSelection printers categoryCodeMap
                 (repairSelection printers categoryCodeMap st)))
      with (repairThickness printers categoryCodeMap
              (repairSelection printers categoryCodeMap st)).
    unfold repairThickness. by rewrite Hno.
Qed.

Lemma repairSelection_restores_invariant_witness :
  let st := sample_selection [] "FLGPCL05" "0.05" in
  exists material,
    current_material sample_printers sample_categoryCodeMap st material
    /\ ~ offers_thickness material "0.05"
    /\ selectedThickness (repairSelection sample_printers sample_categoryCodeMap st)
       = "0.025".
Proof.
  intros st.
  destruct (selectedMaterial sample_printers sample_categoryCodeMap st) as [material|]
    eqn:Hmat; [|by vm_compute in Hmat].
  pose proof (proj1 (selectedMaterial_current _ _ _ _) Hmat) as Hcurrent.
  destruct (repairSelection_restores_invariant sample_printers sample_categoryCodeMap st)
    as (_ & _ & _ & _ & Hthickness & _).
  destruct (Hthickness material Hcurrent) as [_ Hreset].
  vm_compute in Hmat. injection Hmat as <-.
  assert (~ offers_thickness
              (buildMaterial sample_codeToCategoryPaths sample_clear) "0.05") as Hoffers.
  { intros (option & Hin & Heq). apply list_elem_of_In in Hin. vm_compute in Hin, Heq.
    destruct Hin as [<-|[<-|[]]]; discriminate Heq. }
  eexists. split; [exact Hcurrent|]. split.
  - intros Hoff. apply Hoffers. destruct Hoff as (option & Hin & Heq).
    exists option. split; [|done]. vm_compute. exact Hin.
  - rewrite Hreset.
    + vm_compute. reflexivity.
    + intros Hoff. apply Hoffers. destruct Hoff as (option & Hin & Heq).
      exists option. split; [|done]. vm_compute. exact Hin.
Defined.

(** X20. The repair effects settle: after two commits a further commit changes
    nothing, the material code being settled after the first one already;
    and a selection whose material and thickness are both among the offered
    ones is left as it is. *)
Theorem repairSelection_settles_in_two_commits (printers : list PrinterOption)
    (categoryCodeMap : gmap string (list string)) (st : Selection) :
  let repair := repairSelection printers categoryCodeMap in
  repair (repair (repair st)) = repair (repair st)
  /\ selectedMaterialCode (repair (repair st)) = selectedMaterialCode (repair st)
  /\ (material_selected printers categoryCodeMap st ->
      thickness_selected printers categoryCodeMap st -> repair st = st).
Proof.
  intros repair. split_and!.
  - apply repairSelection_settled.
  - apply repairMaterial_settled.
  - apply repairSelection_consistent.
Qed.

Lemma repairSelection_settles_in_two_commits_witness :
  let st := sample_selection ["engineering"] "FLGPCL05" "0.025" in
  repairSelection sample_printers sample_categoryCodeMap st = st.
Proof.
  intros st.
  destruct (selectedMaterial sample_printers sample_categoryCodeMap st) as [material|]
    eqn:Hmat; [|by vm_compute in Hmat].
  apply (proj2 (proj2 (repairSelection_settles_in_two_commits
                         sample_printers sample_categoryCodeMap st))).
  - apply selectedMaterial_is_Some. by rewrite Hmat.
  - apply (proj1 (thickness_selected_exists _ _ _ material Hmat)).
    pose proof Hmat as Hvalue. vm_compute in Hvalue. injection Hvalue as <-.
    vm_compute. reflexivity.
Defined.

(** X21. Once the repairs have settled, a material and one of its layer options
    are selected whenever the filter leaves a material and every material it
    leaves has a layer option. *)
Theorem settled_selection_has_layer_option (printers : list PrinterOption)
    (categoryCodeMap : gmap string (list string)) (st : Selection) :
  let settled := repairSelection printers categoryCodeMap
                   (repairSelection printers categoryCodeMap st) in
  filteredMaterials printers categoryCodeMap st <> [] ->
  (forall material, material ∈ filteredMaterials printers categoryCodeMap st ->
                    settings material <> []) ->
  exists material option,
    selectedMaterial printers categoryCodeMap settled = Some material
    /\ material ∈ filteredMaterials printers categoryCodeMap st
    /\ thicknessOption printers categoryCodeMap settled = Some option
    /\ option ∈ settings material.
Proof. intros settled. apply thicknessOption_available. Qed.

Lemma settled_selection_has_layer_option_witness :
  exists material option,
    selectedMaterial sample_printers sample_categoryCodeMap
      (sample_selection ["engineering"] "FLGPCL05" "0.025") = Some material
    /\ thicknessOption sample_printers sample_categoryCodeMap
         (sample_selection ["engineering"] "FLGPCL05" "0.025") = Some option
    /\ layer_label option = "Clear 25".
Proof.
  destruct (settled_selection_has_layer_option sample_printers sample_categoryCodeMap
              (sample_selection ["engineering"] "FLGPGR05" "0.1"))
    as (material & option & Hmat & _ & Hopt & _).
  - intros Hnil. apply (f_equal length) in Hnil. by vm_compute in Hnil.
  - intros material Hin Hnil. vm_compute in Hin.
    apply list_elem_of_singleton in Hin. subst material. done.
  - exists material, option. split_and!.
    + exact Hmat.
    + exact Hopt.
    + vm_compute in Hopt. by injection Hopt as <-.
Defined.

(** X22. The layer option whose scene is offered for copying is a layer option of
    a material of the selected printer: the material has the selected code,
    the option prints as the selected thickness, and with categories
    selected the material matches one of them. *)
Theorem thicknessOption_of_selected_material (printers : list PrinterOption)
    (categoryCodeMap : gmap string (list string)) (st : Selection)
    (option : LayerOption) :
  thicknessOption printers categoryCodeMap st = Some option ->
  exists printer material,
    selectedPrinter printers st = Some printer
    /\ printer ∈ printers
    /\ printer_id printer = selectedPrinterId st
    /\ material ∈ materials printer
    /\ code material = selectedMaterialCode st
    /\ option ∈ settings material
    /\ NumberToString (layerThickness option) = selectedThickness st
    /\ (selectedCategoryIds st <> [] ->
        matches_some_filter categoryCodeMap (selectedCategoryIds st) material = true).
Proof.
  unfold thicknessOption, selectedMaterial, filteredMaterials.
  destruct (selectedPrinter printers st) as [printer|] eqn:Hprinter; [|done].
  destruct (List.find _ _) as [material|] eqn:Hmat; [|done].
  intros [Hin Heq%bool_decide_eq_true]%find_elem_of.
  apply find_elem_of in Hmat as [Hmat Hcode%bool_decide_eq_true].
  apply find_elem_of in Hprinter as [Hprinter Hid%bool_decide_eq_true].
  exists printer, material. split_and!; try done.
  - destruct (selectedCategoryIds st); [done|].
    by apply elem_of_filter_bool in Hmat as [? _].
  - intros Hne. destruct (selectedCategoryIds st) as [|i ids] eqn:Hids; [done|].
    apply elem_of_filter_bool in Hmat as [_ Hallowed%bool_decide_eq_true].
    apply matches_some_filter_spec. by apply elem_of_allowedCodes.
Qed.

Lemma thicknessOption_of_selected_material_witness :
  exists option printer material,
    thicknessOption sample_printers sample_categoryCodeMap
      (sample_selection ["engineering"] "FLGPCL05" "0.025") = Some option
    /\ selectedPrinter sample_printers (sample_selection ["engineering"] "FLGPCL05" "0.025")
       = Some printer
    /\ material ∈ materials printer
    /\ option ∈ settings material.
Proof.
  destruct (thicknessOption sample_printers sample_categoryCodeMap
              (sample_selection ["engineering"] "FLGPCL05" "0.025")) as [option|] eqn:Hopt;
    [|by vm_compute in Hopt].
  destruct (thicknessOption_of_selected_material _ _ _ _ Hopt)
    as (printer & material & Hprinter & _ & _ & Hmat & _ & Hin & _).
  by exists option, printer, material.
Defined.



(** ** Copy status, page load and thickness values *)

Lemma copy_run_snoc events event :
  copy_run (events ++ [event]) = copy_step (copy_run events) event.
Proof. unfold copy_run. by rewrite foldl_app. Qed.

(** X24. Whatever happens, a status other than idle has a reset scheduled: the
    message of a copy is taken down by the time every scheduled reset has
    run.  The last event decides the status: a write that resolved shows
    copied, one that rejected shows the error. *)
Theorem copy_status_is_reset (events : list CopyEvent) :
  (pendingResets (copy_run events) = 0%nat -> copyState (copy_run events) = copy_idle)
  /\ copyState (copy_run (events ++ [WriteResolved])) = copy_copied
  /\ copyState (copy_run (events ++ [WriteRejected])) = copy_error.
Proof.
  split_and!.
  - induction events as [|event events IH] using rev_ind; [done|].
    rewrite copy_run_snoc. destruct event; simpl; try done.
    destruct (pendingResets (copy_run events)) eqn:Hpending; [by auto|done].
  - by rewrite copy_run_snoc.
  - by rewrite copy_run_snoc.
Qed.

Lemma copy_status_is_reset_witness :
  copyState (copy_run [WriteResolved; WriteRejected; ResetFired; ResetFired]) = copy_idle.
Proof.
  apply (proj1 (copy_status_is_reset [WriteResolved; WriteRejected; ResetFired; ResetFired])).
  reflexivity.
Defined.

Lemma buildPrinters_nonempty localeCompare data codeToPaths :
  existsb has_materials (printer_types data) = true ->
  buildPrinters localeCompare data codeToPaths <> [].
Proof.
  intros Hex Hnil. apply (f_equal length) in Hnil.
  rewrite buildPrinters_unfold, array_sort_length, length_map in Hnil.
  apply existsb_elem_of in Hex as (raw & Hin & Hhas).
  assert (raw ∈ List.filter has_materials (printer_types data)) as Hraw
    by by apply elem_of_filter_bool.
  destruct (List.filter has_materials (printer_types data)); [|done].
  by apply elem_of_nil in Hraw.
Qed.

(** X23. On load, when the catalog data has a printer with a material that has a
    setting, the default printer is selected and, once the repairs have
    settled, so are one of its materials and one of the layer options of that
    material: there is a scene to copy. *)
Theorem page_load_selects_layer_option
    (localeCompare : string -> string -> comparison) (data : RawMaterialData)
    (codeToPaths categoryCodeMap : gmap string (list string)) :
  let printers := buildPrinters localeCompare data codeToPaths in
  let settled := repairSelection printers categoryCodeMap
                   (repairSelection printers categoryCodeMap (initialSelection printers)) in
  existsb has_materials (printer_types data) = true ->
  exists printer material option,
    selectedPrinter printers settled = Some printer
    /\ printer_id printer = defaultPrinterId printers
    /\ selectedMaterial printers categoryCodeMap settled = Some material
    /\ material ∈ materials printer
    /\ thicknessOption printers categoryCodeMap settled = Some option
    /\ option ∈ settings material.
Proof.
  intros printers settled Hex.
  destruct (initial_printer_found printers
              (buildPrinters_nonempty localeCompare data codeToPaths Hex))
    as (printer & Hprinter & Hid).
  assert (filteredMaterials printers categoryCodeMap (initialSelection printers)
          = materials printer) as Hfiltered.
  { unfold filteredMaterials. by rewrite Hprinter. }
  pose proof Hprinter as [Hin _]%find_elem_of.
  destruct (buildPrinters_materials_settings _ _ _ _ Hin) as [Hmaterials Hsettings].
  destruct (thicknessOption_available printers categoryCodeMap (initialSelection printers))
    as (material & option & Hmat & Hmin & Hopt & Hoin).
  - by rewrite Hfiltered.
  - rewrite Hfiltered. apply Hsettings.
  - exists printer, material, option. rewrite Hfiltered in Hmin. done.
Qed.

Lemma page_load_selects_layer_option_witness :
  exists printer material option,
    selectedPrinter sample_printers
      (repairSelection sample_printers sample_categoryCodeMap
         (repairSelection sample_printers sample_categoryCodeMap
            (initialSelection sample_printers))) = Some printer
    /\ printer_id printer = "FORM-4-0"
    /\ material_label material = "Clear Resin"
    /\ layer_label option = "Clear 25".
Proof.
  destruct (page_load_selects_layer_option String.compare sample_catalog
              sample_codeToCategoryPaths sample_categoryCodeMap)
    as (printer & material & option & Hprinter & Hid & Hmat & _ & Hopt & _).
  - reflexivity.
  - exists printer, material, option. split_and!.
    + exact Hprinter.
    + rewrite Hid. vm_compute. reflexivity.
    + vm_compute in Hmat. by injection Hmat as <-.
    + vm_compute in Hopt. by injection Hopt as <-.
Defined.

Lemma NumberToString_negative_head p e :
  exists c r, NumberToString (Finite (Zneg p) e) = String "-" (String c r)
              /\ is_digit c = true.
Proof.
  destruct (positive_to_string_head p e) as (c & r & Heq & Hc).
  exists c, r. split; [|done]. simpl. by rewrite Heq.
Qed.

Lemma NumberToString_finite_not_other a b :
  is_finite a = true -> is_finite b = false -> NumberToString a <> NumberToString b.
Proof.
  destruct a as [| |[|p|p] e]; try done; intros _ Hb Heq.
  - destruct b as [|[|]|]; try done; simpl in Heq; discriminate Heq.
  - destruct (positive_to_string_head p e) as (c & r & Hs & Hc).
    simpl in Heq. rewrite Hs in Heq.
    destruct b as [|[|]|]; try done; simpl in Heq;
      injection Heq as -> _; by vm_compute in Hc.
  - destruct (NumberToString_negative_head p e) as (c & r & Hs & Hc).
    rewrite Hs in Heq.
    destruct b as [|[|]|]; try done; simpl in Heq; try discriminate Heq.
    injection Heq as -> _. by vm_compute in Hc.
Qed.

Lemma NumberToString_inj a b :
  canonical a = true -> canonical b = true ->
  NumberToString a = NumberToString b -> a = b.
Proof.
  intros Ha Hb Heq.
  destruct (is_finite a) eqn:Hfa, (is_finite b) eqn:Hfb.
  - pose proof (parse_number_NumberToString a "" Hfa Ha eq_refl) as Hpa.
    pose proof (parse_number_NumberToString b "" Hfb Hb eq_refl) as Hpb.
    rewrite Heq in Hpa. congruence.
  - by destruct (NumberToString_finite_not_other a b Hfa Hfb).
  - by destruct (NumberToString_finite_not_other b a Hfb Hfa).
  - destruct a as [|[|]|], b as [|[|]|]; done.
Qed.

(** X14. The value of a thickness option in the selector identifies the option:
    no two layer options of a material print the same thickness. *)
Theorem printed_thickness_identifies_option
    (codeToPaths : gmap string (list string)) (material : RawMaterial)
    (a b : LayerOption) :
  (forall s, s ∈ material_settings material -> canonical (thickness_key s) = true) ->
  a ∈ settings (buildMaterial codeToPaths material) ->
  b ∈ settings (buildMaterial codeToPaths material) ->
  NumberToString (layerThickness a) = NumberToString (layerThickness b) ->
  a = b.
Proof.
  intros Hcanon (i & s & Hs & ->)%elem_of_settings_buildMaterial
         (j & s' & Hs' & ->)%elem_of_settings_buildMaterial Heq.
  f_equal. apply (first_with_thickness_unique _ i s j s' Hs Hs').
  assert (thickness_key s = thickness_key s') as ->; [|apply SameValueZero_refl].
  apply NumberToString_inj; [| |done].
  - apply Hcanon. destruct Hs as [Hs _]. by apply list_elem_of_lookup_2 in Hs.
  - apply Hcanon. destruct Hs' as [Hs' _]. by apply list_elem_of_lookup_2 in Hs'.
Qed.

Lemma printed_thickness_identifies_option_witness :
  let option := layer_option_of (sample_setting "Grey 50" "FLGPGR04" (Finite 5 (-2))) in
  option ∈ settings (buildMaterial ∅ sample_grey) /\ option = option.
Proof.
  intros option.
  assert (option ∈ settings (buildMaterial ∅ sample_grey)) as Hin
    by (apply (list_elem_of_lookup_2 _ 0); vm_compute; reflexivity).
  split; [exact Hin|].
  apply (printed_thickness_identifies_option ∅ sample_grey option option);
    [|exact Hin|exact Hin|reflexivity].
  intros s Hs. apply list_elem_of_In in Hs. simpl in Hs.
  destruct Hs as [<-|[<-|[<-|[]]]]; reflexivity.
Defined.
